(** * recover_media.py: MBDB manifest decoder and media recovery

    A shallow embedding of [recover_media.py].  Python integers that the
    program only ever keeps non-negative (offsets, field values, counters,
    code points) are [N]; byte strings are lists of [byte]; text strings
    ([str]) are lists of Unicode code points; dictionaries whose iteration
    order is observable are insertion-ordered association lists, the other
    ones are [gmap]s; exceptions are an explicit [result] type. *)

From Stdlib Require Import NArith ZArith Lia List Strings.Byte String Ascii DecimalString DecimalN.
From stdpp Require Import base option list gmap strings.
Import ListNotations.

Local Open Scope N_scope.

(** ** Python values *)

Abbreviation bytes := (list byte).

(** Text: a sequence of code points. *)
Abbreviation str := (list N).

Definition b2n (b : byte) : N := Byte.to_N b.

#[global] Instance byte_eq_dec : EqDecision byte := Byte.byte_eq_dec.

(** The byte of a number below 256 (the low eight bits otherwise). *)
Definition n2b (n : N) : byte :=
  match Byte.of_N (n mod 256) with
  | Some b => b
  | None => x00
  end.

(** A text literal: the code points of an ASCII string. *)
Definition lit (s : string) : str := map b2n (list_byte_of_string s).

(** A bytes literal. *)
Definition blit (s : string) : bytes := list_byte_of_string s.

(** The exceptions the program can meet. *)
Inductive exn :=
| NotMbdb              (* Exception("This does not look like an MBDB file") *)
| IndexError           (* data[offset] with offset out of range *)
| UnicodeDecodeError   (* bytes.decode("utf-8") on malformed input *)
| UnicodeEncodeError   (* str.encode("utf-8") on a surrogate *)
| FileNotFoundError
| OSError.             (* any other failure of a copy or of os.makedirs *)

Inductive result (A : Type) :=
| Ok (a : A)
| Raise (e : exn).
Arguments Ok {A} a.
Arguments Raise {A} e.

#[global] Instance result_ret : MRet result := fun A a => Ok a.
#[global] Instance result_bind : MBind result := fun A B f m =>
  match m with
  | Ok a => f a
  | Raise e => Raise e
  end.

(** [data[i]] for a non-negative index. *)
Definition index (data : bytes) (i : N) : result N :=
  match data !! N.to_nat i with
  | Some b => Ok (b2n b)
  | None => Raise IndexError
  end.

(** [data[a:b]] for non-negative bounds: out-of-range bounds are clipped. *)
Definition slice (data : bytes) (a b : N) : bytes :=
  take (N.to_nat (b - a)) (drop (N.to_nat a) data).

Definition len {A} (l : list A) : N := N.of_nat (length l).

(** ** Record decoder *)

(** The [while intsize > 0] loop of [getint]. *)
Fixpoint getint_loop (data : bytes) (value offset : N) (intsize : nat)
  : result (N * N) :=
  match intsize with
  | O => Ok (value, offset)
  | S intsize' =>
      b ← index data offset;
      getint_loop data (N.shiftl value 8 + b) (offset + 1) intsize'
  end.

Definition getint (data : bytes) (offset : N) (intsize : nat) : result (N * N) :=
  getint_loop data 0 offset intsize.

Definition getstring (data : bytes) (offset : N) : result (bytes * N) :=
  let by_length :=
    '(length, offset) ← getint data offset 2;
    Ok (slice data offset (offset + length), offset + length) in
  b0 ← index data offset;
  if b0 =? 0xFF then
    b1 ← index data (offset + 1);
    if b1 =? 0xFF then Ok ([], offset + 2) else by_length
  else by_length.

(** The encoding the round-trip property of the specification speaks of:
    a two-byte big-endian length prefix followed by the bytes. *)
Definition encode_string (s : bytes) : bytes :=
  n2b (len s / 256) :: n2b (len s mod 256) :: s.

(** ** Text codec (CPython's UTF-8 decoder and encoder)

    [utf8_scan] walks the bytes the way CPython's decoder does and yields,
    for each unit, the code point it decodes to, or [None] for a malformed
    unit (an invalid start byte, a lead byte followed by an invalid
    continuation, or a sequence cut short by the end of the data).  The
    error handler then decides: ["replace"] substitutes U+FFFD and goes on,
    the default (strict) handler raises. *)

Definition is_continuation (b : N) : bool := (0x80 <=? b) && (b <? 0xC0).

Fixpoint utf8_scan (bs : bytes) : list (option N) :=
  match bs with
  | [] => []
  | c0 :: r0 =>
    let ch := b2n c0 in
    if ch <? 0x80 then Some ch :: utf8_scan r0
    else if ch <? 0xC2 then None :: utf8_scan r0
    else if ch <? 0xE0 then
      match r0 with
      | [] => [None]
      | c1 :: r1 =>
        let ch2 := b2n c1 in
        if is_continuation ch2
        then Some (N.shiftl ch 6 + ch2 - 0x3080) :: utf8_scan r1
        else None :: utf8_scan r0
      end
    else if ch <? 0xF0 then
      match r0 with
      | [] => [None]
      | c1 :: r1 =>
        let ch2 := b2n c1 in
        if negb (is_continuation ch2)
           || (if ch2 <? 0xA0 then ch =? 0xE0 else ch =? 0xED)
        then None :: utf8_scan r0
        else
          match r1 with
          | [] => [None]
          | c2 :: r2 =>
            let ch3 := b2n c2 in
            if is_continuation ch3
            then Some (N.shiftl ch 12 + N.shiftl ch2 6 + ch3 - 0xE2080)
                   :: utf8_scan r2
            else None :: utf8_scan r1
          end
      end
    else if ch <? 0xF5 then
      match r0 with
      | [] => [None]
      | c1 :: r1 =>
        let ch2 := b2n c1 in
        if negb (is_continuation ch2)
           || (if ch2 <? 0x90 then ch =? 0xF0 else ch =? 0xF4)
        then None :: utf8_scan r0
        else
          match r1 with
          | [] => [None]
          | c2 :: r2 =>
            let ch3 := b2n c2 in
            if negb (is_continuation ch3) then None :: utf8_scan r1
            else
              match r2 with
              | [] => [None]
              | c3 :: r3 =>
                let ch4 := b2n c3 in
                if is_continuation ch4
                then Some (N.shiftl ch 18 + N.shiftl ch2 12 + N.shiftl ch3 6
                           + ch4 - 0x3C82080) :: utf8_scan r3
                else None :: utf8_scan r2
              end
          end
      end
    else None :: utf8_scan r0
  end.

Definition replacement_character : N := 0xFFFD.

(** [b.decode("utf-8", "replace")] *)
Definition decode_replace (b : bytes) : str :=
  map (fun u => default replacement_character u) (utf8_scan b).

(** [b.decode("utf-8")] *)
Definition decode_strict (b : bytes) : result str :=
  match mapM id (utf8_scan b) with
  | Some s => Ok s
  | None => Raise UnicodeDecodeError
  end.

Definition utf8_char (c : N) : result bytes :=
  if c <? 0x80 then Ok [n2b c]
  else if c <? 0x800 then
    Ok [n2b (N.lor 0xC0 (N.shiftr c 6)); n2b (N.lor 0x80 (N.land c 0x3F))]
  else if c <? 0x10000 then
    if (0xD800 <=? c) && (c <=? 0xDFFF) then Raise UnicodeEncodeError
    else Ok [n2b (N.lor 0xE0 (N.shiftr c 12));
             n2b (N.lor 0x80 (N.land (N.shiftr c 6) 0x3F));
             n2b (N.lor 0x80 (N.land c 0x3F))]
  else if c <? 0x110000 then
    Ok [n2b (N.lor 0xF0 (N.shiftr c 18));
        n2b (N.lor 0x80 (N.land (N.shiftr c 12) 0x3F));
        n2b (N.lor 0x80 (N.land (N.shiftr c 6) 0x3F));
        n2b (N.lor 0x80 (N.land c 0x3F))]
  else Raise UnicodeEncodeError.

(** [s.encode("utf-8")] *)
Fixpoint encode_utf8 (s : str) : result bytes :=
  match s with
  | [] => Ok []
  | c :: s' =>
      b ← utf8_char c;
      r ← encode_utf8 s';
      Ok (b ++ r)
  end.

(** ** hashlib.sha1 (FIPS 180-4), 32-bit words with explicit wrap-around *)

Definition add32 (a b : N) : N := (a + b) mod 2 ^ 32.
Definition rotl32 (n x : N) : N :=
  N.lor (N.shiftl x n mod 2 ^ 32) (N.shiftr x (32 - n)).
Definition not32 (x : N) : N := N.lxor x 0xFFFFFFFF.

Fixpoint be_bytes (n : nat) (x : N) : list N :=
  match n with
  | O => []
  | S n' => be_bytes n' (x / 256) ++ [x mod 256]
  end.

Definition sha1_pad (msg : list N) : list N :=
  let l := length msg in
  let k := ((64 - (l + 9) mod 64) mod 64)%nat in
  msg ++ [0x80] ++ repeat 0 k ++ be_bytes 8 (8 * N.of_nat l).

Fixpoint be_words (bs : list N) : list N :=
  match bs with
  | a :: b :: c :: d :: r => (((a * 256 + b) * 256 + c) * 256 + d) :: be_words r
  | _ => []
  end.

Fixpoint sha1_extend (n : nat) (w : list N) : list N :=
  match n with
  | O => w
  | S n' =>
      let i := length w in
      let x := N.lxor (N.lxor (nth (i - 3) w 0) (nth (i - 8) w 0))
                      (N.lxor (nth (i - 14) w 0) (nth (i - 16) w 0)) in
      sha1_extend n' (w ++ [rotl32 1 x])
  end.

Definition sha1_state : Type := N * N * N * N * N.

Definition sha1_round (st : sha1_state) (i : nat) (w : N) : sha1_state :=
  let '(a, b, c, d, e) := st in
  let '(f, k) :=
    if (i <? 20)%nat then (N.lor (N.land b c) (N.land (not32 b) d), 0x5A827999)
    else if (i <? 40)%nat then (N.lxor (N.lxor b c) d, 0x6ED9EBA1)
    else if (i <? 60)%nat then
      (N.lor (N.lor (N.land b c) (N.land b d)) (N.land c d), 0x8F1BBCDC)
    else (N.lxor (N.lxor b c) d, 0xCA62C1D6) in
  let temp := add32 (add32 (add32 (add32 (rotl32 5 a) f) e) k) w in
  (temp, a, rotl32 30 b, c, d).

Fixpoint sha1_rounds (st : sha1_state) (i : nat) (ws : list N) : sha1_state :=
  match ws with
  | [] => st
  | w :: ws' => sha1_rounds (sha1_round st i w) (S i) ws'
  end.

Definition sha1_chunk (h : sha1_state) (chunk : list N) : sha1_state :=
  let '(h0, h1, h2, h3, h4) := h in
  let '(a, b, c, d, e) := sha1_rounds h 0 (sha1_extend 64 chunk) in
  (add32 h0 a, add32 h1 b, add32 h2 c, add32 h3 d, add32 h4 e).

Fixpoint sha1_chunks (n : nat) (h : sha1_state) (ws : list N) : sha1_state :=
  match n with
  | O => h
  | S n' => sha1_chunks n' (sha1_chunk h (take 16 ws)) (drop 16 ws)
  end.

Definition sha1 (msg : bytes) : sha1_state :=
  let ws := be_words (sha1_pad (map b2n msg)) in
  sha1_chunks (length ws / 16)
    (0x67452301, 0xEFCDAB89, 0x98BADCFE, 0x10325476, 0xC3D2E1F0) ws.

Definition hex_digit (n : N) : N := if n <? 10 then 48 + n else 87 + n.

Fixpoint hex_digits (n : nat) (x : N) : str :=
  match n with
  | O => []
  | S n' => hex_digits n' (x / 16) ++ [hex_digit (x mod 16)]
  end.

(** [hashlib.sha1(msg).hexdigest()]: forty lowercase hexadecimal digits. *)
Definition sha1_hexdigest (msg : bytes) : str :=
  let '(h0, h1, h2, h3, h4) := sha1 msg in
  hex_digits 8 h0 ++ hex_digits 8 h1 ++ hex_digits 8 h2
    ++ hex_digits 8 h3 ++ hex_digits 8 h4.

(** ** Insertion-ordered dictionaries

    [d[k] = v] on a Python dict: an existing key keeps its place and gets
    the new value, a new key goes to the end. *)

Abbreviation dict K V := (list (K * V)).

Fixpoint dict_set `{EqDecision K} {V} (d : dict K V) (k : K) (v : V) : dict K V :=
  match d with
  | [] => [(k, v)]
  | (k', v') :: d' =>
      if decide (k' = k) then (k', v) :: d' else (k', v') :: dict_set d' k v
  end.

Fixpoint dict_get `{EqDecision K} {V} (d : dict K V) (k : K) : option V :=
  match d with
  | [] => None
  | (k', v') :: d' => if decide (k' = k) then Some v' else dict_get d' k
  end.

(** ** Manifest reader *)

Record fileinfo := {
  start_offset : N;
  domain : bytes;
  filename : bytes;
  linktarget : bytes;
  datahash : bytes;
  unknown1 : bytes;
  mode : N;
  unknown2 : N;
  unknown3 : N;
  userid : N;
  groupid : N;
  mtime : N;
  atime : N;
  ctime : N;
  filelen : N;
  flag : N;
  numprops : N;
  properties : dict str str
}.

(** The [for _ in range(numprops)] loop, with the dictionary built so far. *)
Fixpoint props_loop (data : bytes) (offset : N) (n : nat) (props : dict str str)
  : result (dict str str * N) :=
  match n with
  | O => Ok (props, offset)
  | S n' =>
      '(propname, offset) ← getstring data offset;
      '(propval, offset) ← getstring data offset;
      let propname_str := decode_replace propname in
      let propval_str := decode_replace propval in
      props_loop data offset n' (dict_set props propname_str propval_str)
  end.

(** Lines 39 to 64: one record, read at [offset]. *)
Definition read_fileinfo (data : bytes) (offset : N) : result (fileinfo * N) :=
  let start := offset in
  '(domain, offset) ← getstring data offset;
  '(filename, offset) ← getstring data offset;
  '(linktarget, offset) ← getstring data offset;
  '(datahash, offset) ← getstring data offset;
  '(unknown1, offset) ← getstring data offset;
  '(mode, offset) ← getint data offset 2;
  '(unknown2, offset) ← getint data offset 4;
  '(unknown3, offset) ← getint data offset 4;
  '(userid, offset) ← getint data offset 4;
  '(groupid, offset) ← getint data offset 4;
  '(mtime, offset) ← getint data offset 4;
  '(atime, offset) ← getint data offset 4;
  '(ctime, offset) ← getint data offset 4;
  '(filelen, offset) ← getint data offset 8;
  '(flag, offset) ← getint data offset 1;
  '(numprops, offset) ← getint data offset 1;
  '(props, offset) ← props_loop data offset (N.to_nat numprops) [];
  Ok ({| start_offset := start; domain := domain; filename := filename;
         linktarget := linktarget; datahash := datahash; unknown1 := unknown1;
         mode := mode; unknown2 := unknown2; unknown3 := unknown3;
         userid := userid; groupid := groupid; mtime := mtime; atime := atime;
         ctime := ctime; filelen := filelen; flag := flag;
         numprops := numprops; properties := props |}, offset).

(** Lines 67 to 69: the identifier stored in [mbdx] for a record. *)
Definition file_id (f : fileinfo) : result str :=
  let fullpath := decode_replace (domain f ++ blit "-" ++ filename f) in
  b ← encode_utf8 fullpath;
  Ok (sha1_hexdigest b).

(** What a run of the reader leaves behind: the [mbdb] it returns, the
    module-level [mbdx] it fills, and the final value of [offset]. *)
Record parsed := {
  mbdb : dict N fileinfo;
  mbdx : gmap N str;
  end_offset : N
}.

(** A computation that may also run out of fuel. *)
Inductive fueled (A : Type) :=
| Done (a : A)
| OutOfFuel.
Arguments Done {A} a.
Arguments OutOfFuel {A}.

(** The [while offset < len(data)] loop. *)
Fixpoint mbdb_loop (fuel : nat) (data : bytes) (st : parsed)
  : fueled (result parsed) :=
  if end_offset st <? len data then
    match fuel with
    | O => OutOfFuel
    | S fuel' =>
        match read_fileinfo data (end_offset st) with
        | Raise e => Done (Raise e)
        | Ok (f, offset) =>
            match file_id f with
            | Raise e => Done (Raise e)
            | Ok id =>
                mbdb_loop fuel' data
                  {| mbdb := dict_set (mbdb st) (start_offset f) f;
                     mbdx := <[start_offset f := id]> (mbdx st);
                     end_offset := offset |}
            end
        end
    end
  else Done (Ok st).

(** Lines 33 to 70, on the bytes read from the file; [mbdx0] is the
    module-level dictionary on entry.  Every record is at least fifty bytes
    long, so the length of the data is fuel enough. *)
Definition process_mbdb_data (data : bytes) (mbdx0 : gmap N str)
  : fueled (result parsed) :=
  if decide (slice data 0 4 = blit "mbdb") then
    mbdb_loop (length data) data {| mbdb := []; mbdx := mbdx0; end_offset := 4 + 2 |}
  else Done (Raise NotMbdb).

(** ** Text operations *)

(** [s.rfind(c)] for a one-character [c]: the last index of [c], or -1. *)
Fixpoint rfind_from (s : str) (c : N) (i found : Z) : Z :=
  match s with
  | [] => found
  | x :: s' => rfind_from s' c (i + 1) (if x =? c then i else found)
  end.

Definition rfind (s : str) (c : N) : Z := rfind_from s c 0 (-1).

(** [s[i:]]: a negative index counts from the end; both are clipped. *)
Definition slice_from {A} (s : list A) (i : Z) : list A :=
  let n := Z.of_nat (length s) in
  let i := if (i <? 0)%Z then Z.max (i + n) 0 else Z.min i n in
  drop (Z.to_nat i) s.

(** The lowercase mapping of one code point: one to three code points
    (CPython's [_PyUnicode_ToLowerFull] fills a buffer of three). *)
Inductive lowered :=
| Lower1 (a : N)
| Lower2 (a b : N)
| Lower3 (a b c : N).

Definition lowered_str (l : lowered) : str :=
  match l with
  | Lower1 a => [a]
  | Lower2 a b => [a; b]
  | Lower3 a b c => [a; b; c]
  end.

Definition ascii_lower (c : N) : N :=
  if (65 <=? c) && (c <=? 90) then c + 32 else c.

(** [f"{n}"] for a non-negative integer. *)
Definition str_of_N (n : N) : str := lit (NilZero.string_of_uint (N.to_uint n)).

Definition pad2 (n : N) : str :=
  if n <? 10 then lit "0" ++ str_of_N n else str_of_N n.

(** [dt.fromtimestamp(t).strftime("%Y_%m_%d")] when the local zone is UTC
    (the civil date of day number [t // 86400], proleptic Gregorian). *)
Definition utc_date (t : N) : str :=
  let z := t / 86400 + 719468 in
  let era := z / 146097 in
  let doe := z mod 146097 in
  let yoe := (doe + doe / 36524 - doe / 1460 - doe / 146096) / 365 in
  let doy := doe + yoe / 100 - 365 * yoe - yoe / 4 in
  let mp := (5 * doy + 2) / 153 in
  let d := doy + 1 - (153 * mp + 2) / 5 in
  let m := if mp <? 10 then mp + 3 else mp - 9 in
  let y := yoe + era * 400 + (if m <=? 2 then 1 else 0) in
  str_of_N y ++ lit "_" ++ pad2 m ++ lit "_" ++ pad2 d.

(** [os.path.join(a, b)] and [os.path.basename(p)] (POSIX). *)
Definition path_join (a b : str) : str :=
  match b with
  | 47 :: _ => b
  | _ =>
      match last a with
      | None => b
      | Some 47 => a ++ b
      | Some _ => a ++ lit "/" ++ b
      end
  end.

Definition basename (p : str) : str := slice_from p (rfind p 47 + 1).

(** ** What the program takes from its surroundings *)

Record env := {
  (** the Unicode database: the lowercase mapping of a non-ASCII code
      point, given the code points before and after it in the string *)
  tolower_full : str -> N -> str -> lowered;
  (** [dt.fromtimestamp(t).strftime("%Y_%m_%d")] in the local time zone *)
  local_date : N -> str;
  (** [open(name, 'rb').read()] *)
  read_file : str -> result bytes;
  (** [os.path.exists(name)] *)
  path_exists : str -> bool;
  (** [os.makedirs(name)]: it raises when the last directory is there
      already ([FileExistsError], as for a name that ends in [..]) or
      cannot be made *)
  os_makedirs : str -> result unit;
  (** [shutil.copy(src, dst)] *)
  shutil_copy : str -> str -> result unit
}.

(** [s.lower()], code point by code point; [before] holds the code points
    already passed. *)
Fixpoint lower_from (E : env) (before s : str) : str :=
  match s with
  | [] => []
  | c :: after =>
      (if c <? 128 then [ascii_lower c]
       else lowered_str (tolower_full E before c after))
      ++ lower_from E (before ++ [c]) after
  end.

Definition lower (E : env) (s : str) : str := lower_from E [] s.

(** ** Recovery orchestrator *)

Inductive pyval :=
| PyBytes (b : bytes)
| PyStr (s : str).

Definition extension (E : env) (s : pyval) : str :=
  let s := match s with
           | PyBytes b => decode_replace b
           | PyStr s => s
           end in
  lower E (slice_from s (rfind s 46)).

Definition media_extensions : list str :=
  map lit [".jpg"; ".jpeg"; ".png"; ".tiff"; ".heic"; ".mov"; ".mp4"; ".mp3"; ".pdf"]%string.

(** What a run does to the outside: the calls of [os.makedirs] and
    [shutil.copy] that returned, and the lines printed.  A call that raises
    leaves no event; what it may have done before it raised is not
    recorded.  The text of the "No fileID found" report is
    [fileinfo_str(fileinfo, verbose=True)]; the event carries the record it
    is rendered from. *)
Inductive event :=
| Makedirs (name : str)
| Copied (src dst : str)
| Stdout (line : str)
| StderrNoFileID (f : fileinfo).

Record mstate := {
  media_recovered : N;
  seen_dates : gmap str N;
  events : list event
}.

Definition emit (ev : event) (st : mstate) : mstate :=
  {| media_recovered := media_recovered st;
     seen_dates := seen_dates st;
     events := events st ++ [ev] |}.

(** The body of the [for offset, fileinfo in mbdb.items()] loop: the new
    state, and the exception that leaves the loop, if any. *)
Definition main_body (E : env) (backup_path dest_folder : str) (mbdx : gmap N str)
    (st : mstate) (offset : N) (f : fileinfo) : mstate * option exn :=
  match mbdx !! offset with
  | Some fileID =>
      let src_path := path_join backup_path fileID in
      let ext := extension E (PyBytes (filename f)) in
      if bool_decide (ext ∈ media_extensions) then
        let date := local_date E (ctime f) in
        let n := match seen_dates st !! date with
                 | Some n => n + 1
                 | None => 1
                 end in
        let st := {| media_recovered := media_recovered st;
                     seen_dates := <[date := n]> (seen_dates st);
                     events := events st |} in
        let dest_path :=
          path_join dest_folder (date ++ lit "_" ++ str_of_N n ++ ext) in
        match shutil_copy E src_path dest_path with
        | Ok _ =>
            ({| media_recovered := media_recovered st + 1;
                seen_dates := seen_dates st;
                events := events st ++ [Copied src_path dest_path] |}, None)
        | Raise FileNotFoundError =>
            match decode_strict (filename f) with
            | Ok name =>
                (emit (Stdout (lit "Could not locate file " ++ fileID
                               ++ lit " (" ++ name ++ lit ")")) st, None)
            | Raise e => (st, Some e)
            end
        | Raise e => (st, Some e)
        end
      else (st, None)
  | None => (emit (StderrNoFileID f) st, None)
  end.

Fixpoint main_loop (E : env) (backup_path dest_folder : str) (mbdx : gmap N str)
    (items : dict N fileinfo) (st : mstate) : mstate * option exn :=
  match items with
  | [] => (st, None)
  | (offset, f) :: items' =>
      match main_body E backup_path dest_folder mbdx st offset f with
      | (st', None) => main_loop E backup_path dest_folder mbdx items' st'
      | (st', Some e) => (st', Some e)
      end
  end.

Definition process_mbdb_file (E : env) (filename : str) (mbdx0 : gmap N str)
  : fueled (result parsed) :=
  match read_file E filename with
  | Ok data => process_mbdb_data data mbdx0
  | Raise e => Done (Raise e)
  end.

(** [create_folder_in_not_exists(name)]: the events of the call when it
    returns, the exception of [os.makedirs] when that raises. *)
Definition create_folder_in_not_exists (E : env) (name : str) : result (list event) :=
  if path_exists E name then Ok []
  else
    match os_makedirs E name with
    | Ok _ => Ok [Makedirs name]
    | Raise e => Raise e
    end.

(** A run: what it did, in order, and either the count it reported or the
    exception that ended it.  [mbdx] is empty when the module is loaded. *)
Definition main (E : env) (backup_path : str) : fueled (list event * result N) :=
  let mbdb_path := path_join backup_path (lit "Manifest.mbdb") in
  match process_mbdb_file E mbdb_path ∅ with
  | OutOfFuel => OutOfFuel
  | Done (Raise e) => Done ([], Raise e)
  | Done (Ok p) =>
      let dest_folder := path_join (lit "recovered_media") (basename backup_path) in
      match create_folder_in_not_exists E dest_folder with
      | Raise e => Done ([], Raise e)
      | Ok created =>
          let '(st, r) :=
            main_loop E backup_path dest_folder (mbdx p) (mbdb p)
              {| media_recovered := 0; seen_dates := ∅; events := created |} in
          match r with
          | Some e => Done (events st, Raise e)
          | None =>
              Done (events st ++ [Stdout (lit "Recovered " ++ str_of_N (media_recovered st)
                                          ++ lit " media files!")],
                    Ok (media_recovered st))
          end
      end
  end.

(** ** Vocabulary of the statements *)

(** Reading [n] name/value pairs in a row, as the specification words it:
    the pairs as read, in order, and the offset after the last one. *)
Fixpoint read_pairs (data : bytes) (offset : N) (n : nat)
  : result (list (bytes * bytes) * N) :=
  match n with
  | O => Ok ([], offset)
  | S n' =>
      '(name, offset) ← getstring data offset;
      '(value, offset) ← getstring data offset;
      '(rest, offset) ← read_pairs data offset n';
      Ok ((name, value) :: rest, offset)
  end.

Definition decode_pair (p : bytes * bytes) : str * str :=
  (decode_replace p.1, decode_replace p.2).

(** The names of a sequence, each at the place of its first occurrence. *)
Definition first_occurrences `{EqDecision A} (names : list A) : list A :=
  foldl (fun seen x => if decide (x ∈ seen) then seen else seen ++ [x]) [] names.

(** [d.update(pairs)]: the pairs are set one after the other. *)
Definition dict_update `{EqDecision K} {V} (d : dict K V) (pairs : list (K * V))
  : dict K V :=
  foldl (fun d p => dict_set d p.1 p.2) d pairs.

(** A record the orchestrator tries to copy: it has an identifier and its
    extension is on the allow-list. *)
Definition attempted (E : env) (mbdx : gmap N str) (it : N * fileinfo) : bool :=
  bool_decide (is_Some (mbdx !! it.1))
  && bool_decide (extension E (PyBytes (filename it.2)) ∈ media_extensions).

(** How many of the records are tried and fall on the date [d]. *)
Definition attempts (E : env) (mbdx : gmap N str) (d : str)
    (items : dict N fileinfo) : N :=
  len (filter (fun it => attempted E mbdx it = true
                         /\ local_date E (ctime it.2) = d) items).

(** The destination name [f"{date}_{n}{ext}"]. *)
Definition dest_name (date : str) (n : N) (ext : str) : str :=
  date ++ lit "_" ++ str_of_N n ++ ext.

Definition manifest_path (backup_path : str) : str :=
  path_join backup_path (lit "Manifest.mbdb").

Definition dest_folder_of (backup_path : str) : str :=
  path_join (lit "recovered_media") (basename backup_path).

(** The two lines the program writes to standard output. *)
Definition could_not_locate (fileID name : str) : event :=
  Stdout (lit "Could not locate file " ++ fileID ++ lit " (" ++ name ++ lit ")").

Definition recovered_line (n : N) : event :=
  Stdout (lit "Recovered " ++ str_of_N n ++ lit " media files!").

(** A record of a sample manifest: the two paths, no link target, hash or
    unknown string, a regular file of mode 0644 owned by 501:501, the three
    times equal, and the given properties. *)
Definition sample_record (domain filename : bytes) (time : N)
    (props : list (bytes * bytes)) : bytes :=
  encode_string domain ++ encode_string filename
  ++ [xff; xff; xff; xff; xff; xff]
  ++ map n2b (be_bytes 2 0x81A4 ++ be_bytes 4 0 ++ be_bytes 4 0
              ++ be_bytes 4 501 ++ be_bytes 4 501
              ++ be_bytes 4 time ++ be_bytes 4 time ++ be_bytes 4 time
              ++ be_bytes 8 1234 ++ be_bytes 1 0 ++ be_bytes 1 (len props))
  ++ flat_map (fun p => encode_string p.1 ++ encode_string p.2) props.

Definition sample_manifest (records : list bytes) : bytes :=
  blit "mbdb" ++ [x05; x00] ++ concat records.

(** One record, whose only property has a value of five bytes, with the
    last four bytes of the file missing. *)
Definition truncated_manifest : bytes :=
  let m := sample_manifest
             [sample_record (blit "HomeDomain") (blit "notes.txt") 0
                [(blit "k", blit "value")]] in
  take (length m - 4) m.

(** One record with the property name [a] twice. *)
Definition duplicate_manifest : bytes :=
  sample_manifest
    [sample_record (blit "HomeDomain") (blit "notes.txt") 0
       [(blit "a", blit "x"); (blit "a", blit "y")]].

(** One record whose domain is the single byte 0xFF, which is not UTF-8. *)
Definition latin_manifest : bytes :=
  sample_manifest [sample_record [xff] (blit "IMG_0001.JPG") 1682899200 []].

(** Two pictures taken on 2023-05-01. *)
Definition gap_manifest : bytes :=
  sample_manifest
    [sample_record (blit "CameraRollDomain") (blit "Media/DCIM/100APPLE/IMG_0001.JPG")
       1682899200 [];
     sample_record (blit "CameraRollDomain") (blit "Media/DCIM/100APPLE/IMG_0002.JPG")
       1682899200 []].

(** The file of the second picture in the backup directory [backup]. *)
Definition second_blob : str :=
  path_join (lit "backup")
    (sha1_hexdigest (blit "CameraRollDomain-Media/DCIM/100APPLE/IMG_0002.JPG")).

(** One record that is not a media file. *)
Definition notes_manifest : bytes :=
  sample_manifest [sample_record (blit "HomeDomain") (blit "notes.txt") 0 []].

(** One picture whose name begins with the byte 0xFF. *)
Definition undecodable_manifest : bytes :=
  sample_manifest [sample_record (blit "CameraRollDomain") ([xff] ++ blit ".jpg") 0 []].

(** A string of 65535 zero bytes. *)
Definition long_string : bytes := replicate (N.to_nat 65535) x00.

(** The records of a parse that succeeded (none otherwise). *)
Definition mbdb_of (r : fueled (result parsed)) : dict N fileinfo :=
  match r with
  | Done (Ok p) => mbdb p
  | _ => []
  end.

(** The identifiers left by a parse that succeeded (none otherwise). *)
Definition mbdx_of (r : fueled (result parsed)) : gmap N str :=
  match r with
  | Done (Ok p) => mbdx p
  | _ => ∅
  end.

(** A sample surrounding: the manifest file holds [manifest], the files of
    [present] exist in the backup directory and no other, the destination
    folder does not exist yet and can be made, the local zone is UTC, and
    no non-ASCII letter has a lowercase form of its own. *)
Definition sample_env (manifest : bytes) (present : list str) : env :=
  {| tolower_full := fun _ c _ => Lower1 c;
     local_date := utc_date;
     read_file := fun _ => Ok manifest;
     path_exists := fun _ => false;
     os_makedirs := fun _ => Ok tt;
     shutil_copy := fun src _ =>
       if bool_decide (src ∈ present) then Ok tt else Raise FileNotFoundError |}.

(** ** Vocabulary of the proofs *)

(** A Unicode scalar value: what a [str] obtained by decoding holds. *)
Definition is_scalar (c : N) : Prop := c < 0xD800 \/ 0xE000 <= c < 0x110000.

(** [s[-1:]] is the last element, if there is one. *)
Definition last_char {A} (s : list A) : list A :=
  match last s with
  | Some c => [c]
  | None => []
  end.

(** The text [extension] works on. *)
Definition text_of (v : pyval) : str :=
  match v with
  | PyBytes b => decode_replace b
  | PyStr s => s
  end.

(** Every record of [mbdb] was read from the data at its key, and [mbdx]
    holds, under the same key, the identifier derived from it. *)
Definition linked (data : bytes) (st : parsed) : Prop :=
  forall off f, (off, f) ∈ mbdb st ->
    (exists off', read_fileinfo data off = Ok (f, off'))
    /\ exists id, file_id f = Ok id /\ mbdx st !! off = Some id.

(** The state once the date of a record to copy has been counted. *)
Definition counted (d : str) (st : mstate) : mstate :=
  {| media_recovered := media_recovered st;
     seen_dates := <[d := default 0 (seen_dates st !! d) + 1]> (seen_dates st);
     events := events st |}.

(** What one turn of the loop does to a record. *)
Inductive turn (E : env) (backup_path dest_folder : str) (mbdx : gmap N str)
    (st : mstate) (off : N) (f : fileinfo) : mstate * option exn -> Prop :=
| turn_no_id :
    mbdx !! off = None ->
    turn E backup_path dest_folder mbdx st off f (emit (StderrNoFileID f) st, None)
| turn_skip id :
    mbdx !! off = Some id ->
    extension E (PyBytes (filename f)) ∉ media_extensions ->
    turn E backup_path dest_folder mbdx st off f (st, None)
| turn_try id r :
    mbdx !! off = Some id ->
    extension E (PyBytes (filename f)) ∈ media_extensions ->
    let d := local_date E (ctime f) in
    let st1 := counted d st in
    let src := path_join backup_path id in
    let dest := path_join dest_folder
                  (dest_name d (default 0 (seen_dates st !! d) + 1)
                     (extension E (PyBytes (filename f)))) in
    match shutil_copy E src dest with
    | Ok _ =>
        r = ({| media_recovered := media_recovered st + 1;
                seen_dates := seen_dates st1;
                events := events st ++ [Copied src dest] |}, None)
    | Raise FileNotFoundError =>
        match decode_strict (filename f) with
        | Ok name => r = (emit (could_not_locate id name) st1, None)
        | Raise e => r = (st1, Some e)
        end
    | Raise e => r = (st1, Some e)
    end ->
    turn E backup_path dest_folder mbdx st off f r.

Definition is_copied (ev : event) : bool :=
  match ev with
  | Copied _ _ => true
  | _ => false
  end.

(** The number of copies made. *)
Definition copies (evs : list event) : N := len (List.filter is_copied evs).

(** The state the loop starts in, once the destination folder is there or
    has been made. *)
Definition initial_state (E : env) (backup_path : str) : mstate :=
  {| media_recovered := 0;
     seen_dates := ∅;
     events := if path_exists E (dest_folder_of backup_path) then []
               else [Makedirs (dest_folder_of backup_path)] |}.

(** ** The rest of the program *)

(** The inner [mode] of [modestr]: three characters for three bits. *)
Definition mode_rwx (val : N) : str :=
  let r := if N.land val 0x4 =? 0 then lit "-" else lit "r" in
  let w := if N.land val 0x2 =? 0 then lit "-" else lit "w" in
  let x := if N.land val 0x1 =? 0 then lit "-" else lit "x" in
  r ++ w ++ x.

Definition modestr (val : N) : str :=
  mode_rwx (N.shiftr val 6) ++ mode_rwx (N.shiftr val 3) ++ mode_rwx val.

(** The value of a sequence of bytes read as a big-endian number. *)
Definition be_value (bs : bytes) : N :=
  foldl (fun v b => v * 256 + b2n b) 0 bs.

(** The records that are tried, whatever their date. *)
Definition tried (E : env) (mbdx : gmap N str) (items : dict N fileinfo)
  : dict N fileinfo :=
  filter (fun it => attempted E mbdx it = true) items.

Definition is_report (ev : event) : bool :=
  match ev with
  | Stdout _ => true
  | _ => false
  end.

(** The destinations of the copies made, in order. *)
Definition destinations (evs : list event) : list str :=
  omap (fun ev => match ev with Copied _ dst => Some dst | _ => None end) evs.

(** The big-endian number held by the [n] bytes of [data] from [a] on. *)
Definition int_at (data : bytes) (a : N) (n : nat) : N :=
  be_value (slice data a (a + N.of_nat n)).

(** The records of [items] lie one after the other in [data]: the first
    is read at [o], each next one where the one before it ended, and the
    last one ends at [e]; every key is the place its record was read at. *)
Fixpoint chained (data : bytes) (o : N) (items : dict N fileinfo) (e : N) : Prop :=
  match items with
  | [] => o = e
  | (k, f) :: rest =>
      k = o /\ exists o', read_fileinfo data o = Ok (f, o') /\ chained data o' rest e
  end.

(** What the loop keeps true: the records read so far lie back to back
    from offset 6 to the cursor, and [mbdx] differs from what it was on
    entry at the keys of those records only. *)
Definition reader_invariant (data : bytes) (mbdx0 : gmap N str) (st : parsed) : Prop :=
  chained data 6 (mbdb st) (end_offset st)
  /\ forall k, k ∉ (mbdb st).*1 -> mbdx st !! k = mbdx0 !! k.

(** The letter [modestr] shows for each of the nine permission bits, from
    bit 8 down to bit 0, and the character it shows for a bit that is
    not set. *)
Definition mode_letters : list (N * N) :=
  [(8, 114); (7, 119); (6, 120); (5, 114); (4, 119); (3, 120);
   (2, 114); (1, 119); (0, 120)].

Definition mode_char (val : N) (bit_letter : N * N) : N :=
  if N.testbit val bit_letter.1 then bit_letter.2 else 45.

(** A decimal digit. *)
Definition is_digit (c : N) : Prop := 48 <= c <= 57.

(** The number of lines written to standard output. *)
Definition reports (evs : list event) : N := len (List.filter is_report evs).

(** What the loop keeps true of the destinations: no two are the same, and
    each is named by a date, a number that the counter of that date has
    reached, and a media extension. *)
Definition destinations_invariant (df : str) (st : mstate) : Prop :=
  NoDup (destinations (events st))
  /\ forall dst, dst ∈ destinations (events st) ->
       exists d n e,
         dst = path_join df (dest_name d n e)
         /\ e ∈ media_extensions
         /\ n <= default 0 (seen_dates st !! d).

(** A lowercase hexadecimal digit. *)
Definition is_hex (c : N) : Prop := 48 <= c <= 57 \/ 97 <= c <= 102.

(** The bytes of a record, as the reader expects them: the five strings
    behind their lengths, the eleven numbers most significant byte first,
    then the name and the value of each property. *)
Definition encode_record (f : fileinfo) (pairs : list (bytes * bytes)) : bytes :=
  encode_string (domain f) ++ encode_string (filename f)
  ++ encode_string (linktarget f) ++ encode_string (datahash f)
  ++ encode_string (unknown1 f)
  ++ map n2b (be_bytes 2 (mode f) ++ be_bytes 4 (unknown2 f) ++ be_bytes 4 (unknown3 f)
              ++ be_bytes 4 (userid f) ++ be_bytes 4 (groupid f)
              ++ be_bytes 4 (mtime f) ++ be_bytes 4 (atime f) ++ be_bytes 4 (ctime f)
              ++ be_bytes 8 (filelen f) ++ be_bytes 1 (flag f)
              ++ be_bytes 1 (len pairs))
  ++ flat_map (fun p => encode_string p.1 ++ encode_string p.2) pairs.

(** The record the reader makes of [f] read at [offset] with the
    properties [pairs]. *)
Definition as_read (f : fileinfo) (offset : N) (pairs : list (bytes * bytes))
  : fileinfo :=
  {| start_offset := offset; domain := domain f; filename := filename f;
     linktarget := linktarget f; datahash := datahash f; unknown1 := unknown1 f;
     mode := mode f; unknown2 := unknown2 f; unknown3 := unknown3 f;
     userid := userid f; groupid := groupid f; mtime := mtime f; atime := atime f;
     ctime := ctime f; filelen := filelen f; flag := flag f;
     numprops := len pairs;
     properties := dict_update [] (map decode_pair pairs) |}.

(** The values a record can hold in its bytes. *)
Definition encodable (f : fileinfo) (pairs : list (bytes * bytes)) : Prop :=
  (len (domain f) < 65535 /\ len (filename f) < 65535 /\ len (linktarget f) < 65535
   /\ len (datahash f) < 65535 /\ len (unknown1 f) < 65535)
  /\ (mode f < 2 ^ 16 /\ unknown2 f < 2 ^ 32 /\ unknown3 f < 2 ^ 32
      /\ userid f < 2 ^ 32 /\ groupid f < 2 ^ 32
      /\ mtime f < 2 ^ 32 /\ atime f < 2 ^ 32 /\ ctime f < 2 ^ 32
      /\ filelen f < 2 ^ 64 /\ flag f < 2 ^ 8)
  /\ len pairs < 2 ^ 8
  /\ Forall (fun p => len p.1 < 65535 /\ len p.2 < 65535) pairs.

(** A manifest written out: the marker, the two bytes that the reader
    skips, and the records one after the other. *)
Definition encode_manifest (unknown : bytes)
    (records : list (fileinfo * list (bytes * bytes))) : bytes :=
  blit "mbdb" ++ unknown ++ flat_map (fun r => encode_record r.1 r.2) records.

(** The records as the reader files them when the first one lies at
    [offset]: each under the offset of its first byte. *)
Fixpoint placed (offset : N) (records : list (fileinfo * list (bytes * bytes)))
  : dict N fileinfo :=
  match records with
  | [] => []
  | r :: rest =>
      (offset, as_read r.1 offset r.2)
      :: placed (offset + len (encode_record r.1 r.2)) rest
  end.

(** The values of the records of the sample manifests, before they are
    written: a regular file of mode 0644 owned by 501:501, with the three
    times equal. *)
Definition sample_fileinfo (domain filename : bytes) (time : N) : fileinfo :=
  {| start_offset := 0; domain := domain; filename := filename;
     linktarget := []; datahash := []; unknown1 := [];
     mode := 0x81A4; unknown2 := 0; unknown3 := 0; userid := 501; groupid := 501;
     mtime := time; atime := time; ctime := time; filelen := 1234; flag := 0;
     numprops := 0; properties := [] |}.

(** Two records to write out: a note with one property and a picture. *)
Definition sample_records : list (fileinfo * list (bytes * bytes)) :=
  [(sample_fileinfo (blit "HomeDomain") (blit "notes.txt") 0, [(blit "k", blit "v")]);
   (sample_fileinfo (blit "CameraRollDomain") (blit "IMG_0001.JPG") 1682899200, [])].

(** The destination folder is there, or [os.makedirs] makes it. *)
Definition folder_ready (E : env) (backup_path : str) : Prop :=
  path_exists E (dest_folder_of backup_path) = true
  \/ os_makedirs E (dest_folder_of backup_path) = Ok tt.

(** The sample surrounding with a destination folder that is not there
    and cannot be made. *)
Definition stuck_env (manifest : bytes) (present : list str) : env :=
  {| tolower_full := tolower_full (sample_env manifest present);
     local_date := local_date (sample_env manifest present);
     read_file := read_file (sample_env manifest present);
     path_exists := fun _ => false;
     os_makedirs := fun _ => Raise OSError;
     shutil_copy := shutil_copy (sample_env manifest present) |}.

(** * Theorems *)

(** ** Bytes and the result monad *)

Lemma b2n_lt (b : byte) : b2n b < 256.
Proof. unfold b2n. pose proof (Byte.to_N_bounded b). lia. Qed.

Lemma b2n_n2b (n : N) : n < 256 -> b2n (n2b n) = n.
Proof.
  intros Hn. unfold n2b, b2n. rewrite N.mod_small by lia.
  destruct (Byte.of_N n) as [b|] eqn:E.
  - by apply Byte.to_of_N.
  - apply Byte.of_N_None_iff in E. lia.
Qed.

Lemma n2b_b2n (b : byte) : n2b (b2n b) = b.
Proof.
  unfold n2b, b2n. rewrite N.mod_small by (pose proof (Byte.to_N_bounded b); lia).
  by rewrite Byte.of_to_N.
Qed.

Lemma bind_Ok {A B} (m : result A) (f : A -> result B) (b : B) :
  m ≫= f = Ok b -> exists a, m = Ok a /\ f a = Ok b.
Proof. destruct m as [a|e]; [eauto | discriminate]. Qed.

Lemma len_app {A} (l k : list A) : len (l ++ k) = len l + len k.
Proof. unfold len. rewrite length_app. lia. Qed.

Lemma len_cons {A} (x : A) (l : list A) : len (x :: l) = 1 + len l.
Proof. unfold len. simpl. lia. Qed.

(** ** [index], [slice] *)

Lemma index_Ok (data : bytes) (i v : N) :
  index data i = Ok v -> i < len data /\ exists b, data !! N.to_nat i = Some b /\ v = b2n b.
Proof.
  unfold index, len. destruct (data !! N.to_nat i) as [b|] eqn:E; [|discriminate].
  intros [= <-]. apply lookup_lt_Some in E. split; [lia | eauto].
Qed.

Lemma index_out (data : bytes) (i : N) : len data <= i -> index data i = Raise IndexError.
Proof.
  unfold index, len. intros H. rewrite lookup_ge_None_2; [done | lia].
Qed.

Lemma index_total (data : bytes) (i : N) :
  (exists v, index data i = Ok v) \/ index data i = Raise IndexError.
Proof. unfold index. destruct (data !! N.to_nat i); eauto. Qed.

Lemma index_app_r (pre data : bytes) (i : N) :
  index (pre ++ data) (len pre + i) = index data i.
Proof.
  unfold index, len.
  rewrite lookup_app_r by lia.
  by assert (N.to_nat (N.of_nat (length pre) + i) - length pre = N.to_nat i)%nat as -> by lia.
Qed.

Lemma slice_app (pre s post : bytes) :
  slice (pre ++ s ++ post) (len pre) (len pre + len s) = s.
Proof.
  unfold slice, len.
  assert (N.to_nat (N.of_nat (length pre) + N.of_nat (length s) - N.of_nat (length pre))
          = length s) as -> by lia.
  rewrite Nat2N.id, drop_app_length. by rewrite take_app_length.
Qed.

Lemma slice_length (data : bytes) (a b : N) :
  len (slice data a b) = N.min (b - a) (len data - a).
Proof. unfold slice, len. rewrite length_take, length_drop. lia. Qed.

(** ** [getint] *)

Lemma getint_loop_Ok (data : bytes) (n : nat) (v off v' off' : N) :
  getint_loop data v off n = Ok (v', off') ->
  off' = off + N.of_nat n /\ (n = 0%nat \/ off' <= len data).
Proof.
  revert v off. induction n as [|n IH]; intros v off; simpl.
  - intros [= <- <-]. split; [lia | by left].
  - intros H. apply bind_Ok in H as (b & Hb & H).
    apply index_Ok in Hb as [Hlt _]. apply IH in H as [-> H]. split; [lia|].
    right. destruct H as [-> | H]; lia.
Qed.

Lemma getint_loop_out (data : bytes) (n : nat) (v off : N) :
  (0 < n)%nat -> len data < off + N.of_nat n ->
  getint_loop data v off n = Raise IndexError.
Proof.
  revert v off. induction n as [|n IH]; intros v off Hn Hlt; simpl; [lia|].
  destruct (index_total data off) as [[b Hb] | ->]; [|done].
  rewrite Hb. simpl. apply index_Ok in Hb as [Hb _].
  destruct n as [|n]; [lia|]. apply IH; lia.
Qed.

Lemma getint_Ok (data : bytes) (n : nat) (off v off' : N) :
  getint data off n = Ok (v, off') ->
  off' = off + N.of_nat n /\ (n = 0%nat \/ off' <= len data).
Proof. apply getint_loop_Ok. Qed.

Lemma getint_out (data : bytes) (n : nat) (off : N) :
  (0 < n)%nat -> len data < off + N.of_nat n -> getint data off n = Raise IndexError.
Proof. apply getint_loop_out. Qed.

Lemma getint_total (data : bytes) (n : nat) (off : N) :
  (exists r, getint data off n = Ok r) \/ getint data off n = Raise IndexError.
Proof.
  unfold getint. generalize 0. revert off.
  induction n as [|n IH]; intros off v; simpl; [eauto|].
  destruct (index_total data off) as [[b ->] | ->]; simpl; eauto.
Qed.

(** ** [getstring] *)

Lemma getstring_total (data : bytes) (off : N) :
  (exists r, getstring data off = Ok r) \/ getstring data off = Raise IndexError.
Proof.
  unfold getstring.
  assert (Hlen : (exists r, ('(length, offset) ← getint data off 2;
            Ok (slice data offset (offset + length), offset + length)) = Ok r)
          \/ ('(length, offset) ← getint data off 2;
            Ok (slice data offset (offset + length), offset + length))
             = (Raise IndexError : result (bytes * N))).
  { destruct (getint_total data 2 off) as [[[v o] ->] | ->]; simpl; eauto. }
  destruct (index_total data off) as [[b0 ->] | ->]; simpl; [|eauto].
  destruct (b0 =? 255); [|done].
  destruct (index_total data (off + 1)) as [[b1 ->] | ->]; simpl; [|eauto].
  destruct (b1 =? 255); eauto.
Qed.

Lemma getstring_out (data : bytes) (off : N) :
  len data < off + 2 -> getstring data off = Raise IndexError.
Proof.
  intros Hlt. unfold getstring.
  rewrite (getint_out data 2 off) by lia. simpl.
  destruct (index_total data off) as [[b0 Hb0] | ->]; [|done].
  rewrite Hb0. simpl. apply index_Ok in Hb0 as [Hb0 _].
  rewrite (index_out data (off + 1)) by lia. simpl. by destruct (b0 =? 255).
Qed.

(** A string that is read either lies within the data, or was cut short:
    its declared length runs past the end, the value holds only the bytes
    that were left, and the cursor is past the end. *)
Lemma getstring_Ok (data : bytes) (off off' : N) (v : bytes) :
  getstring data off = Ok (v, off') ->
  off + 2 <= off' /\ off + 2 <= len data /\
  (off' <= len data \/ len v = len data - (off + 2) /\ len v < off' - (off + 2)).
Proof.
  unfold getstring. intros H.
  assert (Hlen : ('(length, offset) ← getint data off 2;
            Ok (slice data offset (offset + length), offset + length)) = Ok (v, off') ->
     off + 2 <= off' /\ off + 2 <= len data /\
     (off' <= len data \/ len v = len data - (off + 2) /\ len v < off' - (off + 2))).
  { clear H. intros H. apply bind_Ok in H as ([l o] & Hi & H).
    apply getint_Ok in Hi as [-> Hi]. injection H as <- <-.
    destruct Hi as [? | Hi]; [done|].
    rewrite slice_length. lia. }
  apply bind_Ok in H as (b0 & Hb0 & H).
  destruct (b0 =? 255); [|by apply Hlen].
  apply bind_Ok in H as (b1 & Hb1 & H).
  destruct (b1 =? 255); [|by apply Hlen].
  injection H as <- <-. apply index_Ok in Hb1 as [Hb1 _]. lia.
Qed.

Lemma getint2_app (pre rest : bytes) (a b : byte) :
  getint (pre ++ a :: b :: rest) (len pre) 2 = Ok (b2n a * 256 + b2n b, len pre + 2).
Proof.
  unfold getint. simpl.
  rewrite <- (N.add_0_r (len pre)) at 1. rewrite index_app_r. simpl.
  replace (len pre + 0 + 1) with (len pre + 1) by lia.
  rewrite index_app_r. simpl. do 2 f_equal; [|lia].
  rewrite !N.shiftl_mul_pow2. change (2 ^ 8) with 256. lia.
Qed.

Lemma getstring_sentinel (data : bytes) (off : N) :
  data !! N.to_nat off = Some xff -> data !! N.to_nat (off + 1) = Some xff ->
  getstring data off = Ok ([], off + 2).
Proof. intros H0 H1. unfold getstring, index. by rewrite H0, H1. Qed.

Lemma getstring_encode_string (pre s post : bytes) :
  len s < 65535 ->
  getstring (pre ++ encode_string s ++ post) (len pre)
  = Ok (s, len pre + len (encode_string s)).
Proof.
  intros Hs.
  assert (Hhi : len s `div` 256 < 256) by (apply N.Div0.div_lt_upper_bound; lia).
  assert (Hlo : len s `mod` 256 < 256) by (apply N.mod_lt; lia).
  pose proof (N.div_mod' (len s) 256) as Hdm.
  unfold getstring, encode_string. simpl.
  rewrite getint2_app. simpl.
  rewrite !b2n_n2b by done.
  assert (len s `div` 256 * 256 + len s `mod` 256 = len s) as -> by lia.
  assert (Hsl : slice (pre ++ n2b (len s `div` 256) :: n2b (len s `mod` 256) :: s ++ post)
            (len pre + 2) (len pre + 2 + len s) = s).
  { pose proof (slice_app (pre ++ [n2b (len s `div` 256); n2b (len s `mod` 256)]) s post) as H.
    rewrite len_app, <- app_assoc in H. exact H. }
  rewrite Hsl. rewrite !len_cons.
  assert (len pre + 2 + len s = len pre + (1 + (1 + len s))) as -> by lia.
  rewrite <- (N.add_0_r (len pre)) at 1. rewrite !index_app_r.
  unfold index. simpl. rewrite !b2n_n2b by done.
  destruct (len s `div` 256 =? 255) eqn:E1; [|done].
  destruct (len s `mod` 256 =? 255) eqn:E2; [|done].
  apply N.eqb_eq in E1, E2. lia.
Qed.

(** ** The manifest reader *)

Lemma props_loop_Ok (data : bytes) (n : nat) (off off' : N) (props props' : dict str str) :
  props_loop data off n props = Ok (props', off') ->
  off + 4 * N.of_nat n <= off' /\ (n = 0%nat -> off' = off /\ props' = props).
Proof.
  revert off props. induction n as [|n IH]; intros off props; simpl.
  - intros [= <- <-]. split; [lia | done].
  - intros H. apply bind_Ok in H as ([name o1] & H1 & H).
    apply bind_Ok in H as ([val o2] & H2 & H).
    apply getstring_Ok in H1 as (? & _), H2 as (? & _).
    apply IH in H as [H _]. split; [lia | done].
Qed.

(** Takes one read off the front of a chain of reads that succeeded. *)
Ltac step_read H :=
  let Hr := fresh "Hr" in
  apply bind_Ok in H as ([? ?] & Hr & H);
  first [ apply getstring_Ok in Hr as (? & ? & _)
        | let Hz := fresh "Hz" in
          apply getint_Ok in Hr as [? [Hz | ?]]; [discriminate Hz |] ].

Lemma read_fileinfo_Ok (data : bytes) (off off' : N) (f : fileinfo) :
  read_fileinfo data off = Ok (f, off') ->
  start_offset f = off /\ off + 50 <= off' /\ off + 50 <= len data /\
  (numprops f = 0 -> off' <= len data).
Proof.
  unfold read_fileinfo. intros H.
  do 16 step_read H.
  apply bind_Ok in H as ([props o] & Hp & H). injection H as <- <-. simpl.
  apply props_loop_Ok in Hp as [Hp Hp0].
  repeat split; lia.
Qed.

Lemma mbdb_loop_end (fuel : nat) (data : bytes) (st p : parsed) :
  mbdb_loop fuel data st = Done (Ok p) -> len data <= end_offset p.
Proof.
  revert st. induction fuel as [|fuel IH]; intros st; simpl.
  - destruct (end_offset st <? len data) eqn:E; [discriminate|].
    intros [= <-]. by apply N.ltb_ge.
  - destruct (end_offset st <? len data) eqn:E.
    + destruct (read_fileinfo data (end_offset st)) as [[f o]|]; [|discriminate].
      destruct (file_id f); [|discriminate]. apply IH.
    + intros [= <-]. by apply N.ltb_ge.
Qed.

(** The loop never runs out of fuel when given one unit per byte left. *)
Lemma mbdb_loop_fuel (fuel : nat) (data : bytes) (st : parsed) :
  len data <= end_offset st + N.of_nat fuel ->
  mbdb_loop fuel data st <> OutOfFuel.
Proof.
  revert st. induction fuel as [|fuel IH]; intros st Hf; simpl.
  - destruct (end_offset st <? len data) eqn:E; [|done].
    apply N.ltb_lt in E. lia.
  - destruct (end_offset st <? len data) eqn:E; [|done].
    destruct (read_fileinfo data (end_offset st)) as [[f o]|] eqn:Hr; [|done].
    destruct (file_id f); [|done].
    apply read_fileinfo_Ok in Hr as (_ & Hr & _). apply IH. simpl. lia.
Qed.

Lemma process_mbdb_data_total (data : bytes) (mbdx0 : gmap N str) :
  exists r, process_mbdb_data data mbdx0 = Done r.
Proof.
  unfold process_mbdb_data. destruct (decide _); [|eauto].
  destruct (mbdb_loop _ _ _) as [r|] eqn:E; [eauto|].
  apply mbdb_loop_fuel in E; [done|]. simpl. unfold len. lia.
Qed.

Lemma process_mbdb_data_bad_magic (data : bytes) (mbdx0 : gmap N str) :
  take 4 data <> blit "mbdb" ->
  process_mbdb_data data mbdx0 = Done (Raise NotMbdb).
Proof.
  intros H. unfold process_mbdb_data. destruct (decide _) as [E|]; [|done].
  by destruct H.
Qed.

(** ** The UTF-8 codec *)

Lemma forallb_below (P : N -> bool) (n : nat) :
  forallb P (map N.of_nat (seq 0 n)) = true -> forall x, x < N.of_nat n -> P x = true.
Proof.
  intros H x Hx. rewrite forallb_forall in H. apply H.
  apply in_map_iff. exists (N.to_nat x). split; [lia|]. apply in_seq. lia.
Qed.

Lemma lor_0x80 (x : N) : x < 64 -> N.lor 0x80 x = 0x80 + x.
Proof.
  intros Hx. apply N.eqb_eq.
  by apply (forallb_below (fun x => N.lor 0x80 x =? 0x80 + x) 64).
Qed.

Lemma lor_0xC0 (x : N) : x < 32 -> N.lor 0xC0 x = 0xC0 + x.
Proof.
  intros Hx. apply N.eqb_eq.
  by apply (forallb_below (fun x => N.lor 0xC0 x =? 0xC0 + x) 32).
Qed.

Lemma lor_0xE0 (x : N) : x < 16 -> N.lor 0xE0 x = 0xE0 + x.
Proof.
  intros Hx. apply N.eqb_eq.
  by apply (forallb_below (fun x => N.lor 0xE0 x =? 0xE0 + x) 16).
Qed.

Lemma lor_0xF0 (x : N) : x < 8 -> N.lor 0xF0 x = 0xF0 + x.
Proof.
  intros Hx. apply N.eqb_eq.
  by apply (forallb_below (fun x => N.lor 0xF0 x =? 0xF0 + x) 8).
Qed.

Lemma land_0x3F (x : N) : N.land x 0x3F = x mod 64.
Proof. change 0x3F with (N.ones 6). by rewrite N.land_ones. Qed.

Lemma is_continuation_spec (b : N) :
  is_continuation b = true <-> 0x80 <= b < 0xC0.
Proof. unfold is_continuation. rewrite andb_true_iff, N.leb_le, N.ltb_lt. done. Qed.

Lemma div_mod_unique (b q r : N) : r < b -> (b * q + r) / b = q /\ (b * q + r) mod b = r.
Proof.
  intros Hr. split; symmetry.
  - by apply (N.div_unique _ b q r).
  - by apply (N.mod_unique _ b q r).
Qed.

Lemma mod_split (b q r : N) : r < b -> (b * q + r) mod b = r.
Proof. apply div_mod_unique. Qed.

Lemma shiftr_split (k b q r : N) :
  b = 2 ^ k -> r < b -> N.shiftr (b * q + r) k = q.
Proof. intros -> Hr. rewrite N.shiftr_div_pow2. by apply div_mod_unique. Qed.

(** The three well-formed multi-byte forms are what the encoder writes for
    the code point the decoder computes from them. *)
Lemma utf8_char_2 (c0 c1 : byte) :
  0xC2 <= b2n c0 < 0xE0 -> is_continuation (b2n c1) = true ->
  let c := N.shiftl (b2n c0) 6 + b2n c1 - 0x3080 in
  utf8_char c = Ok [c0; c1] /\ is_scalar c.
Proof.
  intros H0 H1%is_continuation_spec c.
  set (a := b2n c0 - 0xC0). set (b := b2n c1 - 0x80).
  assert (Hc : c = 64 * a + b).
  { unfold c, a, b. rewrite N.shiftl_mul_pow2. change (2 ^ 6) with 64. lia. }
  assert (Ha : 2 <= a < 32) by (unfold a; lia).
  assert (Hb : b < 64) by (unfold b; lia).
  split; [|unfold is_scalar; lia].
  unfold utf8_char.
  destruct (N.ltb_spec c 0x80); [lia|].
  destruct (N.ltb_spec c 0x800); [|lia].
  rewrite land_0x3F, Hc, (shiftr_split 6 64 a b), (mod_split 64) by done.
  rewrite lor_0xC0, lor_0x80 by lia.
  replace (0xC0 + a) with (b2n c0) by (unfold a; lia).
  replace (0x80 + b) with (b2n c1) by (unfold b; lia).
  by rewrite !n2b_b2n.
Qed.

Lemma utf8_char_3 (c0 c1 c2 : byte) :
  0xE0 <= b2n c0 < 0xF0 -> is_continuation (b2n c1) = true ->
  (if b2n c1 <? 0xA0 then b2n c0 =? 0xE0 else b2n c0 =? 0xED) = false ->
  is_continuation (b2n c2) = true ->
  let c := N.shiftl (b2n c0) 12 + N.shiftl (b2n c1) 6 + b2n c2 - 0xE2080 in
  utf8_char c = Ok [c0; c1; c2] /\ is_scalar c.
Proof.
  intros H0 H1%is_continuation_spec Hx H2%is_continuation_spec c.
  set (a := b2n c0 - 0xE0). set (b := b2n c1 - 0x80). set (d := b2n c2 - 0x80).
  assert (Hc : c = 64 * (64 * a + b) + d).
  { unfold c, a, b, d. rewrite !N.shiftl_mul_pow2.
    change (2 ^ 6) with 64. change (2 ^ 12) with 4096. lia. }
  assert (Ha : a < 16) by (unfold a; lia).
  assert (Hb : b < 64) by (unfold b; lia).
  assert (Hd : d < 64) by (unfold d; lia).
  assert (Hlow : a = 0 -> 32 <= b).
  { intros Ha0. destruct (N.ltb_spec (b2n c1) 0xA0); [|unfold b; lia].
    apply N.eqb_neq in Hx. unfold a in Ha0. lia. }
  assert (Hsur : a = 13 -> b < 32).
  { intros Ha0. destruct (N.ltb_spec (b2n c1) 0xA0); [unfold b; lia|].
    apply N.eqb_neq in Hx. unfold a in Ha0. lia. }
  split; [|unfold is_scalar; lia].
  unfold utf8_char.
  destruct (N.ltb_spec c 0x80); [lia|].
  destruct (N.ltb_spec c 0x800); [lia|].
  destruct (N.ltb_spec c 0x10000); [|lia].
  destruct (N.leb_spec 0xD800 c), (N.leb_spec c 0xDFFF); simpl; try lia.
  all: rewrite !land_0x3F.
  all: assert (N.shiftr c 6 = 64 * a + b) as -> by (rewrite Hc; by apply (shiftr_split 6 64)).
  all: assert (N.shiftr c 12 = a) as ->
    by (replace c with (4096 * a + (64 * b + d)) by lia; apply (shiftr_split 12 4096); [done|lia]).
  all: rewrite Hc, !(mod_split 64) by done.
  all: rewrite lor_0xE0, !lor_0x80 by lia.
  all: replace (0xE0 + a) with (b2n c0) by (unfold a; lia).
  all: replace (0x80 + b) with (b2n c1) by (unfold b; lia).
  all: replace (0x80 + d) with (b2n c2) by (unfold d; lia).
  all: by rewrite !n2b_b2n.
Qed.

Lemma utf8_char_4 (c0 c1 c2 c3 : byte) :
  0xF0 <= b2n c0 < 0xF5 -> is_continuation (b2n c1) = true ->
  (if b2n c1 <? 0x90 then b2n c0 =? 0xF0 else b2n c0 =? 0xF4) = false ->
  is_continuation (b2n c2) = true -> is_continuation (b2n c3) = true ->
  let c := N.shiftl (b2n c0) 18 + N.shiftl (b2n c1) 12 + N.shiftl (b2n c2) 6
           + b2n c3 - 0x3C82080 in
  utf8_char c = Ok [c0; c1; c2; c3] /\ is_scalar c.
Proof.
  intros H0 H1%is_continuation_spec Hx H2%is_continuation_spec H3%is_continuation_spec c.
  set (a := b2n c0 - 0xF0). set (b := b2n c1 - 0x80).
  set (d := b2n c2 - 0x80). set (e := b2n c3 - 0x80).
  assert (Hc : c = 64 * (64 * (64 * a + b) + d) + e).
  { unfold c, a, b, d, e. rewrite !N.shiftl_mul_pow2.
    change (2 ^ 6) with 64. change (2 ^ 12) with 4096. change (2 ^ 18) with 262144. lia. }
  assert (Ha : a < 5) by (unfold a; lia).
  assert (Hb : b < 64) by (unfold b; lia).
  assert (Hd : d < 64) by (unfold d; lia).
  assert (He : e < 64) by (unfold e; lia).
  assert (Hlow : a = 0 -> 16 <= b).
  { intros Ha0. destruct (N.ltb_spec (b2n c1) 0x90); [|unfold b; lia].
    apply N.eqb_neq in Hx. unfold a in Ha0. lia. }
  assert (Hhigh : a = 4 -> b < 16).
  { intros Ha0. destruct (N.ltb_spec (b2n c1) 0x90); [unfold b; lia|].
    apply N.eqb_neq in Hx. unfold a in Ha0. lia. }
  split; [|unfold is_scalar; lia].
  unfold utf8_char.
  destruct (N.ltb_spec c 0x80); [lia|].
  destruct (N.ltb_spec c 0x800); [lia|].
  destruct (N.ltb_spec c 0x10000); [lia|].
  destruct (N.ltb_spec c 0x110000); [|lia].
  rewrite !land_0x3F.
  assert (N.shiftr c 6 = 64 * (64 * a + b) + d) as ->
    by (rewrite Hc; by apply (shiftr_split 6 64)).
  assert (N.shiftr c 12 = 64 * a + b) as ->
    by (replace c with (4096 * (64 * a + b) + (64 * d + e)) by lia;
        apply (shiftr_split 12 4096); [done|lia]).
  assert (N.shiftr c 18 = a) as ->
    by (replace c with (262144 * a + (4096 * b + 64 * d + e)) by lia;
        apply (shiftr_split 18 262144); [done|lia]).
  rewrite Hc, !(mod_split 64) by done.
  rewrite lor_0xF0, !lor_0x80 by lia.
  replace (0xF0 + a) with (b2n c0) by (unfold a; lia).
  replace (0x80 + b) with (b2n c1) by (unfold b; lia).
  replace (0x80 + d) with (b2n c2) by (unfold d; lia).
  replace (0x80 + e) with (b2n c3) by (unfold e; lia).
  by rewrite !n2b_b2n.
Qed.

Lemma utf8_char_1 (c0 : byte) :
  b2n c0 < 0x80 -> utf8_char (b2n c0) = Ok [c0] /\ is_scalar (b2n c0).
Proof.
  intros H. split; [|unfold is_scalar; lia].
  unfold utf8_char. destruct (N.ltb_spec (b2n c0) 0x80); [|lia]. by rewrite n2b_b2n.
Qed.

(** Reasoning along a scan: the data splits into units, each of them either
    the encoding of the scalar value it yields, or malformed. *)
Lemma utf8_scan_units (P : bytes -> list (option N) -> Prop) :
  P [] [] ->
  (forall unit rest c,
     utf8_char c = Ok unit -> is_scalar c ->
     P rest (utf8_scan rest) -> P (unit ++ rest) (Some c :: utf8_scan rest)) ->
  (forall unit rest,
     P rest (utf8_scan rest) -> P (unit ++ rest) (None :: utf8_scan rest)) ->
  forall b, P b (utf8_scan b).
Proof.
  intros Hnil Hok Hbad b.
  induction b as [b IH] using (induction_ltof1 _ (@length byte)). unfold ltof in IH.
  destruct b as [|c0 r0]; [done|]. cbn [utf8_scan].
  destruct (N.ltb_spec (b2n c0) 0x80).
  { apply (Hok [c0] r0); [by apply utf8_char_1.. | apply IH; simpl; lia]. }
  destruct (N.ltb_spec (b2n c0) 0xC2).
  { apply (Hbad [c0] r0), IH. simpl; lia. }
  destruct (N.ltb_spec (b2n c0) 0xE0).
  { destruct r0 as [|c1 r1]; [apply (Hbad [c0] []), Hnil|].
    destruct (is_continuation (b2n c1)) eqn:E1.
    - destruct (utf8_char_2 c0 c1) as [? ?]; [done..|].
      apply (Hok [c0; c1] r1); [done..|]. apply IH. simpl; lia.
    - apply (Hbad [c0] (c1 :: r1)), IH. simpl; lia. }
  destruct (N.ltb_spec (b2n c0) 0xF0).
  { destruct r0 as [|c1 r1]; [apply (Hbad [c0] []), Hnil|].
    destruct (is_continuation (b2n c1)) eqn:E1; simpl;
      [|apply (Hbad [c0] (c1 :: r1)), IH; simpl; lia].
    destruct (if b2n c1 <? 160 then _ else _) eqn:Ex;
      [apply (Hbad [c0] (c1 :: r1)), IH; simpl; lia|].
    destruct r1 as [|c2 r2]; [apply (Hbad [c0; c1] []), Hnil|].
    destruct (is_continuation (b2n c2)) eqn:E2.
    - destruct (utf8_char_3 c0 c1 c2) as [? ?]; [done..|].
      apply (Hok [c0; c1; c2] r2); [done..|]. apply IH. simpl; lia.
    - apply (Hbad [c0; c1] (c2 :: r2)), IH. simpl; lia. }
  destruct (N.ltb_spec (b2n c0) 0xF5); [|apply (Hbad [c0] r0), IH; simpl; lia].
  destruct r0 as [|c1 r1]; [apply (Hbad [c0] []), Hnil|].
  destruct (is_continuation (b2n c1)) eqn:E1; simpl;
    [|apply (Hbad [c0] (c1 :: r1)), IH; simpl; lia].
  destruct (if b2n c1 <? 144 then _ else _) eqn:Ex;
    [apply (Hbad [c0] (c1 :: r1)), IH; simpl; lia|].
  destruct r1 as [|c2 r2]; [apply (Hbad [c0; c1] []), Hnil|].
  destruct (is_continuation (b2n c2)) eqn:E2; simpl;
    [|apply (Hbad [c0; c1] (c2 :: r2)), IH; simpl; lia].
  destruct r2 as [|c3 r3]; [apply (Hbad [c0; c1; c2] []), Hnil|].
  destruct (is_continuation (b2n c3)) eqn:E3.
  - destruct (utf8_char_4 c0 c1 c2 c3) as [? ?]; [done..|].
    apply (Hok [c0; c1; c2; c3] r3); [done..|]. apply IH. simpl; lia.
  - apply (Hbad [c0; c1; c2] (c3 :: r3)), IH. simpl; lia.
Qed.

(** Appending data that does not begin with a continuation byte does not
    change how what comes before it is scanned. *)
Lemma utf8_scan_app (p a : bytes) :
  (forall a0 a', a = a0 :: a' -> is_continuation (b2n a0) = false) ->
  utf8_scan (p ++ a) = utf8_scan p ++ utf8_scan a.
Proof.
  intros Ha.
  induction p as [p IH] using (induction_ltof1 _ (@length byte)). unfold ltof in IH.
  destruct p as [|c0 r0]; [done|].
  assert (IH0 : forall x, x :: utf8_scan (r0 ++ a) = (x :: utf8_scan r0) ++ utf8_scan a).
  { intros x. rewrite <- app_comm_cons. f_equal. apply IH. simpl; lia. }
  cbn [app utf8_scan].
  destruct (b2n c0 <? 0x80); [apply IH0|].
  destruct (b2n c0 <? 0xC2); [apply IH0|].
  destruct (b2n c0 <? 0xE0).
  { destruct r0 as [|c1 r1]; cbn [app].
    - destruct a as [|a0 a']; [done|]. by rewrite (Ha a0 a' eq_refl).
    - destruct (is_continuation (b2n c1)); [|apply IH0].
      rewrite <- app_comm_cons. f_equal. apply IH. simpl; lia. }
  destruct (b2n c0 <? 0xF0).
  { destruct r0 as [|c1 r1]; cbn [app].
    - destruct a as [|a0 a']; [done|]. by rewrite (Ha a0 a' eq_refl).
    - destruct (negb (is_continuation (b2n c1)) || _); [apply IH0|].
      destruct r1 as [|c2 r2]; cbn [app].
      + destruct a as [|a0 a']; [done|]. by rewrite (Ha a0 a' eq_refl).
      + destruct (is_continuation (b2n c2)).
        * rewrite <- app_comm_cons. f_equal. apply IH. simpl; lia.
        * rewrite <- app_comm_cons. f_equal. apply (IH (c2 :: r2)). simpl; lia. }
  destruct (b2n c0 <? 0xF5); [|apply IH0].
  destruct r0 as [|c1 r1]; cbn [app].
  - destruct a as [|a0 a']; [done|]. by rewrite (Ha a0 a' eq_refl).
  - destruct (negb (is_continuation (b2n c1)) || _); [apply IH0|].
    destruct r1 as [|c2 r2]; cbn [app].
    + destruct a as [|a0 a']; [done|]. by rewrite (Ha a0 a' eq_refl).
    + destruct (is_continuation (b2n c2)); cbn [negb];
        [|rewrite <- app_comm_cons; f_equal; apply (IH (c2 :: r2)); simpl; lia].
      destruct r2 as [|c3 r3]; cbn [app].
      * destruct a as [|a0 a']; [done|]. by rewrite (Ha a0 a' eq_refl).
      * destruct (is_continuation (b2n c3)).
        -- rewrite <- app_comm_cons. f_equal. apply IH. simpl; lia.
        -- rewrite <- app_comm_cons. f_equal. apply (IH (c3 :: r3)). simpl; lia.
Qed.

Lemma utf8_scan_ascii (a : bytes) :
  Forall (fun b => b2n b < 0x80) a -> utf8_scan a = map (fun b => Some (b2n b)) a.
Proof.
  induction 1 as [|b a Hb _ IH]; [done|]. cbn [utf8_scan map].
  destruct (N.ltb_spec (b2n b) 0x80); [|lia]. by rewrite IH.
Qed.

Lemma decode_replace_app_ascii (p a : bytes) :
  Forall (fun b => b2n b < 0x80) a ->
  decode_replace (p ++ a) = decode_replace p ++ map b2n a.
Proof.
  intros Ha. unfold decode_replace. rewrite utf8_scan_app.
  - rewrite map_app, (utf8_scan_ascii a Ha), map_map. done.
  - intros a0 a' ->. apply Forall_cons in Ha as [Ha _].
    apply not_true_is_false. rewrite is_continuation_spec. lia.
Qed.

(** Re-encoding what was decoded never fails. *)
Lemma encode_decode_replace (b : bytes) :
  exists b', encode_utf8 (decode_replace b) = Ok b'.
Proof.
  unfold decode_replace.
  apply (utf8_scan_units (fun _ s =>
      exists b', encode_utf8 (map (fun u => default replacement_character u) s) = Ok b')).
  - by exists [].
  - intros unit rest c Hc _ [b' Hb']. exists (unit ++ b'). simpl. by rewrite Hc, Hb'.
  - intros unit rest [b' Hb']. eexists. simpl. by rewrite Hb'.
Qed.

(** Well-formed UTF-8 decodes without replacement and encodes back to
    itself. *)
Lemma decode_strict_Ok (b : bytes) (s : str) :
  decode_strict b = Ok s -> decode_replace b = s /\ encode_utf8 s = Ok b.
Proof.
  unfold decode_strict, decode_replace. revert s.
  apply (utf8_scan_units (fun b sc => forall s,
      match mapM id sc with Some s => Ok s | None => Raise UnicodeDecodeError end = Ok s ->
      map (fun u => default replacement_character u) sc = s /\ encode_utf8 s = Ok b)).
  - intros s [= <-]. done.
  - intros unit rest c Hc _ IH s. simpl.
    destruct (mapM id (utf8_scan rest)) as [s'|]; [|done]. simpl. intros [= <-].
    destruct (IH s' eq_refl) as [-> IH2]. split; [done|]. simpl. by rewrite Hc, IH2.
  - intros unit rest _ s. simpl. done.
Qed.

(** An ASCII code point that comes out of the decoder was in the data. *)
Lemma decode_replace_ascii_in (b : bytes) (c : N) :
  c < 0x80 -> c ∈ decode_replace b -> n2b c ∈ b.
Proof.
  intros Hc. unfold decode_replace.
  apply (utf8_scan_units (fun b sc =>
      c ∈ map (fun u => default replacement_character u) sc -> n2b c ∈ b)).
  - simpl. by intros ?%elem_of_nil.
  - intros unit rest c' Hc' _ IH. simpl. rewrite elem_of_cons, elem_of_app.
    intros [<- | H]; [|right; by apply IH]. left.
    unfold utf8_char in Hc'. destruct (N.ltb_spec c 0x80); [|lia].
    injection Hc' as <-. apply list_elem_of_here.
  - intros unit rest IH. simpl. rewrite elem_of_cons, elem_of_app.
    intros [-> | H]; [|right; by apply IH]. unfold replacement_character in Hc. lia.
Qed.

(** ** Text operations *)

Lemma rfind_from_notin (s : str) (c : N) (i found : Z) :
  c ∉ s -> rfind_from s c i found = found.
Proof.
  revert i found. induction s as [|x s IH]; intros i found Hc; [done|]. simpl.
  apply not_elem_of_cons in Hc as [Hx Hc].
  destruct (N.eqb_spec x c); [by subst|]. by apply IH.
Qed.

Lemma rfind_from_last (pre post : str) (c : N) (i found : Z) :
  c ∉ post ->
  rfind_from (pre ++ c :: post) c i found = (i + Z.of_nat (length pre))%Z.
Proof.
  intros Hc. revert i found. induction pre as [|x pre IH]; intros i found; simpl.
  - rewrite N.eqb_refl, rfind_from_notin by done. lia.
  - rewrite IH. lia.
Qed.

Lemma rfind_notin (s : str) (c : N) : c ∉ s -> rfind s c = (-1)%Z.
Proof. apply rfind_from_notin. Qed.

Lemma rfind_last (pre post : str) (c : N) :
  c ∉ post -> rfind (pre ++ c :: post) c = Z.of_nat (length pre).
Proof. intros H. unfold rfind. by rewrite rfind_from_last. Qed.

Lemma slice_from_app {A} (pre rest : list A) :
  slice_from (pre ++ rest) (Z.of_nat (length pre)) = rest.
Proof.
  unfold slice_from. destruct (Z.ltb_spec (Z.of_nat (length pre)) 0); [lia|].
  rewrite length_app.
  replace (Z.to_nat (Z.of_nat (length pre) `min` Z.of_nat (length pre + length rest)))
    with (length pre) by lia.
  apply drop_app_length.
Qed.

Lemma slice_from_minus_1 {A} (s : list A) : slice_from s (-1) = last_char s.
Proof.
  unfold slice_from, last_char. simpl.
  destruct s as [|x s] using rev_ind; [done|].
  rewrite last_snoc, length_app. simpl.
  replace (Z.to_nat ((-1 + Z.of_nat (length s + 1)) `max` 0)) with (length s) by lia.
  apply drop_app_length.
Qed.

Lemma lower_from_ascii (E : env) (before s : str) :
  Forall (fun c => c < 128) s -> lower_from E before s = map ascii_lower s.
Proof.
  intros H. revert before. induction H as [|c s Hc _ IH]; intros before; [done|].
  simpl. destruct (N.ltb_spec c 128); [|lia]. by rewrite IH.
Qed.

Lemma lower_last_char_length (E : env) (s : str) :
  (length (lower E (last_char s)) <= 3)%nat.
Proof.
  unfold last_char, lower. destruct (last s) as [c|]; simpl; [|lia].
  destruct (c <? 128); simpl; [lia|].
  destruct (tolower_full E [] c []); simpl; lia.
Qed.

Lemma ascii_lower_dot (c : N) : ascii_lower c = 46 <-> c = 46.
Proof.
  unfold ascii_lower.
  destruct (N.leb_spec 65 c), (N.leb_spec c 90); simpl; lia.
Qed.

Lemma elem_of_map {A B} (f : A -> B) (l : list A) (x : A) : x ∈ l -> f x ∈ map f l.
Proof. rewrite !list_elem_of_In. apply in_map. Qed.

Lemma elem_of_map_inv {A B} (f : A -> B) (l : list A) (y : B) :
  y ∈ map f l -> exists x, f x = y /\ x ∈ l.
Proof.
  rewrite list_elem_of_In, in_map_iff. intros (x & ? & ?). exists x.
  by rewrite list_elem_of_In.
Qed.

Lemma map_ascii_lower_dot (l t : str) :
  map ascii_lower l = 46 :: t -> 46 ∉ t ->
  exists l', l = 46 :: l' /\ 46 ∉ l'.
Proof.
  destruct l as [|x l]; [done|]. simpl. intros [= Hx <-] Ht.
  apply ascii_lower_dot in Hx as ->. exists l. split; [done|].
  intros Hin. apply Ht. by apply (elem_of_map ascii_lower) in Hin.
Qed.

(** ** [extension] *)

Lemma extension_text (E : env) (v : pyval) :
  extension E v = lower E (slice_from (text_of v) (rfind (text_of v) 46)).
Proof. by destruct v. Qed.

(** With a dot in the name: from the last dot to the end, lowercased. *)
Lemma extension_last_dot (E : env) (v : pyval) (pre post : str) :
  text_of v = pre ++ 46 :: post -> 46 ∉ post ->
  extension E v = lower E (46 :: post).
Proof.
  intros Hv Hpost. rewrite extension_text, Hv, rfind_last by done.
  by rewrite slice_from_app.
Qed.

(** Without a dot: the last character, lowercased. *)
Lemma extension_no_dot (E : env) (v : pyval) :
  46 ∉ text_of v -> extension E v = lower E (last_char (text_of v)).
Proof.
  intros Hv. by rewrite extension_text, rfind_notin, slice_from_minus_1.
Qed.

(** Every entry of the allow-list is a dot and at least three characters
    that are not dots. *)
Lemma media_extensions_shape (e : str) :
  e ∈ media_extensions -> (4 <= length e)%nat /\ exists t, e = 46 :: t /\ 46 ∉ t.
Proof.
  intros He.
  assert (H : Forall (fun e => (4 <= length e)%nat /\ exists t, e = 46 :: t /\ 46 ∉ t)
                media_extensions).
  { unfold media_extensions. repeat constructor; simpl; try lia.
    all: eexists; split; [reflexivity|]; compute_done. }
  by apply (proj1 (Forall_forall _ _) H).
Qed.

(** A name whose ASCII ending is, up to case, on the allow-list has that
    entry as its extension. *)
Lemma extension_suffix (E : env) (p sfx : bytes) :
  Forall (fun b => b2n b < 0x80) sfx ->
  map ascii_lower (map b2n sfx) ∈ media_extensions ->
  extension E (PyBytes (p ++ sfx)) = map ascii_lower (map b2n sfx).
Proof.
  intros Hascii Hin.
  destruct (media_extensions_shape _ Hin) as (_ & t & Ht & Hdot).
  destruct (map_ascii_lower_dot _ _ Ht Hdot) as (l' & Hl & Hl').
  rewrite (extension_last_dot E _ (decode_replace p) l').
  - rewrite <- Hl. unfold lower. apply lower_from_ascii.
    apply Forall_forall. intros c (b & <- & Hb)%elem_of_map_inv.
    by apply (proj1 (Forall_forall _ _) Hascii).
  - simpl. rewrite decode_replace_app_ascii by done. by rewrite Hl.
  - done.
Qed.

(** ** Dictionaries *)

Section dict.
Context `{EqDecision K} {V : Type}.
Implicit Types (d : dict K V) (k : K) (v : V).

Lemma dict_get_set d k v k' :
  dict_get (dict_set d k v) k' = if decide (k = k') then Some v else dict_get d k'.
Proof.
  induction d as [|[k0 v0] d IH]; simpl.
  - destruct (decide (k = k')); done.
  - destruct (decide (k0 = k)) as [->|Hne]; simpl.
    + destruct (decide (k = k')); done.
    + destruct (decide (k0 = k')) as [->|]; [|done].
      destruct (decide (k = k')); [by subst|done].
Qed.

Lemma dict_set_keys d k v :
  (dict_set d k v).*1 = if decide (k ∈ d.*1) then d.*1 else d.*1 ++ [k].
Proof.
  induction d as [|[k0 v0] d IH].
  - rewrite decide_False; [done|]. apply not_elem_of_nil.
  - cbn [dict_set]. rewrite fmap_cons. cbn [fst].
    destruct (decide (k0 = k)) as [->|Hne].
    + rewrite decide_True; [done|]. apply list_elem_of_here.
    + rewrite fmap_cons, IH. cbn [fst]. destruct (decide (k ∈ d.*1)) as [Hin|Hin].
      * rewrite decide_True; [done|]. by apply list_elem_of_further.
      * rewrite decide_False; [done|].
        intros [->|?]%elem_of_cons; done.
Qed.

Lemma dict_set_elem_of d k v k' v' :
  (k', v') ∈ dict_set d k v -> (k' = k /\ v' = v) \/ (k', v') ∈ d.
Proof.
  induction d as [|[k0 v0] d IH]; simpl.
  - intros [= -> ->]%list_elem_of_singleton. by left.
  - destruct (decide (k0 = k)) as [->|Hne].
    + intros [[= -> ->] | H]%elem_of_cons; [by left|].
      right. by apply list_elem_of_further.
    + intros [[= -> ->] | H]%elem_of_cons.
      * right. apply list_elem_of_here.
      * destruct (IH H) as [? | ?]; [by left|]. right.
        by apply list_elem_of_further.
Qed.

Lemma dict_set_NoDup d k v : NoDup d.*1 -> NoDup (dict_set d k v).*1.
Proof.
  intros Hd. rewrite dict_set_keys. destruct (decide _) as [|Hk]; [done|].
  apply NoDup_app. split_and!; [done| |apply NoDup_singleton].
  intros x Hx ->%list_elem_of_singleton. done.
Qed.

Lemma dict_get_app d1 d2 k :
  dict_get (d1 ++ d2) k
  = match dict_get d1 k with Some v => Some v | None => dict_get d2 k end.
Proof.
  induction d1 as [|[k0 v0] d1 IH]; simpl; [done|].
  destruct (decide (k0 = k)); done.
Qed.

(** After an update, a name holds the value of the last pair that has it. *)
Lemma dict_get_update d (l : list (K * V)) k :
  dict_get (dict_update d l) k
  = match dict_get (reverse l) k with Some v => Some v | None => dict_get d k end.
Proof.
  unfold dict_update. revert d. induction l as [|[k0 v0] l IH]; intros d; [done|].
  cbn [foldl]. rewrite IH, reverse_cons, dict_get_app, dict_get_set. simpl.
  destruct (dict_get (reverse l) k); [done|].
  destruct (decide (k0 = k)); done.
Qed.

Lemma dict_update_keys_from d (l : list (K * V)) :
  (dict_update d l).*1
  = foldl (fun seen x => if decide (x ∈ seen) then seen else seen ++ [x]) d.*1 l.*1.
Proof.
  unfold dict_update. revert d. induction l as [|[k0 v0] l IH]; intros d; [done|].
  rewrite fmap_cons. cbn [foldl fst snd]. by rewrite IH, dict_set_keys.
Qed.

Lemma dict_update_keys (l : list (K * V)) :
  (dict_update [] l).*1 = first_occurrences l.*1.
Proof. apply dict_update_keys_from. Qed.

Lemma dict_update_NoDup d (l : list (K * V)) :
  NoDup d.*1 -> NoDup (dict_update d l).*1.
Proof.
  unfold dict_update. revert d. induction l as [|[k0 v0] l IH]; intros d Hd; [done|].
  cbn [foldl]. by apply IH, dict_set_NoDup.
Qed.
End dict.

(** ** Properties of a record *)

Lemma props_loop_pairs (data : bytes) (n : nat) (off off' : N) (props props' : dict str str) :
  props_loop data off n props = Ok (props', off') ->
  exists pairs,
    read_pairs data off n = Ok (pairs, off') /\ length pairs = n
    /\ props' = dict_update props (map decode_pair pairs).
Proof.
  revert off props. induction n as [|n IH]; intros off props; simpl.
  - intros [= <- <-]. by exists [].
  - intros H. apply bind_Ok in H as ([name o1] & H1 & H).
    apply bind_Ok in H as ([val o2] & H2 & H).
    apply IH in H as (pairs & Hr & Hl & ->).
    exists ((name, val) :: pairs). rewrite H1. simpl. rewrite H2. simpl.
    rewrite Hr. simpl. by rewrite Hl.
Qed.

(** What [read_fileinfo] leaves in [properties]. *)
Lemma read_fileinfo_properties (data : bytes) (off off' : N) (f : fileinfo) :
  read_fileinfo data off = Ok (f, off') ->
  exists off_p pairs,
    read_pairs data off_p (N.to_nat (numprops f)) = Ok (pairs, off')
    /\ len pairs = numprops f
    /\ properties f = dict_update [] (map decode_pair pairs).
Proof.
  unfold read_fileinfo. intros H.
  do 16 (apply bind_Ok in H as ([? ?] & _ & H)).
  apply bind_Ok in H as ([props o] & Hp & H). injection H as <- <-. simpl.
  apply props_loop_pairs in Hp as (pairs & Hr & Hl & ->).
  eexists _, pairs. split; [exact Hr|]. split; [unfold len; lia | done].
Qed.

(** ** What the reader leaves behind *)

Lemma mbdb_loop_linked (fuel : nat) (data : bytes) (st p : parsed) :
  linked data st -> mbdb_loop fuel data st = Done (Ok p) -> linked data p.
Proof.
  revert st. induction fuel as [|fuel IH]; intros st Hst; simpl.
  - destruct (end_offset st <? len data); [discriminate|]. by intros [= <-].
  - destruct (end_offset st <? len data); [|by intros [= <-]].
    destruct (read_fileinfo data (end_offset st)) as [[f o]|] eqn:Hr; [|discriminate].
    destruct (file_id f) as [id|] eqn:Hid; [|discriminate].
    apply IH. intros off' f' Hin. simpl in Hin.
    pose proof (read_fileinfo_Ok _ _ _ _ Hr) as (Hs & _).
    apply dict_set_elem_of in Hin as [[-> ->] | Hin]; simpl.
    + rewrite Hs. split; [eauto|]. exists id. by rewrite lookup_insert_eq.
    + destruct (Hst _ _ Hin) as (Hrd & id' & Hid' & Hx). split; [done|].
      destruct (decide (start_offset f = off')) as [<-|Hne].
      * destruct Hrd as [o' Hrd]. rewrite Hs in Hrd. rewrite Hr in Hrd.
        injection Hrd as -> ->. exists id. by rewrite lookup_insert_eq.
      * exists id'. by rewrite lookup_insert_ne.
Qed.

Lemma process_mbdb_data_linked (data : bytes) (mbdx0 : gmap N str) (p : parsed) :
  process_mbdb_data data mbdx0 = Done (Ok p) -> linked data p.
Proof.
  unfold process_mbdb_data. destruct (decide _); [|discriminate].
  apply mbdb_loop_linked. intros off f Hin. simpl in Hin. by apply elem_of_nil in Hin.
Qed.

Lemma file_id_Ok (f : fileinfo) (id : str) :
  file_id f = Ok id ->
  exists b, encode_utf8 (decode_replace (domain f ++ blit "-" ++ filename f)) = Ok b
            /\ id = sha1_hexdigest b.
Proof.
  unfold file_id. intros H. apply bind_Ok in H as (b & Hb & [= <-]). eauto.
Qed.

Lemma file_id_total (f : fileinfo) : exists id, file_id f = Ok id.
Proof.
  unfold file_id.
  destruct (encode_decode_replace (domain f ++ blit "-" ++ filename f)) as [b ->].
  simpl. eauto.
Qed.

(** ** The orchestrator, one record at a time *)

Lemma main_body_turn (E : env) (bp df : str) (mbdx : gmap N str)
    (st : mstate) (off : N) (f : fileinfo) :
  turn E bp df mbdx st off f (main_body E bp df mbdx st off f).
Proof.
  unfold main_body. destruct (mbdx !! off) as [id|] eqn:Hid; [|by constructor].
  destruct (bool_decide_reflect (extension E (PyBytes (filename f)) ∈ media_extensions))
    as [Hext|Hext]; [|by econstructor].
  eapply turn_try; [done..|]. cbn zeta.
  assert (Hn : match seen_dates st !! local_date E (ctime f) with
               | Some n => n + 1 | None => 1 end
               = default 0 (seen_dates st !! local_date E (ctime f)) + 1).
  { by destruct (seen_dates st !! _). }
  rewrite Hn. unfold dest_name, counted, could_not_locate, emit. simpl.
  destruct (shutil_copy E _ _) as [u|e]; [done|].
  destruct e; try done. by destruct (decode_strict (filename f)).
Qed.

Lemma attempted_true (E : env) (mbdx : gmap N str) (off : N) (f : fileinfo) :
  attempted E mbdx (off, f) = true <->
  (exists id, mbdx !! off = Some id)
  /\ extension E (PyBytes (filename f)) ∈ media_extensions.
Proof.
  unfold attempted. rewrite andb_true_iff, !bool_decide_eq_true. done.
Qed.

Lemma attempts_cons (E : env) (mbdx : gmap N str) (d : str) (it : N * fileinfo)
    (items : dict N fileinfo) :
  attempts E mbdx d (it :: items)
  = (if decide (attempted E mbdx it = true /\ local_date E (ctime it.2) = d)
     then 1 else 0) + attempts E mbdx d items.
Proof.
  unfold attempts. rewrite filter_cons. destruct (decide _); [|lia].
  rewrite len_cons. lia.
Qed.

Lemma attempts_nil (E : env) (mbdx : gmap N str) (d : str) : attempts E mbdx d [] = 0.
Proof. done. Qed.

Lemma attempts_app (E : env) (mbdx : gmap N str) (d : str) (l1 l2 : dict N fileinfo) :
  attempts E mbdx d (l1 ++ l2) = attempts E mbdx d l1 + attempts E mbdx d l2.
Proof. unfold attempts. rewrite filter_app, len_app. done. Qed.

Lemma counted_seen (d d' : str) (st : mstate) :
  default 0 (seen_dates (counted d st) !! d')
  = default 0 (seen_dates st !! d') + (if decide (d = d') then 1 else 0).
Proof.
  unfold counted. simpl. destruct (decide (d = d')) as [->|Hne].
  - rewrite lookup_insert_eq. simpl. lia.
  - rewrite lookup_insert_ne by done. lia.
Qed.

(** One turn counts the date of the record when, and only when, the record
    is tried; whether the copy then succeeds plays no part. *)
Lemma turn_seen (E : env) (bp df : str) (mbdx : gmap N str) (st st' : mstate)
    (off : N) (f : fileinfo) (r : option exn) (d : str) :
  turn E bp df mbdx st off f (st', r) ->
  default 0 (seen_dates st' !! d)
  = default 0 (seen_dates st !! d) + attempts E mbdx d [(off, f)].
Proof.
  rewrite attempts_cons, attempts_nil, N.add_0_r. cbn [snd].
  inversion 1 as [Hid | id Hid Hext | id r0 Hid Hext d0 st1 src dest Hr]; subst.
  - simpl. rewrite decide_False; [lia|].
    intros [[[? ?] _]%attempted_true _]. congruence.
  - rewrite decide_False; [lia|]. by intros [[_ ?]%attempted_true _].
  - assert (Hst : seen_dates st' = seen_dates st1).
    { destruct (shutil_copy E src dest) as [u|e]; [by injection Hr as -> _|].
      destruct e; try by injection Hr as -> _.
      destruct (decode_strict (filename f)); by injection Hr as -> _. }
    rewrite Hst. unfold st1. rewrite counted_seen.
    assert (Ha : attempted E mbdx (off, f) = true) by (apply attempted_true; eauto).
    destruct (decide (d0 = d)) as [Hd|Hd].
    + rewrite decide_True; [done|]. done.
    + rewrite decide_False; [done|]. by intros [_ ?].
Qed.

Lemma main_loop_app (E : env) (bp df : str) (mbdx : gmap N str)
    (l1 l2 : dict N fileinfo) (st : mstate) :
  main_loop E bp df mbdx (l1 ++ l2) st
  = match main_loop E bp df mbdx l1 st with
    | (st1, None) => main_loop E bp df mbdx l2 st1
    | (st1, Some e) => (st1, Some e)
    end.
Proof.
  revert st. induction l1 as [|[off f] l1 IH]; intros st; simpl; [done|].
  destruct (main_body E bp df mbdx st off f) as [st1 [e|]]; [done|]. apply IH.
Qed.

(** When the loop runs to its end, the counter of a date is the number of
    records of that date that were tried. *)
Lemma main_loop_seen (E : env) (bp df : str) (mbdx : gmap N str)
    (items : dict N fileinfo) (st st' : mstate) (d : str) :
  main_loop E bp df mbdx items st = (st', None) ->
  default 0 (seen_dates st' !! d)
  = default 0 (seen_dates st !! d) + attempts E mbdx d items.
Proof.
  revert st. induction items as [|[off f] items IH]; intros st; simpl.
  - intros [= <-]. rewrite attempts_nil. lia.
  - pose proof (main_body_turn E bp df mbdx st off f) as Ht.
    destruct (main_body E bp df mbdx st off f) as [st1 [e|]]; [discriminate|].
    intros H. rewrite (IH _ H), (turn_seen _ _ _ _ _ _ _ _ _ d Ht).
    rewrite (attempts_cons _ _ _ (off, f) items), attempts_cons, attempts_nil. lia.
Qed.

Lemma turn_events (E : env) (bp df : str) (mbdx : gmap N str) (st st' : mstate)
    (off : N) (f : fileinfo) (r : option exn) :
  turn E bp df mbdx st off f (st', r) -> exists evs, events st' = events st ++ evs.
Proof.
  inversion 1 as [Hid | id Hid Hext | id r0 Hid Hext d0 st1 src dest Hr]; subst.
  - by eexists.
  - exists []. by rewrite app_nil_r.
  - destruct (shutil_copy E src dest) as [u|e]; [injection Hr as -> _; by eexists|].
    destruct e; try (injection Hr as -> _; exists []; by rewrite app_nil_r).
    destruct (decode_strict (filename f));
      injection Hr as -> _; [by eexists | exists []; by rewrite app_nil_r].
Qed.

Lemma main_loop_events (E : env) (bp df : str) (mbdx : gmap N str)
    (items : dict N fileinfo) (st st' : mstate) (r : option exn) :
  main_loop E bp df mbdx items st = (st', r) ->
  exists evs, events st' = events st ++ evs.
Proof.
  revert st. induction items as [|[off f] items IH]; intros st; simpl.
  - intros [= <- <-]. exists []. by rewrite app_nil_r.
  - pose proof (main_body_turn E bp df mbdx st off f) as Ht.
    destruct (main_body E bp df mbdx st off f) as [st1 [e|]].
    + intros [= <- <-]. by eapply turn_events.
    + intros H. apply IH in H as [evs2 ->].
      apply turn_events in Ht as [evs1 ->]. exists (evs1 ++ evs2). by rewrite app_assoc.
Qed.

Lemma main_loop_split (E : env) (bp df : str) (mbdx : gmap N str)
    (before after : dict N fileinfo) (off : N) (f : fileinfo) (st st' : mstate) :
  main_loop E bp df mbdx (before ++ (off, f) :: after) st = (st', None) ->
  exists st1 st2,
    main_loop E bp df mbdx before st = (st1, None)
    /\ main_body E bp df mbdx st1 off f = (st2, None)
    /\ main_loop E bp df mbdx after st2 = (st', None).
Proof.
  rewrite main_loop_app.
  destruct (main_loop E bp df mbdx before st) as [st1 [e|]]; [discriminate|].
  simpl. destruct (main_body E bp df mbdx st1 off f) as [st2 [e|]] eqn:Hb; [discriminate|].
  intros H. by exists st1, st2.
Qed.

Lemma copies_app (l1 l2 : list event) : copies (l1 ++ l2) = copies l1 + copies l2.
Proof. unfold copies. by rewrite List.filter_app, len_app. Qed.

(** [media_recovered] goes up by one with each copy made, and only then. *)
Lemma turn_recovered (E : env) (bp df : str) (mbdx : gmap N str) (st st' : mstate)
    (off : N) (f : fileinfo) (r : option exn) :
  turn E bp df mbdx st off f (st', r) ->
  media_recovered st' + copies (events st) = media_recovered st + copies (events st').
Proof.
  inversion 1 as [Hid | id Hid Hext | id r0 Hid Hext d0 st1 src dest Hr]; subst.
  - simpl. rewrite copies_app. change (copies [StderrNoFileID f]) with 0. lia.
  - done.
  - destruct (shutil_copy E src dest) as [u|e].
    { injection Hr as -> _. simpl. rewrite copies_app.
      change (copies [Copied src dest]) with 1. lia. }
    destruct e; try (by injection Hr as -> _).
    destruct (decode_strict (filename f)) as [name|]; injection Hr as -> _; [|done].
    simpl. rewrite copies_app. change (copies [could_not_locate id name]) with 0. lia.
Qed.

Lemma main_loop_recovered (E : env) (bp df : str) (mbdx : gmap N str)
    (items : dict N fileinfo) (st st' : mstate) (r : option exn) :
  main_loop E bp df mbdx items st = (st', r) ->
  media_recovered st' + copies (events st) = media_recovered st + copies (events st').
Proof.
  revert st. induction items as [|[off f] items IH]; intros st; simpl.
  - by intros [= <- <-].
  - pose proof (main_body_turn E bp df mbdx st off f) as Ht.
    destruct (main_body E bp df mbdx st off f) as [st1 [e|]].
    + intros [= <- <-]. by eapply turn_recovered.
    + intros H. apply IH in H. apply turn_recovered in Ht. lia.
Qed.

(** With an identifier for every record, nothing is reported as lacking
    one. *)
Lemma main_loop_no_report (E : env) (bp df : str) (mbdx : gmap N str)
    (items : dict N fileinfo) (st st' : mstate) (r : option exn) (g : fileinfo) :
  (forall off f, (off, f) ∈ items -> is_Some (mbdx !! off)) ->
  main_loop E bp df mbdx items st = (st', r) ->
  StderrNoFileID g ∈ events st' -> StderrNoFileID g ∈ events st.
Proof.
  revert st. induction items as [|[off f] items IH]; intros st Hids; simpl.
  - by intros [= <- <-].
  - pose proof (main_body_turn E bp df mbdx st off f) as Ht.
    assert (Hstep : forall st1 r1, turn E bp df mbdx st off f (st1, r1) ->
              StderrNoFileID g ∈ events st1 -> StderrNoFileID g ∈ events st).
    { intros st1 r1.
      inversion 1 as [Hid | id Hid Hext | id r0 Hid Hext d0 s1 src dest Hr]; subst.
      - destruct (Hids off f) as [? ?]; [apply list_elem_of_here | congruence].
      - done.
      - destruct (shutil_copy E src dest) as [u|e].
        { injection Hr as -> _. simpl. rewrite elem_of_app, list_elem_of_singleton.
          by intros [?|?]. }
        destruct e; try (by injection Hr as -> _).
        destruct (decode_strict (filename f)); injection Hr as -> _; [|done].
        simpl. rewrite elem_of_app, list_elem_of_singleton. by intros [?|?]. }
    destruct (main_body E bp df mbdx st off f) as [st1 [e|]].
    + intros [= <- <-]. by eapply Hstep.
    + intros H Hin. eapply Hstep; [done|]. eapply IH; [|done..].
      intros off' f' Hin'. eapply Hids. by apply list_elem_of_further.
Qed.


(** ** A run *)

Lemma create_folder_ready (E : env) (bp : str) :
  folder_ready E bp ->
  create_folder_in_not_exists E (dest_folder_of bp) = Ok (events (initial_state E bp)).
Proof.
  unfold folder_ready, create_folder_in_not_exists, initial_state. simpl.
  intros [H | H].
  - by rewrite H.
  - rewrite H. by destruct (path_exists E _).
Qed.

Lemma create_folder_cases (E : env) (bp : str) :
  folder_ready E bp
  \/ exists e, path_exists E (dest_folder_of bp) = false
               /\ os_makedirs E (dest_folder_of bp) = Raise e
               /\ create_folder_in_not_exists E (dest_folder_of bp) = Raise e.
Proof.
  unfold folder_ready, create_folder_in_not_exists.
  destruct (path_exists E _); [by left; left|].
  destruct (os_makedirs E _) as [[]|e]; [by left; right|].
  right. by exists e.
Qed.

(** A run whose folder step raises ends there. *)
Lemma main_stuck (E : env) (bp : str) (p : parsed) (e : exn) :
  process_mbdb_file E (manifest_path bp) ∅ = Done (Ok p) ->
  create_folder_in_not_exists E (dest_folder_of bp) = Raise e ->
  main E bp = Done ([], Raise e).
Proof.
  intros Hp Hc. unfold main. fold (manifest_path bp). rewrite Hp.
  fold (dest_folder_of bp). by rewrite Hc.
Qed.

Lemma main_parsed (E : env) (bp : str) (p : parsed) :
  process_mbdb_file E (manifest_path bp) ∅ = Done (Ok p) ->
  folder_ready E bp ->
  main E bp
  = match main_loop E bp (dest_folder_of bp) (mbdx p) (mbdb p) (initial_state E bp) with
    | (st, Some e) => Done (events st, Raise e)
    | (st, None) =>
        Done (events st ++ [recovered_line (media_recovered st)], Ok (media_recovered st))
    end.
Proof.
  intros Hp Hf. unfold main. fold (manifest_path bp). rewrite Hp.
  fold (dest_folder_of bp). rewrite (create_folder_ready _ _ Hf).
  change {| media_recovered := 0; seen_dates := ∅;
            events := events (initial_state E bp) |} with (initial_state E bp).
  by destruct (main_loop _ _ _ _ _ _) as [st [e|]].
Qed.

Lemma process_mbdb_file_total (E : env) (path : str) (mbdx0 : gmap N str) :
  exists r, process_mbdb_file E path mbdx0 = Done r.
Proof.
  unfold process_mbdb_file. destruct (read_file E path); [|eauto].
  apply process_mbdb_data_total.
Qed.

(** A run always ends. *)
Lemma main_total (E : env) (bp : str) : exists r, main E bp = Done r.
Proof.
  destruct (process_mbdb_file_total E (manifest_path bp) ∅) as [[p|e] Hp].
  - destruct (create_folder_cases E bp) as [Hf | (e & _ & _ & Hc)].
    + rewrite (main_parsed _ _ _ Hp Hf).
      destruct (main_loop _ _ _ _ _ _) as [st [e|]]; eauto.
    + rewrite (main_stuck _ _ _ _ Hp Hc). eauto.
  - unfold main. fold (manifest_path bp). rewrite Hp. eauto.
Qed.

Lemma process_mbdb_file_linked (E : env) (path : str) (mbdx0 : gmap N str) (p : parsed) :
  process_mbdb_file E path mbdx0 = Done (Ok p) ->
  exists data, read_file E path = Ok data /\ linked data p.
Proof.
  unfold process_mbdb_file. destruct (read_file E path) as [data|]; [|discriminate].
  intros H. exists data. split; [done|]. by eapply process_mbdb_data_linked.
Qed.

(** ** The record decoder: [getstring] *)

Lemma getstring_encode_string_65535 (s : bytes) :
  len s = 65535 -> getstring (encode_string s) 0 = Ok ([], 2).
Proof.
  intros Hs. apply getstring_sentinel; unfold encode_string; rewrite Hs; reflexivity.
Qed.

(** C5, as stated, fails: the encoding of a string of 65535 bytes begins
    with the two bytes 0xFF 0xFF, which [getstring] takes for the sentinel;
    it returns the empty string and moves the cursor by two, not past the
    string. *)
Lemma getstring_roundtrip_fails_at_65535 :
  getstring (encode_string long_string) 0 = Ok ([], 2)
  /\ getstring (encode_string long_string) 0
     <> Ok (long_string, len (encode_string long_string)).
Proof.
  assert (H : getstring (encode_string long_string) 0 = Ok ([], 2)).
  { apply getstring_encode_string_65535. unfold len, long_string.
    rewrite length_replicate. lia. }
  split; [exact H|]. rewrite H. by intros [=].
Qed.

(** C5, amended: when the next two bytes are both 0xFF, [getstring] returns
    the empty string and moves the cursor by exactly two; and for every
    byte string [s] shorter than 65535 bytes, reading the encoding of [s]
    (wherever it lies in the data) yields [s] and moves the cursor past
    it. *)
Theorem getstring_sentinel_and_roundtrip :
  (forall (data : bytes) (off : N),
     data !! N.to_nat off = Some xff -> data !! N.to_nat (off + 1) = Some xff ->
     getstring data off = Ok ([], off + 2))
  /\ (forall pre s post : bytes,
      len s < 65535 ->
      getstring (pre ++ encode_string s ++ post) (len pre)
      = Ok (s, len pre + len (encode_string s))).
Proof.
  split; [apply getstring_sentinel | apply getstring_encode_string].
Qed.

Lemma getstring_sentinel_and_roundtrip_witness :
  getstring [x00; xff; xff; x41] 1 = Ok ([], 3)
  /\ getstring ([x07] ++ encode_string (blit "Media") ++ [x2e]) 1 = Ok (blit "Media", 8).
Proof.
  destruct getstring_sentinel_and_roundtrip as [H1 H2].
  split; [apply H1; reflexivity | apply (H2 [x07]); vm_compute; reflexivity].
Defined.

(** ** The manifest reader: the marker *)

(** C7: when the first four bytes are not [mbdb], the reader raises at once,
    whatever follows, and the run ends there: nothing was created, copied
    or printed. *)
Theorem bad_magic_aborts_before_recovery (E : env) (backup_path : str)
    (data : bytes) (mbdx0 : gmap N str) :
  take 4 data <> blit "mbdb" ->
  process_mbdb_data data mbdx0 = Done (Raise NotMbdb)
  /\ (read_file E (manifest_path backup_path) = Ok data ->
      main E backup_path = Done ([], Raise NotMbdb)).
Proof.
  intros Hm. pose proof (process_mbdb_data_bad_magic data mbdx0 Hm) as Hp.
  split; [done|]. intros Hr. unfold main, process_mbdb_file.
  fold (manifest_path backup_path). rewrite Hr.
  by rewrite (process_mbdb_data_bad_magic data ∅ Hm).
Qed.

Lemma bad_magic_aborts_before_recovery_witness :
  let data := blit "mbdx" ++ [x05; x00] in
  process_mbdb_data data ∅ = Done (Raise NotMbdb)
  /\ main (sample_env data []) (lit "backup") = Done ([], Raise NotMbdb).
Proof.
  destruct (bad_magic_aborts_before_recovery
              (sample_env (blit "mbdx" ++ [x05; x00]) []) (lit "backup")
              (blit "mbdx" ++ [x05; x00]) ∅) as [H1 H2].
  - vm_compute. discriminate.
  - split; [exact H1 | apply H2; reflexivity].
Defined.

(** ** The manifest reader: bounds *)

(** C2, as stated, fails: in this manifest the value of the record's only
    property declares five bytes where one is left.  The reader does not
    fail: it keeps the one byte as the value and ends four bytes past the
    end of the data. *)
Lemma truncated_value_is_accepted :
  exists p f,
    process_mbdb_data truncated_manifest ∅ = Done (Ok p)
    /\ mbdb p = [(6, f)]
    /\ properties f = [(lit "k", lit "v")]
    /\ end_offset p = len truncated_manifest + 4.
Proof. vm_compute. eexists _, _. repeat split. Qed.

(** ** The manifest reader: properties *)

(** C3, as stated, fails: the record of this manifest announces two
    properties, both named [a]; the dictionary read from it has one entry,
    holding the second value. *)
Lemma duplicate_name_is_overwritten :
  exists p f,
    process_mbdb_data duplicate_manifest ∅ = Done (Ok p)
    /\ mbdb p = [(6, f)]
    /\ numprops f = 2
    /\ properties f = [(lit "a", lit "y")].
Proof. vm_compute. eexists _, _. repeat split. Qed.

(** C3, amended: for every record, the reader reads exactly [numprops]
    name/value pairs; the properties are a dictionary keyed by the decoded
    name: the names are those of the pairs, each once, in the order of
    their first occurrence, and each name holds the value of the last pair
    that has it. *)
Theorem properties_are_a_dictionary (data : bytes) (mbdx0 : gmap N str)
    (p : parsed) (off : N) (f : fileinfo) :
  process_mbdb_data data mbdx0 = Done (Ok p) ->
  (off, f) ∈ mbdb p ->
  exists off_p off' pairs,
    read_pairs data off_p (N.to_nat (numprops f)) = Ok (pairs, off')
    /\ len pairs = numprops f
    /\ (properties f).*1 = first_occurrences (map decode_pair pairs).*1
    /\ NoDup (properties f).*1
    /\ forall name,
         dict_get (properties f) name = dict_get (reverse (map decode_pair pairs)) name.
Proof.
  intros Hp Hin. apply process_mbdb_data_linked in Hp.
  destruct (Hp off f Hin) as ([off' Hr] & _).
  apply read_fileinfo_properties in Hr as (off_p & pairs & Hr & Hl & ->).
  exists off_p, off', pairs. split_and!; [done..| | |].
  - apply dict_update_keys.
  - apply dict_update_NoDup. constructor.
  - intros name. rewrite dict_get_update. by destruct (dict_get _ name).
Qed.

Lemma properties_are_a_dictionary_witness :
  exists p f off_p off' pairs,
    process_mbdb_data duplicate_manifest ∅ = Done (Ok p)
    /\ (6, f) ∈ mbdb p
    /\ read_pairs duplicate_manifest off_p (N.to_nat (numprops f)) = Ok (pairs, off')
    /\ len pairs = numprops f
    /\ (properties f).*1 = first_occurrences (map decode_pair pairs).*1.
Proof.
  assert (Hp : exists p f, process_mbdb_data duplicate_manifest ∅ = Done (Ok p)
                           /\ mbdb p = [(6, f)])
    by (vm_compute; eexists _, _; split; reflexivity).
  destruct Hp as (p & f & Hp & Hmbdb).
  assert (Hf : (6, f) ∈ mbdb p) by (rewrite Hmbdb; apply list_elem_of_here).
  destruct (properties_are_a_dictionary duplicate_manifest ∅ p 6 f Hp Hf)
    as (off_p & off' & pairs & H1 & H2 & H3 & _).
  exists p, f, off_p, off', pairs.
  split; [exact Hp|]. split; [exact Hf|]. split; [exact H1|]. split; [exact H2 | exact H3].
Defined.

(** ** The identifier deriver *)

(** C1, as stated, fails: for a record whose domain is the byte 0xFF, the
    identifier is the digest of the bytes EF BF BD (the encoding of U+FFFD,
    put in place of 0xFF by the lossy decoding) followed by the dash and the
    file name, and not the digest of the bytes of the record. *)
Lemma storage_id_is_not_the_hash_of_the_raw_path :
  let r := process_mbdb_data latin_manifest ∅ in
  map (fun it => (it.1, domain it.2, filename it.2)) (mbdb_of r)
  = [(6, [xff], blit "IMG_0001.JPG")]
  /\ mbdx_of r !! 6 = Some (sha1_hexdigest ([xef; xbf; xbd] ++ blit "-IMG_0001.JPG"))
  /\ mbdx_of r !! 6 <> Some (sha1_hexdigest ([xff] ++ blit "-" ++ blit "IMG_0001.JPG")).
Proof. vm_compute. split_and!; [reflexivity..|discriminate]. Qed.

(** C1, amended: for every record read, the identifier is the lowercase
    hexadecimal SHA-1 digest of the UTF-8 encoding of the lossily decoded
    concatenation of domain, a dash and file name (the encoding never
    fails); when that concatenation is well-formed UTF-8, this is the digest
    of the raw bytes. *)
Theorem storage_id_hashes_the_decoded_path (data : bytes) (mbdx0 : gmap N str)
    (p : parsed) (off : N) (f : fileinfo) :
  process_mbdb_data data mbdx0 = Done (Ok p) ->
  (off, f) ∈ mbdb p ->
  let raw := domain f ++ blit "-" ++ filename f in
  exists b,
    encode_utf8 (decode_replace raw) = Ok b
    /\ mbdx p !! off = Some (sha1_hexdigest b)
    /\ ((exists s, decode_strict raw = Ok s) -> b = raw).
Proof.
  intros Hp Hin raw. apply process_mbdb_data_linked in Hp.
  destruct (Hp off f Hin) as (_ & id & Hid & Hx).
  apply file_id_Ok in Hid as (b & Hb & ->). exists b. split_and!; [done..|].
  intros [s Hs]. apply decode_strict_Ok in Hs as [Hd He].
  fold raw in Hb. rewrite Hd, He in Hb. by injection Hb.
Qed.

Lemma storage_id_hashes_the_decoded_path_witness :
  exists p f b,
    process_mbdb_data latin_manifest ∅ = Done (Ok p)
    /\ (6, f) ∈ mbdb p
    /\ encode_utf8 (decode_replace (domain f ++ blit "-" ++ filename f)) = Ok b
    /\ mbdx p !! 6 = Some (sha1_hexdigest b).
Proof.
  assert (Hp : exists p f, process_mbdb_data latin_manifest ∅ = Done (Ok p)
                           /\ mbdb p = [(6, f)])
    by (vm_compute; eexists _, _; split; reflexivity).
  destruct Hp as (p & f & Hp & Hmbdb).
  assert (Hf : (6, f) ∈ mbdb p) by (rewrite Hmbdb; apply list_elem_of_here).
  destruct (storage_id_hashes_the_decoded_path latin_manifest ∅ p 6 f Hp Hf)
    as (b & Hb & Hx & _).
  exists p, f, b. split; [exact Hp|]. split; [exact Hf|]. split; [exact Hb | exact Hx].
Defined.

(** C9: the derivation of an identifier never fails; after a parse, [mbdx]
    has an entry under the key of every record of [mbdb], the key being the
    record's [start_offset]; and no run reports a record as lacking an
    identifier. *)
Theorem every_record_has_an_identifier (E : env) (backup_path : str)
    (data : bytes) (mbdx0 : gmap N str) :
  (forall f, exists id, file_id f = Ok id)
  /\ (forall p off f,
     process_mbdb_data data mbdx0 = Done (Ok p) ->
     (off, f) ∈ mbdb p -> start_offset f = off /\ is_Some (mbdx p !! off))
  /\ (forall evs r g, main E backup_path = Done (evs, r) -> StderrNoFileID g ∉ evs).
Proof.
  split_and!.
  - apply file_id_total.
  - intros p off f Hp Hin. apply process_mbdb_data_linked in Hp.
    destruct (Hp off f Hin) as ([off' Hr] & id & _ & Hx).
    apply read_fileinfo_Ok in Hr as (? & _). by split.
  - intros evs r g Hm Hg.
    destruct (process_mbdb_file_total E (manifest_path backup_path) ∅) as [[p|e] Hp].
    + destruct (create_folder_cases E backup_path) as [Hf | (e & _ & _ & Hc)];
        [|rewrite (main_stuck _ _ _ _ Hp Hc) in Hm; injection Hm as <- _;
          by apply elem_of_nil in Hg].
      rewrite (main_parsed _ _ _ Hp Hf) in Hm.
      apply process_mbdb_file_linked in Hp as (d & _ & Hl).
      assert (Hids : forall off f, (off, f) ∈ mbdb p -> is_Some (mbdx p !! off)).
      { intros off f Hin. destruct (Hl off f Hin) as (_ & id & _ & Hx). eauto. }
      destruct (main_loop _ _ _ _ _ _) as [st r'] eqn:Hloop.
      assert (Hst : StderrNoFileID g ∈ events st).
      { destruct r' as [e|]; injection Hm as <- _; [done|].
        apply elem_of_app in Hg as [?|Hg]; [done|].
        by apply list_elem_of_singleton in Hg. }
      eapply main_loop_no_report in Hst; [|done..].
      unfold initial_state in Hst. simpl in Hst.
      destruct (path_exists E _); [by apply elem_of_nil in Hst|].
      by apply list_elem_of_singleton in Hst.
    + unfold main in Hm. fold (manifest_path backup_path) in Hm. rewrite Hp in Hm.
      injection Hm as <- _. by apply elem_of_nil in Hg.
Qed.

Lemma every_record_has_an_identifier_witness :
  (forall f, exists id, file_id f = Ok id)
  /\ (forall p off f,
     process_mbdb_data latin_manifest ∅ = Done (Ok p) ->
     (off, f) ∈ mbdb p -> start_offset f = off /\ is_Some (mbdx p !! off))
  /\ (forall evs r g,
        main (sample_env latin_manifest []) (lit "backup") = Done (evs, r) ->
        StderrNoFileID g ∉ evs).
Proof.
  exact (every_record_has_an_identifier
           (sample_env latin_manifest []) (lit "backup") latin_manifest ∅).
Defined.

(** C10: when the name has no dot, the extension is the last character of
    the decoded name, lowercased (nothing for an empty name); it is at most
    three code points long, every entry of the allow-list is at least four,
    so the record is not media and is passed over. *)
Theorem extension_without_dot (E : env) (name : bytes) :
  x2e ∉ name ->
  extension E (PyBytes name) = lower E (last_char (decode_replace name))
  /\ (name = [] -> extension E (PyBytes name) = [])
  /\ (length (extension E (PyBytes name)) <= 3)%nat
  /\ (extension E (PyBytes name) ∉ media_extensions)
  /\ (forall bp df mbdx st off f id,
        filename f = name -> mbdx !! off = Some id ->
        main_body E bp df mbdx st off f = (st, None)).
Proof.
  intros Hdot.
  assert (Hd : 46 ∉ decode_replace name).
  { intros Hin. apply Hdot. apply (decode_replace_ascii_in name 46) in Hin; done. }
  assert (He : extension E (PyBytes name) = lower E (last_char (decode_replace name))).
  { by apply (extension_no_dot E (PyBytes name)). }
  assert (Hlen : (length (extension E (PyBytes name)) <= 3)%nat).
  { rewrite He. apply lower_last_char_length. }
  assert (Hnot : extension E (PyBytes name) ∉ media_extensions).
  { intros [Hl _]%media_extensions_shape. lia. }
  split_and!; [done | by intros -> | done | done |].
  intros bp df mbdx st off f id <- Hid.
  pose proof (main_body_turn E bp df mbdx st off f) as Ht.
  inversion Ht as [Hn | id' Hid' Hext' Heq | id' r0 Hid' Hext' d0 st1 src dest Hr Heq];
    [congruence | done | done].
Qed.

Lemma extension_without_dot_witness :
  extension (sample_env [] []) (PyBytes (blit "README")) = lit "e"
  /\ extension (sample_env [] []) (PyBytes (blit "README")) ∉ media_extensions.
Proof.
  destruct (extension_without_dot (sample_env [] []) (blit "README")) as (H1 & _ & _ & H2 & _).
  - compute_done.
  - split; [rewrite H1; reflexivity | exact H2].
Defined.

(** ** Whole runs *)

(** A run that reports a count went through the whole loop. *)
Lemma main_Ok (E : env) (bp : str) (p : parsed) (evs : list event) (n : N) :
  process_mbdb_file E (manifest_path bp) ∅ = Done (Ok p) ->
  main E bp = Done (evs, Ok n) ->
  exists st,
    main_loop E bp (dest_folder_of bp) (mbdx p) (mbdb p) (initial_state E bp) = (st, None)
    /\ evs = events st ++ [recovered_line n]
    /\ n = media_recovered st.
Proof.
  intros Hp Hm.
  destruct (create_folder_cases E bp) as [Hf | (e & _ & _ & Hc)];
    [|by rewrite (main_stuck _ _ _ _ Hp Hc) in Hm].
  rewrite (main_parsed _ _ _ Hp Hf) in Hm.
  destruct (main_loop _ _ _ _ _ _) as [st [e|]]; [discriminate|].
  injection Hm as <- <-. by exists st.
Qed.

Lemma copies_initial (E : env) (bp : str) : copies (events (initial_state E bp)) = 0.
Proof. unfold initial_state. simpl. by destruct (path_exists E _). Qed.

(** What the loop does at one record that it tries, in a run that goes to
    its end from the initial state. *)
Lemma main_loop_at (E : env) (bp : str) (mbdx : gmap N str)
    (before after : dict N fileinfo) (off : N) (f : fileinfo) (id : str) (st : mstate) :
  main_loop E bp (dest_folder_of bp) mbdx (before ++ (off, f) :: after)
    (initial_state E bp) = (st, None) ->
  mbdx !! off = Some id ->
  extension E (PyBytes (filename f)) ∈ media_extensions ->
  let d := local_date E (ctime f) in
  let src := path_join bp id in
  let dest := path_join (dest_folder_of bp)
                (dest_name d (attempts E mbdx d before + 1)
                   (extension E (PyBytes (filename f)))) in
  match shutil_copy E src dest with
  | Ok _ => Copied src dest ∈ events st
  | Raise _ =>
      exists name, decode_strict (filename f) = Ok name
                   /\ could_not_locate id name ∈ events st
  end.
Proof.
  intros Hloop Hid Hext d src dest.
  apply main_loop_split in Hloop as (st1 & st2 & H1 & H2 & H3).
  pose proof (main_loop_seen _ _ _ _ _ _ _ d H1) as Hseen.
  unfold initial_state in Hseen. simpl in Hseen. rewrite lookup_empty in Hseen.
  simpl in Hseen. rewrite N.add_0_l in Hseen.
  apply main_loop_events in H3 as [evs3 Hev].
  pose proof (main_body_turn E bp (dest_folder_of bp) mbdx st1 off f) as Ht.
  rewrite H2 in Ht.
  inversion Ht as [Hn | id' Hid' Hext' Heq | id' r0 Hid' Hext' d0 s1 src0 dest0 Hr Heq];
    [congruence | done |].
  assert (id' = id) as -> by congruence.
  subst d0 src0 dest0. fold d in Hr. rewrite Hseen in Hr. fold src dest in Hr.
  destruct (shutil_copy E src dest) as [u|e].
  - injection Hr as ->. rewrite Hev. simpl.
    rewrite !elem_of_app, list_elem_of_singleton. by left; right.
  - destruct e; try discriminate.
    destruct (decode_strict (filename f)) as [name|]; [|discriminate].
    injection Hr as ->. exists name. split; [done|]. rewrite Hev. simpl.
    rewrite !elem_of_app, list_elem_of_singleton. by left; right.
Qed.

(** ** Destination names *)

(** C4, as stated, fails: of two pictures of 2023-05-01 the first has no
    file in the backup; one picture is recovered on that date, and its
    destination carries the suffix 2, not 1. *)
Lemma suffix_skips_a_failed_copy :
  main (sample_env gap_manifest [second_blob]) (lit "backup")
  = Done ([Makedirs (lit "recovered_media/backup");
           could_not_locate (lit "343e26971dfe9c395c425c0ccf799df63ae6261e")
             (lit "Media/DCIM/100APPLE/IMG_0001.JPG");
           Copied second_blob (lit "recovered_media/backup/2023_05_01_2.jpg");
           recovered_line 1],
          Ok 1).
Proof. vm_compute. reflexivity. Qed.

(** C4, amended: in a run that goes to its end, the destination of a record
    that is tried carries, after its date, one more than the number of
    records of that date tried before it, whether their copies succeeded or
    not; two tried records of one date never share that number; the counter
    of a date ends at the number of records of that date that were tried;
    and the count reported is the number of copies made. *)
Theorem destination_suffix_counts_attempts (E : env) (backup_path : str)
    (p : parsed) (evs : list event) (n : N) :
  process_mbdb_file E (manifest_path backup_path) ∅ = Done (Ok p) ->
  main E backup_path = Done (evs, Ok n) ->
  (forall before off f after id,
     mbdb p = before ++ (off, f) :: after ->
     mbdx p !! off = Some id ->
     extension E (PyBytes (filename f)) ∈ media_extensions ->
     let d := local_date E (ctime f) in
     let k := attempts E (mbdx p) d before + 1 in
     let src := path_join backup_path id in
     let dest := path_join (dest_folder_of backup_path)
                   (dest_name d k (extension E (PyBytes (filename f)))) in
     1 <= k <= attempts E (mbdx p) d (mbdb p)
     /\ (forall u, shutil_copy E src dest = Ok u -> Copied src dest ∈ evs))
  /\ (forall l1 it l2 d,
        attempted E (mbdx p) it = true -> local_date E (ctime it.2) = d ->
        attempts E (mbdx p) d l1 < attempts E (mbdx p) d (l1 ++ it :: l2))
  /\ (exists st,
        main_loop E backup_path (dest_folder_of backup_path) (mbdx p) (mbdb p)
          (initial_state E backup_path) = (st, None)
        /\ forall d, default 0 (seen_dates st !! d) = attempts E (mbdx p) d (mbdb p))
  /\ n = copies evs.
Proof.
  intros Hp Hm. destruct (main_Ok _ _ _ _ _ Hp Hm) as (st & Hloop & -> & ->).
  assert (Hstrict : forall l1 it l2 d,
            attempted E (mbdx p) it = true -> local_date E (ctime it.2) = d ->
            attempts E (mbdx p) d l1 < attempts E (mbdx p) d (l1 ++ it :: l2)).
  { intros l1 it l2 d Ha Hd. rewrite attempts_app, attempts_cons.
    rewrite decide_True by done. lia. }
  split_and!.
  - intros before off f after id Hsplit Hid Hext d k src dest.
    assert (Ha : attempted E (mbdx p) (off, f) = true) by (apply attempted_true; eauto).
    split.
    + rewrite Hsplit. specialize (Hstrict before (off, f) after d Ha eq_refl).
      unfold k. lia.
    + intros u Hc. rewrite Hsplit in Hloop.
      pose proof (main_loop_at _ _ _ _ _ _ _ _ _ Hloop Hid Hext) as Hat.
      cbn zeta in Hat. fold d k src dest in Hat. rewrite Hc in Hat.
      apply elem_of_app. by left.
  - exact Hstrict.
  - exists st. split; [done|]. intros d.
    rewrite (main_loop_seen _ _ _ _ _ _ _ d Hloop).
    unfold initial_state. simpl. rewrite lookup_empty. simpl. lia.
  - apply main_loop_recovered in Hloop. rewrite copies_initial in Hloop.
    rewrite copies_app. change (copies [recovered_line (media_recovered st)]) with 0.
    unfold initial_state in Hloop. simpl in Hloop. lia.
Qed.

Lemma destination_suffix_counts_attempts_witness :
  exists p evs,
    process_mbdb_file (sample_env gap_manifest [second_blob])
      (manifest_path (lit "backup")) ∅ = Done (Ok p)
    /\ main (sample_env gap_manifest [second_blob]) (lit "backup") = Done (evs, Ok 1)
    /\ 1 = copies evs.
Proof.
  assert (Hp : exists p, process_mbdb_file (sample_env gap_manifest [second_blob])
                           (manifest_path (lit "backup")) ∅ = Done (Ok p))
    by (vm_compute; eexists; reflexivity).
  assert (Hm : exists evs, main (sample_env gap_manifest [second_blob]) (lit "backup")
                           = Done (evs, Ok 1))
    by (vm_compute; eexists; reflexivity).
  destruct Hp as [p Hp], Hm as [evs Hm].
  destruct (destination_suffix_counts_attempts _ _ p evs 1 Hp Hm) as (_ & _ & _ & H).
  exists p, evs. split; [exact Hp|]. split; [exact Hm | exact H].
Defined.

(** * Further properties *)

(** ** [getint]: values *)

Lemma index_lookup (data : bytes) (i : N) (b : byte) :
  data !! N.to_nat i = Some b -> index data i = Ok (b2n b).
Proof. unfold index. by intros ->. Qed.

Lemma getint_loop_snoc (data : bytes) (n : nat) (v off : N) :
  getint_loop data v off (S n)
  = '(v', off') ← getint_loop data v off n;
    b ← index data off';
    Ok (N.shiftl v' 8 + b, off' + 1).
Proof.
  revert v off. induction n as [|n IH]; intros v off.
  - simpl. by destruct (index data off).
  - cbn [getint_loop]. destruct (index data off) as [b|]; [|reflexivity].
    exact (IH (N.shiftl v 8 + b) (off + 1)).
Qed.

Lemma be_bytes_length (n : nat) (x : N) : length (be_bytes n x) = n.
Proof.
  revert x. induction n as [|n IH]; intros x; simpl; [done|].
  rewrite List.length_app, IH. simpl. lia.
Qed.

Lemma getint_loop_be_bytes (n : nat) (pre post : bytes) (x : N) :
  x < 256 ^ N.of_nat n ->
  getint_loop (pre ++ map n2b (be_bytes n x) ++ post) 0 (len pre) n
  = Ok (x, len pre + N.of_nat n).
Proof.
  revert post x. induction n as [|n IH]; intros post x Hx.
  - simpl in *. do 2 f_equal; lia.
  - rewrite getint_loop_snoc. cbn [be_bytes]. rewrite List.map_app, <- app_assoc. cbn [map app].
    assert (Hq : x / 256 < 256 ^ N.of_nat n).
    { apply N.Div0.div_lt_upper_bound.
      replace (N.of_nat (S n)) with (N.succ (N.of_nat n)) in Hx by lia.
      by rewrite N.pow_succ_r' in Hx. }
    rewrite (IH (n2b (x mod 256) :: post) (x / 256) Hq). simpl.
    assert (Hi : index (pre ++ map n2b (be_bytes n (x / 256)) ++ n2b (x mod 256) :: post)
                   (len pre + N.of_nat n) = Ok (x mod 256)).
    { rewrite app_assoc.
      replace (len pre + N.of_nat n)
        with (len (pre ++ map n2b (be_bytes n (x / 256))) + 0)
        by (rewrite len_app; unfold len; rewrite List.length_map, be_bytes_length; lia).
      rewrite index_app_r. unfold index. simpl.
      rewrite b2n_n2b; [done|]. apply N.mod_lt. lia. }
    rewrite Hi. simpl. do 2 f_equal; [|lia].
    rewrite N.shiftl_mul_pow2. change (2 ^ 8) with 256.
    pose proof (N.div_mod' x 256). lia.
Qed.

Lemma be_value_snoc (bs : bytes) (b : byte) :
  be_value (bs ++ [b]) = be_value bs * 256 + b2n b.
Proof. unfold be_value. by rewrite foldl_app. Qed.

Lemma be_value_lt (bs : bytes) : be_value bs < 256 ^ len bs.
Proof.
  induction bs as [|b bs IH] using rev_ind; [done|].
  rewrite be_value_snoc, len_app.
  replace (len bs + len [b]) with (N.succ (len bs)) by (unfold len; simpl; lia).
  rewrite N.pow_succ_r'. pose proof (b2n_lt b). lia.
Qed.

Lemma slice_snoc (data : bytes) (a n : N) (b : byte) :
  data !! N.to_nat (a + n) = Some b ->
  slice data a (a + n + 1) = slice data a (a + n) ++ [b].
Proof.
  intros Hb. unfold slice.
  replace (N.to_nat (a + n + 1 - a)) with (S (N.to_nat n)) by lia.
  replace (N.to_nat (a + n - a)) with (N.to_nat n) by lia.
  erewrite take_S_r; [done|]. rewrite lookup_drop.
  by replace (N.to_nat a + N.to_nat n)%nat with (N.to_nat (a + n)) by lia.
Qed.

Lemma getint_loop_value (data : bytes) (n : nat) (off v off' : N) :
  getint_loop data 0 off n = Ok (v, off') ->
  v = be_value (slice data off (off + N.of_nat n)) /\ off' = off + N.of_nat n.
Proof.
  revert v off'. induction n as [|n IH]; intros v off'.
  - simpl. intros [= <- <-]. unfold slice. rewrite N.add_0_r, N.sub_diag. simpl.
    split; [done | lia].
  - rewrite getint_loop_snoc. intros H. apply bind_Ok in H as ([v1 o1] & H1 & H).
    apply bind_Ok in H as (b & Hb & [= <- <-]).
    apply IH in H1 as [-> ->]. apply index_Ok in Hb as (_ & c & Hc & ->).
    replace (off + N.of_nat (S n)) with (off + N.of_nat n + 1) by lia.
    rewrite (slice_snoc _ _ _ _ Hc), be_value_snoc, N.shiftl_mul_pow2.
    change (2 ^ 8) with 256. split; [done | lia].
Qed.

Lemma index_in (data : bytes) (i : N) : i < len data -> exists v, index data i = Ok v.
Proof.
  unfold index, len. intros H.
  destruct (data !! N.to_nat i) eqn:E; [eauto|].
  apply lookup_ge_None in E. lia.
Qed.

Lemma getint_loop_in (data : bytes) (n : nat) (v off : N) :
  off + N.of_nat n <= len data -> exists r, getint_loop data v off n = Ok r.
Proof.
  revert v off. induction n as [|n IH]; intros v off Hb; simpl; [eauto|].
  destruct (index_in data off) as [b ->]; [lia|].
  simpl. apply IH. lia.
Qed.

Lemma getint_value (data : bytes) (off : N) (n : nat) (v off' : N) :
  getint data off n = Ok (v, off') ->
  off' = off + N.of_nat n
  /\ v = be_value (slice data off off')
  /\ v < 256 ^ N.of_nat n.
Proof.
  intros H. apply getint_loop_value in H as [-> ->]. split_and!; [done..|].
  eapply N.lt_le_trans; [apply be_value_lt|].
  apply N.pow_le_mono_r; [lia|]. rewrite slice_length. lia.
Qed.

(** X1: the bytes of a number below [256 ^ n], most significant first, read
    back as that number, wherever they lie in the data; the cursor moves
    past them. *)
Theorem getint_reads_big_endian (n : nat) (pre post : bytes) (x : N) :
  x < 256 ^ N.of_nat n ->
  getint (pre ++ map n2b (be_bytes n x) ++ post) (len pre) n
  = Ok (x, len pre + N.of_nat n).
Proof. apply getint_loop_be_bytes. Qed.

Lemma getint_reads_big_endian_witness :
  getint ([x6d] ++ map n2b (be_bytes 4 1682899200) ++ [x00]) 1 4 = Ok (1682899200, 5).
Proof. apply (getint_reads_big_endian 4 [x6d] [x00] 1682899200). vm_compute. reflexivity. Defined.

(** X2: [getint] succeeds exactly when it is asked for no byte or the bytes
    asked for lie within the data; the value is then the big-endian value
    of those bytes, below [256 ^ n], and the cursor has moved by [n]. *)
Theorem getint_succeeds_within_bounds (data : bytes) (off : N) (n : nat) :
  ((exists r, getint data off n = Ok r)
   <-> n = 0%nat \/ off + N.of_nat n <= len data)
  /\ (forall v off', getint data off n = Ok (v, off') ->
        off' = off + N.of_nat n
        /\ v = be_value (slice data off off')
        /\ v < 256 ^ N.of_nat n).
Proof.
  split; [|apply getint_value]. split.
  - intros [[v off'] H]. apply getint_Ok in H as [-> H]. destruct H; [by left|by right].
  - intros [-> | Hb]; [by eexists | by apply getint_loop_in].
Qed.

Lemma getint_succeeds_within_bounds_witness :
  ((exists r, getint [x01; x02] 0 2 = Ok r)
   <-> 2%nat = 0%nat \/ 0 + N.of_nat 2 <= len [x01; x02])
  /\ 258 = be_value (slice [x01; x02] 0 2)
  /\ 258 < 256 ^ N.of_nat 2.
Proof.
  destruct (getint_succeeds_within_bounds [x01; x02] 0 2) as [H1 H2].
  split; [exact H1|].
  destruct (H2 258 2) as (_ & Hv & Hlt); [reflexivity|].
  split; [exact Hv | exact Hlt].
Defined.

(** ** [getstring]: values *)

Lemma getint2 (data : bytes) (off b0 b1 : N) :
  index data off = Ok b0 -> index data (off + 1) = Ok b1 ->
  getint data off 2 = Ok (b0 * 256 + b1, off + 2).
Proof.
  intros H0 H1. unfold getint. cbn [getint_loop]. rewrite H0. cbn [mbind result_bind].
  rewrite H1. cbn [mbind result_bind]. do 2 f_equal; [|lia].
  rewrite !N.shiftl_mul_pow2. change (2 ^ 8) with 256. lia.
Qed.

Lemma slice_within (data : bytes) (a b : N) :
  a <= b -> b <= len data -> len (slice data a b) = b - a.
Proof. intros Ha Hb. rewrite slice_length. lia. Qed.

(** What a string read returns, when it returns. *)
Lemma getstring_value (data : bytes) (off off' : N) (v : bytes) :
  getstring data off = Ok (v, off') ->
  v = slice data (off + 2) off'
  /\ off + 2 <= off' <= off + 65536
  /\ off + 2 <= len data
  /\ (off' <= len data -> len v = off' - (off + 2)).
Proof.
  intros H.
  assert (Hlen : forall b0 b1, index data off = Ok b0 -> index data (off + 1) = Ok b1 ->
            (b0 =? 255) && (b1 =? 255) = false ->
            ('(length, offset) ← getint data off 2;
             Ok (slice data offset (offset + length), offset + length)) = Ok (v, off') ->
            v = slice data (off + 2) off' /\ off + 2 <= off' <= off + 65536
            /\ off + 2 <= len data
            /\ (off' <= len data -> len v = off' - (off + 2))).
  { intros b0 b1 H0 H1 Hff Hg. rewrite (getint2 _ _ _ _ H0 H1) in Hg.
    cbn [mbind result_bind] in Hg. injection Hg as <- <-.
    apply index_Ok in H0 as (_ & c0 & _ & ->). apply index_Ok in H1 as (Hb & c1 & _ & ->).
    pose proof (b2n_lt c0). pose proof (b2n_lt c1).
    apply andb_false_iff in Hff.
    assert (b2n c0 * 256 + b2n c1 <= 65534).
    { destruct Hff as [Hff | Hff]; apply N.eqb_neq in Hff; lia. }
    split_and!; [done | lia.. |]. intros Hin. apply slice_within; lia. }
  unfold getstring in H.
  destruct (index data off) as [b0|] eqn:H0; [|discriminate]. cbn [mbind result_bind] in H.
  destruct (b0 =? 255) eqn:E0.
  - destruct (index data (off + 1)) as [b1|] eqn:H1; [|discriminate].
    cbn [mbind result_bind] in H. destruct (b1 =? 255) eqn:E1.
    + injection H as <- <-. apply index_Ok in H1 as [H1 _].
      split_and!; [|lia..|].
      * unfold slice. by rewrite N.sub_diag.
      * intros _. unfold len. simpl. lia.
    + apply (Hlen b0 b1); [done.. | by rewrite E0, E1 | done].
  - destruct (index_total data (off + 1)) as [[b1 H1] | H1].
    + apply (Hlen b0 b1); [done.. | by rewrite E0 | done].
    + unfold getint in H. cbn [getint_loop] in H. rewrite H0 in H.
      cbn [mbind result_bind] in H. rewrite H1 in H. discriminate.
Qed.

(** X3: when its two length bytes lie within the data, a string read
    succeeds; what it returns is the part of the data between those two
    bytes and the new cursor, which is at most 65534 bytes further, and the
    string has that many bytes unless the data ends before. *)
Theorem getstring_returns_the_declared_bytes (data : bytes) (off : N) :
  off + 2 <= len data ->
  exists v off',
    getstring data off = Ok (v, off')
    /\ v = slice data (off + 2) off'
    /\ off + 2 <= off' <= off + 2 + 65534
    /\ (off' <= len data -> len v = off' - (off + 2)).
Proof.
  intros Hin. destruct (getstring_total data off) as [[[v off'] H] | H].
  - exists v, off'. apply getstring_value in H as Hv. destruct Hv as (? & ? & _ & ?).
    split_and!; [done.. | lia | lia | done].
  - exfalso. unfold getstring in H.
    destruct (index_in data off) as [b0 H0]; [lia|].
    destruct (index_in data (off + 1)) as [b1 H1]; [lia|].
    rewrite H0, H1, (getint2 _ _ _ _ H0 H1) in H. cbn [mbind result_bind] in H.
    destruct (b0 =? 255); [destruct (b1 =? 255)|]; discriminate.
Qed.

Lemma getstring_returns_the_declared_bytes_witness :
  exists v off',
    getstring [x00; x02; x68; x69; x21] 0 = Ok (v, off')
    /\ v = slice [x00; x02; x68; x69; x21] (0 + 2) off'
    /\ 0 + 2 <= off' <= 0 + 2 + 65534
    /\ (off' <= len [x00; x02; x68; x69; x21] -> len v = off' - (0 + 2)).
Proof.
  apply (getstring_returns_the_declared_bytes [x00; x02; x68; x69; x21] 0).
  vm_compute. discriminate.
Defined.

(** ** The manifest reader: one record *)

Lemma getint_field (data : bytes) (off : N) (n : nat) (v off' : N) :
  (0 < n)%nat ->
  getint data off n = Ok (v, off') ->
  off' = off + N.of_nat n /\ v = int_at data off n /\ v < 256 ^ N.of_nat n
  /\ off' <= len data.
Proof.
  intros Hn H. pose proof (getint_Ok _ _ _ _ _ H) as [_ [? | ?]]; [lia|].
  apply getint_value in H as (-> & -> & ?). done.
Qed.

Lemma getstring_field (data : bytes) (off off' : N) (v : bytes) :
  getstring data off = Ok (v, off') ->
  v = slice data (off + 2) off' /\ off + 2 <= off' /\ len v <= 65534
  /\ (off' <= len data -> off' = off + 2 + len v).
Proof.
  intros H. apply getstring_value in H as (Hv & Ho & _ & Hl).
  split_and!; [done | lia | | intros Hi; specialize (Hl Hi); lia].
  rewrite Hv, slice_length. lia.
Qed.

(** Takes one read off the front of a chain of reads that succeeded, and
    keeps what it read. *)
Ltac field_read H :=
  let Hr := fresh "Hr" in
  apply bind_Ok in H as ([? ?] & Hr & H);
  first [ apply getstring_field in Hr as (? & ? & ? & ?)
        | apply getint_field in Hr as (? & ? & ? & ?); [|lia] ].

Lemma dict_set_length `{EqDecision K} {V} (d : dict K V) (k : K) (v : V) :
  (length (dict_set d k v) <= S (length d))%nat.
Proof.
  induction d as [|[k' v'] d IH]; simpl; [lia|].
  destruct (decide (k' = k)); simpl; lia.
Qed.

Lemma props_loop_length (data : bytes) (n : nat) (off off' : N) (props props' : dict str str) :
  props_loop data off n props = Ok (props', off') ->
  (length props' <= length props + n)%nat.
Proof.
  revert off props. induction n as [|n IH]; intros off props; simpl.
  - intros [= <- <-]. lia.
  - intros H. apply bind_Ok in H as ([name o1] & _ & H).
    apply bind_Ok in H as ([val o2] & _ & H).
    apply IH in H. pose proof (dict_set_length props (decode_replace name) (decode_replace val)).
    lia.
Qed.

(** X4: the numbers of a record lie in the range of their width (two
    bytes for the mode, four for the identifiers and times, eight for the
    length, one for the flag and the number of properties); each of the
    five strings has at most 65534 bytes; and the record has at most as
    many properties as it declares. *)
Theorem record_fields_are_in_range (data : bytes) (off off' : N) (f : fileinfo) :
  read_fileinfo data off = Ok (f, off') ->
  (mode f < 2 ^ 16 /\ unknown2 f < 2 ^ 32 /\ unknown3 f < 2 ^ 32
   /\ userid f < 2 ^ 32 /\ groupid f < 2 ^ 32
   /\ mtime f < 2 ^ 32 /\ atime f < 2 ^ 32 /\ ctime f < 2 ^ 32
   /\ filelen f < 2 ^ 64 /\ flag f < 2 ^ 8 /\ numprops f < 2 ^ 8)
  /\ (len (domain f) <= 65534 /\ len (filename f) <= 65534
      /\ len (linktarget f) <= 65534 /\ len (datahash f) <= 65534
      /\ len (unknown1 f) <= 65534)
  /\ len (properties f) <= numprops f.
Proof.
  unfold read_fileinfo. intros H.
  do 16 field_read H.
  apply bind_Ok in H as ([props o] & Hp & H). injection H as <- <-. cbn.
  apply props_loop_length in Hp. simpl in Hp.
  split_and!; try assumption. unfold len. lia.
Qed.

Lemma record_fields_are_in_range_witness :
  exists f off',
    read_fileinfo notes_manifest 6 = Ok (f, off')
    /\ mode f < 2 ^ 16 /\ ctime f < 2 ^ 32 /\ filelen f < 2 ^ 64
    /\ len (filename f) <= 65534
    /\ len (properties f) <= numprops f.
Proof.
  assert (Hr : exists f off', read_fileinfo notes_manifest 6 = Ok (f, off'))
    by (vm_compute; eexists _, _; reflexivity).
  destruct Hr as (f & off' & Hr). exists f, off'.
  destruct (record_fields_are_in_range notes_manifest 6 off' f Hr)
    as ((Hm & _ & _ & _ & _ & _ & _ & Hc & Hl & _) & (_ & Hn & _) & Hp).
  split; [exact Hr|]. split; [exact Hm|]. split; [exact Hc|]. split; [exact Hl|].
  split; [exact Hn | exact Hp].
Defined.

(** X5: where the fields of a record lie.  The five strings follow one
    another from the start of the record, each behind its two length bytes
    and none of them cut short; the eleven numbers follow the last string
    in forty bytes, which lie within the data; the properties take at
    least four bytes each; and a record without properties ends right
    after the numbers. *)
Theorem record_layout (data : bytes) (off off' : N) (f : fileinfo) :
  read_fileinfo data off = Ok (f, off') ->
  let s1 := off + 2 + len (domain f) in
  let s2 := s1 + 2 + len (filename f) in
  let s3 := s2 + 2 + len (linktarget f) in
  let s4 := s3 + 2 + len (datahash f) in
  let s := s4 + 2 + len (unknown1 f) in
  (domain f = slice data (off + 2) s1
   /\ filename f = slice data (s1 + 2) s2
   /\ linktarget f = slice data (s2 + 2) s3
   /\ datahash f = slice data (s3 + 2) s4
   /\ unknown1 f = slice data (s4 + 2) s)
  /\ (mode f = int_at data s 2
      /\ unknown2 f = int_at data (s + 2) 4
      /\ unknown3 f = int_at data (s + 6) 4
      /\ userid f = int_at data (s + 10) 4
      /\ groupid f = int_at data (s + 14) 4
      /\ mtime f = int_at data (s + 18) 4
      /\ atime f = int_at data (s + 22) 4
      /\ ctime f = int_at data (s + 26) 4
      /\ filelen f = int_at data (s + 30) 8
      /\ flag f = int_at data (s + 38) 1
      /\ numprops f = int_at data (s + 39) 1)
  /\ s + 40 <= len data
  /\ s + 40 + 4 * numprops f <= off'
  /\ (numprops f = 0 -> off' = s + 40).
Proof.
  unfold read_fileinfo. intros H.
  do 16 field_read H.
  apply bind_Ok in H as ([props o] & Hp & H). injection H as <- <-. cbn.
  apply props_loop_Ok in Hp as [Hp Hp0].
  repeat match goal with
         | Hs : ?o' <= len data -> ?o' = _ |- _ =>
             let Hi := fresh "Hi" in
             assert (Hi : o' <= len data) by lia; specialize (Hs Hi)
         end.
  subst. split_and!; try (f_equal; lia); lia.
Qed.

Lemma record_layout_witness :
  exists f off',
    read_fileinfo notes_manifest 6 = Ok (f, off')
    /\ filename f = slice notes_manifest 20 29
    /\ ctime f = int_at notes_manifest 61 4
    /\ numprops f = int_at notes_manifest 74 1
    /\ off' = 75.
Proof.
  assert (Hr : exists f off', read_fileinfo notes_manifest 6 = Ok (f, off')
            /\ len (domain f) = 10 /\ len (filename f) = 9 /\ len (linktarget f) = 0
            /\ len (datahash f) = 0 /\ len (unknown1 f) = 0 /\ numprops f = 0)
    by (vm_compute; eexists _, _; repeat split).
  destruct Hr as (f & off' & Hr & H1 & H2 & H3 & H4 & H5 & H0). exists f, off'.
  destruct (record_layout notes_manifest 6 off' f Hr)
    as ((_ & Hn & _) & (_ & _ & _ & _ & _ & _ & _ & Hc & _ & _ & Hp) & _ & _ & Hz).
  rewrite H1, H2, H3, H4, H5 in *.
  split; [exact Hr|]. split; [exact Hn|]. split; [exact Hc|]. split; [exact Hp|].
  exact (Hz H0).
Defined.

(** ** The manifest reader: the loop *)

Lemma props_loop_total (data : bytes) (n : nat) (off : N) (props : dict str str) :
  (exists r, props_loop data off n props = Ok r)
  \/ props_loop data off n props = Raise IndexError.
Proof.
  revert off props. induction n as [|n IH]; intros off props; simpl; [eauto|].
  destruct (getstring_total data off) as [[[name o1] ->] | ->]; [|by right].
  cbn [mbind result_bind].
  destruct (getstring_total data o1) as [[[val o2] ->] | ->]; [|by right].
  cbn [mbind result_bind]. apply IH.
Qed.

Lemma read_fileinfo_total (data : bytes) (off : N) :
  (exists r, read_fileinfo data off = Ok r) \/ read_fileinfo data off = Raise IndexError.
Proof.
  unfold read_fileinfo.
  repeat match goal with
         | |- context [getstring data ?o ≫= _] =>
             destruct (getstring_total data o) as [[[? ?] ->] | ->]; [|by right];
             cbn [mbind result_bind]
         | |- context [getint data ?o ?n ≫= _] =>
             destruct (getint_total data n o) as [[[? ?] ->] | ->]; [|by right];
             cbn [mbind result_bind]
         end.
  match goal with
  | |- context [props_loop data ?o ?n ?d] =>
      destruct (props_loop_total data n o d) as [[[? ?] ->] | ->]; [|by right]
  end.
  cbn [mbind result_bind]. eauto.
Qed.

Lemma mbdb_loop_Raise (fuel : nat) (data : bytes) (st : parsed) (e : exn) :
  mbdb_loop fuel data st = Done (Raise e) ->
  e = IndexError /\ end_offset st < len data.
Proof.
  revert st. induction fuel as [|fuel IH]; intros st; simpl.
  - destruct (end_offset st <? len data); discriminate.
  - destruct (end_offset st <? len data) eqn:E; [|discriminate].
    apply N.ltb_lt in E.
    destruct (read_fileinfo_total data (end_offset st)) as [[[f o] Hr] | Hr]; rewrite Hr.
    + destruct (file_id_total f) as [id ->]. intros H. apply IH in H as [-> _].
      done.
    + by intros [= <-].
Qed.

(** X6: a file that holds the marker and at most two more bytes parses to
    an empty [mbdb]; [mbdx] is left as it was. *)
Theorem header_only_manifest_is_empty (data : bytes) (mbdx0 : gmap N str) :
  take 4 data = blit "mbdb" ->
  len data <= 6 ->
  process_mbdb_data data mbdx0
  = Done (Ok {| mbdb := []; mbdx := mbdx0; end_offset := 6 |}).
Proof.
  intros Hm Hl. unfold process_mbdb_data. rewrite decide_True by exact Hm.
  destruct (length data); cbn [mbdb_loop end_offset]; change (4 + 2) with 6;
    by rewrite (proj2 (N.ltb_ge _ _) Hl).
Qed.

Lemma header_only_manifest_is_empty_witness :
  process_mbdb_data (blit "mbdb" ++ [x05; x00]) ∅
  = Done (Ok {| mbdb := []; mbdx := ∅; end_offset := 6 |}).
Proof.
  apply (header_only_manifest_is_empty (blit "mbdb" ++ [x05; x00]) ∅).
  - reflexivity.
  - vm_compute. discriminate.
Defined.

(** X8: a file with the marker that goes on after the header for fewer
    than fifty bytes is rejected with [IndexError]: no record is that
    short. *)
Theorem short_record_is_rejected (data : bytes) (mbdx0 : gmap N str) :
  take 4 data = blit "mbdb" ->
  6 < len data < 56 ->
  process_mbdb_data data mbdx0 = Done (Raise IndexError).
Proof.
  intros Hm Hl. unfold process_mbdb_data. rewrite decide_True by exact Hm.
  destruct (length data) as [|n] eqn:En; [unfold len in Hl; lia|].
  cbn [mbdb_loop end_offset]. change (4 + 2) with 6.
  rewrite (proj2 (N.ltb_lt _ _) (proj1 Hl)).
  destruct (read_fileinfo_total data 6) as [[[f o] Hr] | ->]; [|done].
  apply read_fileinfo_Ok in Hr as (_ & _ & Hr & _). lia.
Qed.

Lemma short_record_is_rejected_witness :
  process_mbdb_data (take 55 notes_manifest) ∅ = Done (Raise IndexError).
Proof.
  apply (short_record_is_rejected (take 55 notes_manifest) ∅).
  - reflexivity.
  - vm_compute. split; reflexivity.
Defined.

Lemma dict_set_fresh `{EqDecision K} {V} (d : dict K V) (k : K) (v : V) :
  k ∉ d.*1 -> dict_set d k v = d ++ [(k, v)].
Proof.
  induction d as [|[k' v'] d IH]; intros Hk; simpl; [done|].
  rewrite fmap_cons in Hk. apply not_elem_of_cons in Hk as [Hne Hk].
  rewrite decide_False by (simpl in Hne; congruence). by rewrite IH.
Qed.

Lemma chained_snoc (data : bytes) (o e e' : N) (items : dict N fileinfo) (f : fileinfo) :
  chained data o items e -> read_fileinfo data e = Ok (f, e') ->
  chained data o (items ++ [(e, f)]) e'.
Proof.
  revert o. induction items as [|[k g] items IH]; intros o; simpl.
  - intros -> Hr. split; [done|]. by exists e'.
  - intros (-> & o' & Hr' & Hc) Hr. split; [done|]. exists o'. split; [done|].
    by apply IH.
Qed.

Lemma chained_end (data : bytes) (o e : N) (items : dict N fileinfo) :
  chained data o items e -> o + 50 * len items <= e.
Proof.
  revert o. induction items as [|[k g] items IH]; intros o; simpl.
  - intros ->. unfold len. simpl. lia.
  - intros (-> & o' & Hr & Hc). apply IH in Hc.
    apply read_fileinfo_Ok in Hr as (_ & Hr & _). rewrite len_cons. lia.
Qed.

Lemma chained_keys (data : bytes) (o e : N) (items : dict N fileinfo) (k : N) :
  chained data o items e -> k ∈ items.*1 -> o <= k /\ k + 50 <= e /\ k + 50 <= len data.
Proof.
  revert o. induction items as [|[k' g] items IH]; intros o; simpl.
  - intros _ Hk. by apply elem_of_nil in Hk.
  - intros (-> & o' & Hr & Hc) Hk. pose proof (chained_end _ _ _ _ Hc) as He.
    apply read_fileinfo_Ok in Hr as (_ & Hr & Hd & _).
    apply elem_of_cons in Hk as [-> | Hk]; [lia|].
    destruct (IH _ Hc Hk) as (? & ? & ?). lia.
Qed.

Lemma chained_sorted (data : bytes) (o e : N) (items : dict N fileinfo)
    (i j : nat) (k1 k2 : N) :
  chained data o items e -> (i < j)%nat ->
  items.*1 !! i = Some k1 -> items.*1 !! j = Some k2 -> k1 + 50 <= k2.
Proof.
  revert o i j. induction items as [|[k' g] items IH]; intros o i j; simpl; [done|].
  intros (-> & o' & Hr & Hc) Hij Hi Hj.
  destruct j as [|j]; [lia|]. simpl in Hj.
  destruct i as [|i]; simpl in Hi.
  - injection Hi as <-. apply list_elem_of_lookup_2 in Hj.
    destruct (chained_keys _ _ _ _ _ Hc Hj) as (? & _).
    apply read_fileinfo_Ok in Hr as (_ & Hr & _). lia.
  - apply (IH o' i j); [done | lia | done..].
Qed.

Lemma chained_count (data : bytes) (o e : N) (items : dict N fileinfo) :
  chained data o items e -> items = [] \/ o + 50 * len items <= len data.
Proof.
  revert o. induction items as [|[k g] items IH]; intros o; simpl; [by left|].
  intros (-> & o' & Hr & Hc). right.
  apply read_fileinfo_Ok in Hr as (_ & Hr & Hd & _). rewrite len_cons.
  destruct (IH _ Hc) as [-> | ?]; [|lia].
  change (len (@nil (N * fileinfo))) with 0. lia.
Qed.

Lemma mbdb_loop_invariant (fuel : nat) (data : bytes) (mbdx0 : gmap N str)
    (st p : parsed) :
  reader_invariant data mbdx0 st ->
  mbdb_loop fuel data st = Done (Ok p) ->
  reader_invariant data mbdx0 p.
Proof.
  revert st. induction fuel as [|fuel IH]; intros st Hinv; simpl.
  - destruct (end_offset st <? len data); [discriminate|]. by intros [= <-].
  - destruct (end_offset st <? len data); [|by intros [= <-]].
    destruct (read_fileinfo data (end_offset st)) as [[f o]|] eqn:Hr; [|discriminate].
    destruct (file_id f) as [id|]; [|discriminate].
    apply IH. destruct Hinv as [Hc Hx].
    pose proof (read_fileinfo_Ok _ _ _ _ Hr) as (Hs & _).
    assert (Hfresh : start_offset f ∉ (mbdb st).*1).
    { intros Hk. destruct (chained_keys _ _ _ _ _ Hc Hk) as (_ & ? & _). lia. }
    unfold reader_invariant. cbn [mbdb mbdx end_offset].
    rewrite (dict_set_fresh _ _ _ Hfresh). split.
    + rewrite Hs. by apply chained_snoc.
    + intros k Hk. rewrite fmap_app, not_elem_of_app in Hk. destruct Hk as [Hk Hne].
      rewrite lookup_insert_ne; [by apply Hx|].
      intros <-. apply Hne. simpl. apply list_elem_of_here.
Qed.

Lemma process_mbdb_data_invariant (data : bytes) (mbdx0 : gmap N str) (p : parsed) :
  process_mbdb_data data mbdx0 = Done (Ok p) -> reader_invariant data mbdx0 p.
Proof.
  unfold process_mbdb_data. destruct (decide _); [|discriminate].
  apply mbdb_loop_invariant. split; [done|]. done.
Qed.

(** X9: after a parse, the records of [mbdb] lie back to back in the data:
    the first was read at offset 6, each next one where the one before it
    ended, and the last one ends at the final cursor.  So the keys, in the
    order of the dictionary, grow by at least fifty from one to the next,
    every record starts at least fifty bytes before the end of the data,
    and the data has room for fifty bytes for each record. *)
Theorem records_lie_back_to_back (data : bytes) (mbdx0 : gmap N str) (p : parsed) :
  process_mbdb_data data mbdx0 = Done (Ok p) ->
  chained data 6 (mbdb p) (end_offset p)
  /\ (forall i j k1 k2, (i < j)%nat ->
        (mbdb p).*1 !! i = Some k1 -> (mbdb p).*1 !! j = Some k2 -> k1 + 50 <= k2)
  /\ (forall k, k ∈ (mbdb p).*1 -> 6 <= k /\ k + 50 <= len data)
  /\ (mbdb p = [] \/ 6 + 50 * len (mbdb p) <= len data).
Proof.
  intros Hp. apply process_mbdb_data_invariant in Hp as [Hc _].
  split_and!.
  - done.
  - intros i j k1 k2. by apply chained_sorted with (1 := Hc).
  - intros k Hk. destruct (chained_keys _ _ _ _ _ Hc Hk) as (? & _ & ?). done.
  - by apply chained_count with (1 := Hc).
Qed.

Lemma records_lie_back_to_back_witness :
  exists p,
    process_mbdb_data gap_manifest ∅ = Done (Ok p)
    /\ chained gap_manifest 6 (mbdb p) (end_offset p)
    /\ (forall k1 k2, (mbdb p).*1 !! 0%nat = Some k1 -> (mbdb p).*1 !! 1%nat = Some k2 ->
          k1 + 50 <= k2)
    /\ (mbdb p = [] \/ 6 + 50 * len (mbdb p) <= len gap_manifest).
Proof.
  assert (Hp : exists p, process_mbdb_data gap_manifest ∅ = Done (Ok p))
    by (vm_compute; eexists; reflexivity).
  destruct Hp as [p Hp]. exists p.
  destruct (records_lie_back_to_back gap_manifest ∅ p Hp) as (Hc & Hs & _ & Hn).
  split; [exact Hp|]. split; [exact Hc|]. split; [|exact Hn].
  intros k1 k2. apply Hs. lia.
Defined.

(** X10: the reader changes [mbdx] at the keys of the records it reads and
    nowhere else: what [mbdx] held on entry under another key is still
    there; and when [mbdx] is empty on entry, its keys after the parse are
    the keys of [mbdb]. *)
Theorem reader_fills_mbdx_at_record_keys (data : bytes) (mbdx0 : gmap N str)
    (p : parsed) :
  process_mbdb_data data mbdx0 = Done (Ok p) ->
  (forall k, k ∉ (mbdb p).*1 -> mbdx p !! k = mbdx0 !! k)
  /\ (mbdx0 = ∅ -> forall k, is_Some (mbdx p !! k) <-> k ∈ (mbdb p).*1).
Proof.
  intros Hp. pose proof (process_mbdb_data_invariant _ _ _ Hp) as [_ Hx].
  split; [exact Hx|]. intros -> k. split.
  - intros Hk. destruct (decide (k ∈ (mbdb p).*1)) as [|Hn]; [done|].
    rewrite (Hx k Hn), lookup_empty in Hk. by destruct Hk.
  - intros Hk. apply list_elem_of_fmap in Hk as ([k' f] & -> & Hin).
    apply process_mbdb_data_linked in Hp.
    destruct (Hp k' f Hin) as (_ & id & _ & Hid). simpl. eauto.
Qed.

Lemma reader_fills_mbdx_at_record_keys_witness :
  exists p,
    process_mbdb_data notes_manifest {[ 1000 := lit "kept" ]} = Done (Ok p)
    /\ mbdx p !! 1000 = Some (lit "kept").
Proof.
  assert (Hp : exists p,
            process_mbdb_data notes_manifest {[ 1000 := lit "kept" ]} = Done (Ok p)
            /\ (mbdb p).*1 = [6])
    by (vm_compute; eexists; split; reflexivity).
  destruct Hp as (p & Hp & Hk). exists p. split; [exact Hp|].
  destruct (reader_fills_mbdx_at_record_keys notes_manifest _ p Hp) as [H _].
  rewrite H.
  - reflexivity.
  - rewrite Hk. intros Hin. apply list_elem_of_singleton in Hin. discriminate.
Defined.

(** ** [modestr] *)

Lemma land_pow2_eqb (x k : N) : (N.land x (2 ^ k) =? 0) = negb (N.testbit x k).
Proof.
  destruct (N.testbit x k) eqn:E; simpl.
  - apply N.eqb_neq. intros H.
    apply (f_equal (fun y => N.testbit y k)) in H.
    rewrite N.land_spec, E, N.pow2_bits_true, N.bits_0 in H. discriminate.
  - apply N.eqb_eq. apply N.bits_inj_0. intros m.
    rewrite N.land_spec, N.pow2_bits_eqb.
    destruct (k =? m) eqn:Ek; [|apply andb_false_r].
    apply N.eqb_eq in Ek as <-. by rewrite E.
Qed.

Lemma mode_rwx_bits (val : N) :
  mode_rwx val
  = [if N.testbit val 2 then 114 else 45;
     if N.testbit val 1 then 119 else 45;
     if N.testbit val 0 then 120 else 45].
Proof.
  unfold mode_rwx.
  change (N.land val 0x4) with (N.land val (2 ^ 2)).
  change (N.land val 0x2) with (N.land val (2 ^ 1)).
  change (N.land val 0x1) with (N.land val (2 ^ 0)).
  rewrite !land_pow2_eqb.
  by destruct (N.testbit val 2), (N.testbit val 1), (N.testbit val 0).
Qed.

Lemma modestr_bits (val : N) : modestr val = map (mode_char val) mode_letters.
Proof.
  unfold modestr. rewrite !mode_rwx_bits, !N.shiftr_spec'. reflexivity.
Qed.

(** X11: [modestr] yields nine characters, one for each of the bits 8 down
    to 0 of its argument: the letter of [rwxrwxrwx] at that place when the
    bit is set, a dash when it is not. *)
Theorem modestr_shows_nine_bits (val : N) :
  length (modestr val) = 9%nat
  /\ forall i, (i < 9)%nat ->
       modestr val !! i
       = Some (if N.testbit val (N.of_nat (8 - i))
               then nth i (lit "rwxrwxrwx") 0 else nth 0 (lit "-") 0).
Proof.
  rewrite modestr_bits. split; [reflexivity|].
  intros i Hi. do 9 (destruct i as [|i]; [reflexivity|]). lia.
Qed.

Lemma modestr_shows_nine_bits_witness :
  modestr 0x1A4 !! 0%nat = Some 114 /\ modestr 0x1A4 !! 8%nat = Some 45.
Proof.
  destruct (modestr_shows_nine_bits 0x1A4) as [_ H].
  split; [apply (H 0%nat) | apply (H 8%nat)]; lia.
Defined.

(** X12: [modestr] looks at the nine low bits only: two numbers that agree
    on them have the same string; so the mask [0x0FFF] its caller applies
    changes nothing, and neither would reducing modulo 512. *)
Theorem modestr_reads_the_low_nine_bits (a : N) :
  (forall b, (forall k, k < 9 -> N.testbit a k = N.testbit b k) -> modestr a = modestr b)
  /\ modestr (N.land a 0x0FFF) = modestr a
  /\ modestr (a mod 512) = modestr a.
Proof.
  assert (H : forall b, (forall k, k < 9 -> N.testbit a k = N.testbit b k) ->
            modestr a = modestr b).
  { intros b Hb. rewrite !modestr_bits. unfold mode_letters, mode_char. simpl.
    rewrite !Hb by lia. reflexivity. }
  split; [exact H|]. split; symmetry; apply H; intros k Hk.
  - rewrite N.land_spec.
    assert (Hm : N.testbit 0x0FFF k = true).
    { assert (Hall : forallb (fun k => N.testbit 0x0FFF k) (map N.of_nat (seq 0 9)) = true)
        by reflexivity.
      rewrite forallb_forall in Hall. apply Hall. apply in_map_iff.
      exists (N.to_nat k). split; [lia|]. apply in_seq. lia. }
    by rewrite Hm, andb_true_r.
  - change 512 with (2 ^ 9). by rewrite N.mod_pow2_bits_low.
Qed.

Lemma modestr_reads_the_low_nine_bits_witness :
  modestr 0x81A4 = modestr 0x1A4.
Proof.
  destruct (modestr_reads_the_low_nine_bits 0x81A4) as [H _].
  apply H. intros k Hk.
  assert (Hall : forallb (fun k => Bool.eqb (N.testbit 0x81A4 k) (N.testbit 0x1A4 k))
                   (map N.of_nat (seq 0 9)) = true) by reflexivity.
  rewrite forallb_forall in Hall. apply Bool.eqb_prop. apply Hall. apply in_map_iff.
  exists (N.to_nat k). split; [lia|]. apply in_seq. lia.
Defined.

(** ** Whole runs: what is done, and to what *)

(** The ways a turn can go for a record that is tried. *)
Lemma turn_try_outcome (E : env) (bp df : str) (mbdx : gmap N str) (st st' : mstate)
    (off : N) (f : fileinfo) (r : option exn) (id : str) :
  turn E bp df mbdx st off f (st', r) ->
  mbdx !! off = Some id ->
  extension E (PyBytes (filename f)) ∈ media_extensions ->
  let d := local_date E (ctime f) in
  let n := default 0 (seen_dates st !! d) + 1 in
  let src := path_join bp id in
  let dest := path_join df (dest_name d n (extension E (PyBytes (filename f)))) in
  seen_dates st' = <[d := n]> (seen_dates st)
  /\ ((shutil_copy E src dest = Ok tt /\ r = None
       /\ events st' = events st ++ [Copied src dest]
       /\ media_recovered st' = media_recovered st + 1)
      \/ (exists name, shutil_copy E src dest = Raise FileNotFoundError
            /\ decode_strict (filename f) = Ok name /\ r = None
            /\ events st' = events st ++ [could_not_locate id name]
            /\ media_recovered st' = media_recovered st)
      \/ (exists e, r = Some e /\ events st' = events st
            /\ media_recovered st' = media_recovered st
            /\ ((shutil_copy E src dest = Raise e /\ e <> FileNotFoundError)
                \/ (shutil_copy E src dest = Raise FileNotFoundError
                    /\ decode_strict (filename f) = Raise e)))).
Proof.
  intros Ht Hid Hext d n src dest.
  inversion Ht as [Hn | id' Hid' Hext' | id' r0 Hid' Hext' d0 st1 src0 dest0 Hr];
    [congruence | done |]; subst.
  assert (id' = id) as -> by congruence.
  subst d0 src0 dest0. fold d n src dest in Hr.
  destruct (shutil_copy E src dest) as [[]|e].
  { injection Hr as -> ->. split; [done|]. left. done. }
  destruct e;
    try (injection Hr as -> ->; split; [done|]; right; right; eexists;
         split_and!; [done..|]; left; done).
  destruct (decode_strict (filename f)) as [name|e'].
  - injection Hr as -> ->. split; [done|]. right; left. by exists name.
  - injection Hr as -> ->. split; [done|]. right; right. exists e'.
    split_and!; [done..|]. right. done.
Qed.

(** The ways a turn can go for a record that is not tried. *)
Lemma turn_pass_outcome (E : env) (bp df : str) (mbdx : gmap N str) (st st' : mstate)
    (off : N) (f : fileinfo) (r : option exn) :
  turn E bp df mbdx st off f (st', r) ->
  attempted E mbdx (off, f) = false ->
  r = None /\ seen_dates st' = seen_dates st /\ media_recovered st' = media_recovered st
  /\ (events st' = events st \/ events st' = events st ++ [StderrNoFileID f]).
Proof.
  intros Ht Ha.
  inversion Ht as [Hn | id' Hid' Hext' | id' r0 Hid' Hext' d0 st1 src0 dest0 Hr]; subst.
  - split_and!; [done..|]. by right.
  - split_and!; [done..|]. by left.
  - assert (attempted E mbdx (off, f) = true) by (apply attempted_true; eauto).
    congruence.
Qed.

(** A property of the state that every turn keeps holds when the loop is
    left, however it is left. *)
Lemma main_loop_invariant (I : mstate -> Prop) (E : env) (bp df : str)
    (mbdx : gmap N str) (items : dict N fileinfo) (st st' : mstate) (r : option exn) :
  (forall s off f s' r', (off, f) ∈ items -> I s ->
     turn E bp df mbdx s off f (s', r') -> I s') ->
  I st -> main_loop E bp df mbdx items st = (st', r) -> I st'.
Proof.
  revert st. induction items as [|[off f] items IH]; intros st Hstep Hst; simpl.
  - by intros [= <- <-].
  - pose proof (main_body_turn E bp df mbdx st off f) as Ht.
    destruct (main_body E bp df mbdx st off f) as [st1 [e|]].
    + intros [= <- <-]. eapply Hstep; [apply list_elem_of_here | done..].
    + apply IH.
      * intros s o g s' r' Hin. apply Hstep. by apply list_elem_of_further.
      * eapply Hstep; [apply list_elem_of_here | done..].
Qed.

Lemma attempted_cases (E : env) (mbdx : gmap N str) (off : N) (f : fileinfo) :
  (exists id, mbdx !! off = Some id
              /\ extension E (PyBytes (filename f)) ∈ media_extensions)
  \/ attempted E mbdx (off, f) = false.
Proof.
  destruct (attempted E mbdx (off, f)) eqn:Ha; [left | by right].
  apply attempted_true in Ha as [[id Hid] Hext]. eauto.
Qed.

Lemma initial_state_no_copy (E : env) (bp : str) (src dst : str) :
  Copied src dst ∉ events (initial_state E bp).
Proof.
  unfold initial_state. simpl. destruct (path_exists E _).
  - apply not_elem_of_nil.
  - rewrite list_elem_of_singleton. discriminate.
Qed.

(** X14: whatever a run copies, it copies for a record of the manifest
    that has an identifier and a media extension: the source is the file
    named by the identifier in the backup directory, the destination is a
    file of the destination folder named by the local date of the record's
    [ctime], a positive number and the extension, and the copy succeeded.
    This holds for the runs that end with an exception as well. *)
Theorem every_copy_is_of_a_media_record (E : env) (backup_path : str)
    (p : parsed) (evs : list event) (r : result N) :
  process_mbdb_file E (manifest_path backup_path) ∅ = Done (Ok p) ->
  main E backup_path = Done (evs, r) ->
  forall src dst, Copied src dst ∈ evs ->
    exists off f id n,
      (off, f) ∈ mbdb p
      /\ mbdx p !! off = Some id
      /\ extension E (PyBytes (filename f)) ∈ media_extensions
      /\ src = path_join backup_path id
      /\ 1 <= n
      /\ dst = path_join (dest_folder_of backup_path)
                 (dest_name (local_date E (ctime f)) n
                    (extension E (PyBytes (filename f))))
      /\ shutil_copy E src dst = Ok tt.
Proof.
  intros Hp Hm src dst Hin.
  destruct (create_folder_cases E backup_path) as [Hf | (e & _ & _ & Hc)];
    [|rewrite (main_stuck _ _ _ _ Hp Hc) in Hm; injection Hm as <- _;
      by apply elem_of_nil in Hin].
  rewrite (main_parsed _ _ _ Hp Hf) in Hm.
  destruct (main_loop _ _ _ _ _ _) as [st r'] eqn:Hloop.
  assert (Hst : Copied src dst ∈ events st).
  { destruct r' as [e|]; injection Hm as <- _; [done|].
    apply elem_of_app in Hin as [? | Hin]; [done|].
    by apply list_elem_of_singleton in Hin. }
  clear Hm Hin. revert Hloop src dst Hst.
  apply (main_loop_invariant (fun s => forall src dst, Copied src dst ∈ events s ->
           exists off f id n,
             (off, f) ∈ mbdb p
             /\ mbdx p !! off = Some id
             /\ extension E (PyBytes (filename f)) ∈ media_extensions
             /\ src = path_join backup_path id
             /\ 1 <= n
             /\ dst = path_join (dest_folder_of backup_path)
                        (dest_name (local_date E (ctime f)) n
                           (extension E (PyBytes (filename f))))
             /\ shutil_copy E src dst = Ok tt)).
  - intros s off f s' r1 Hitem IH Ht src dst.
    destruct (attempted_cases E (mbdx p) off f) as [(id & Hid & Hext) | Ha].
    + destruct (turn_try_outcome _ _ _ _ _ _ _ _ _ _ Ht Hid Hext)
        as (_ & [(Hc & _ & Hev & _) | [(name & _ & _ & _ & Hev & _) | (e & _ & Hev & _)]]);
        rewrite Hev; [| |by apply IH].
      * rewrite elem_of_app, list_elem_of_singleton. intros [? | [= -> ->]]; [by apply IH|].
        exists off, f, id, (default 0 (seen_dates s !! local_date E (ctime f)) + 1).
        split_and!; [done.. | lia | done | done].
      * rewrite elem_of_app, list_elem_of_singleton. intros [? | ?]; [by apply IH | done].
    + destruct (turn_pass_outcome _ _ _ _ _ _ _ _ _ Ht Ha) as (_ & _ & _ & [Hev | Hev]);
        rewrite Hev; [by apply IH|].
      rewrite elem_of_app, list_elem_of_singleton. intros [? | ?]; [by apply IH | done].
  - intros src dst Hin. by apply initial_state_no_copy in Hin.
Qed.

Lemma every_copy_is_of_a_media_record_witness :
  exists off f id n,
    (off, f) ∈ mbdb_of (process_mbdb_data gap_manifest ∅)
    /\ mbdx_of (process_mbdb_data gap_manifest ∅) !! off = Some id
    /\ second_blob = path_join (lit "backup") id
    /\ 1 <= n
    /\ lit "recovered_media/backup/2023_05_01_2.jpg"
       = path_join (dest_folder_of (lit "backup"))
           (dest_name (utc_date (ctime f)) n
              (extension (sample_env gap_manifest [second_blob]) (PyBytes (filename f)))).
Proof.
  pose (E := sample_env gap_manifest [second_blob]).
  assert (Hp : exists p,
            process_mbdb_file E (manifest_path (lit "backup")) ∅ = Done (Ok p)
            /\ process_mbdb_data gap_manifest ∅ = Done (Ok p))
    by (vm_compute; eexists; split; reflexivity).
  destruct Hp as (p & Hp & Hd).
  assert (Hm : exists evs r,
            main E (lit "backup") = Done (evs, r)
            /\ Copied second_blob (lit "recovered_media/backup/2023_05_01_2.jpg") ∈ evs).
  { vm_compute. eexists _, _. split; [reflexivity|].
    apply list_elem_of_further, list_elem_of_further, list_elem_of_here. }
  destruct Hm as (evs & r & Hm & Hin).
  destruct (every_copy_is_of_a_media_record E (lit "backup") p evs r Hp Hm _ _ Hin)
    as (off & f & id & n & H1 & H2 & _ & H4 & H5 & H6 & _).
  exists off, f, id, n. rewrite Hd. simpl.
  split; [exact H1|]. split; [exact H2|]. split; [exact H4|]. split; [exact H5 | exact H6].
Defined.

(** ** Names of destinations *)

Lemma lit_String (a : ascii) (s : string) :
  lit (String a s) = b2n (byte_of_ascii a) :: lit s.
Proof. reflexivity. Qed.

Lemma b2n_inj (a b : byte) : b2n a = b2n b -> a = b.
Proof. intros H. by rewrite <- (n2b_b2n a), <- (n2b_b2n b), H. Qed.

Lemma lit_inj (s t : string) : lit s = lit t -> s = t.
Proof.
  unfold lit. intros H.
  assert (Hb : list_byte_of_string s = list_byte_of_string t).
  { revert H. generalize (list_byte_of_string s) (list_byte_of_string t).
    induction l as [|a l IH]; intros [|b k]; simpl; try done.
    intros [= Hab Hlk]. f_equal; [by apply b2n_inj | by apply IH]. }
  by rewrite <- (string_of_list_byte_of_string s), <- (string_of_list_byte_of_string t), Hb.
Qed.

Lemma to_uint_not_Nil (n : N) : N.to_uint n <> Decimal.Nil.
Proof.
  intros H. pose proof (Unsigned.of_to n) as Hn. rewrite H in Hn.
  subst n. discriminate.
Qed.

Lemma str_of_N_inj (n m : N) : str_of_N n = str_of_N m -> n = m.
Proof.
  unfold str_of_N. intros H. apply lit_inj in H.
  apply (f_equal NilZero.uint_of_string) in H.
  rewrite !NilZero.usu in H by apply to_uint_not_Nil.
  injection H as H. by apply Unsigned.to_uint_inj.
Qed.

Lemma string_of_uint_digits (d : Decimal.uint) :
  Forall is_digit (lit (NilEmpty.string_of_uint d)).
Proof.
  induction d; cbn [NilEmpty.string_of_uint]; [constructor|..];
    rewrite lit_String; constructor; try done; by vm_compute.
Qed.

Lemma str_of_N_digits (n : N) : Forall is_digit (str_of_N n).
Proof.
  unfold str_of_N, NilZero.string_of_uint.
  destruct (N.to_uint n); try apply string_of_uint_digits.
  repeat constructor; by vm_compute.
Qed.

Lemma digits_notin (c : N) (s : str) : ~ is_digit c -> Forall is_digit s -> c ∉ s.
Proof.
  intros Hc Hs Hin. rewrite Forall_forall in Hs. by apply Hc, Hs.
Qed.

(** A list splits at the last occurrence of an element in one way only. *)
Lemma split_at_last {A} (c : A) (l1 l2 r1 r2 : list A) :
  l1 ++ c :: r1 = l2 ++ c :: r2 -> c ∉ r1 -> c ∉ r2 -> l1 = l2 /\ r1 = r2.
Proof.
  revert l2. induction l1 as [|x l1 IH]; intros [|y l2]; simpl; intros H H1 H2.
  - by injection H.
  - injection H as _ H. destruct H1. rewrite H. apply elem_of_app. right.
    apply list_elem_of_here.
  - injection H as _ H. destruct H2. rewrite <- H. apply elem_of_app. right.
    apply list_elem_of_here.
  - injection H as -> H. destruct (IH _ H H1 H2) as [-> ->]. done.
Qed.

Lemma last_occurrence {A} `{EqDecision A} (c : A) (s : list A) :
  c ∈ s -> exists pre post, s = pre ++ c :: post /\ c ∉ post.
Proof.
  induction s as [|x s IH]; intros Hin; [by apply elem_of_nil in Hin|].
  destruct (decide (c ∈ s)) as [Hs | Hs].
  - destruct (IH Hs) as (pre & post & -> & Hp). by exists (x :: pre), post.
  - apply elem_of_cons in Hin as [-> | ?]; [|done]. by exists [], s.
Qed.

Lemma media_extensions_chars (e : str) :
  e ∈ media_extensions -> exists t, e = 46 :: t /\ (46 ∉ t) /\ (95 ∉ t).
Proof.
  intros He.
  assert (Hall : Forall (fun e => exists t, e = 46 :: t /\ (46 ∉ t) /\ (95 ∉ t)) media_extensions).
  { repeat constructor; eexists; (split; [reflexivity|]);
      split; intros Hin; repeat (apply elem_of_cons in Hin as [Hin | Hin]; [discriminate|]);
      by apply elem_of_nil in Hin. }
  rewrite Forall_forall in Hall. by apply Hall.
Qed.

Lemma dest_name_inj (d d' : str) (n n' : N) (e e' : str) :
  e ∈ media_extensions -> e' ∈ media_extensions ->
  dest_name d n e = dest_name d' n' e' -> d = d' /\ n = n' /\ e = e'.
Proof.
  intros He He' H.
  apply media_extensions_chars in He as (t & -> & Ht & _).
  apply media_extensions_chars in He' as (t' & -> & Ht' & _).
  unfold dest_name in H. change (lit "_") with [95] in H.
  rewrite !app_assoc in H.
  apply split_at_last in H as [H <-]; [|done..].
  rewrite <- !app_assoc in H. simpl in H.
  assert (Hu : forall k, 95 ∉ str_of_N k).
  { intros k. apply digits_notin; [|apply str_of_N_digits]. unfold is_digit. lia. }
  apply split_at_last in H as [<- H]; [|apply Hu..].
  apply str_of_N_inj in H as <-. done.
Qed.

(** [os.path.join(a, b)], by cases on how [b] starts. *)
Lemma path_join_cases (a b : str) :
  (head b = Some 47 /\ path_join a b = b)
  \/ (head b <> Some 47
      /\ path_join a b = match last a with
                         | None => b
                         | Some c => if decide (c = 47) then a ++ b else a ++ lit "/" ++ b
                         end).
Proof.
  destruct b as [|c b].
  - right. split; [done|]. simpl. destruct (last a) as [x|]; [|done].
    destruct (decide (x = 47)) as [-> | Hx]; [done|].
    destruct x as [|q]; [done|]. do 7 (try destruct q as [q|q|]); try done.
  - destruct (decide (c = 47)) as [-> | Hc]; [by left|]. right.
    split; [simpl; congruence|].
    assert (Hj : path_join a (c :: b)
                 = match last a with
                   | None => c :: b
                   | Some 47 => a ++ c :: b
                   | Some _ => a ++ lit "/" ++ c :: b
                   end).
    { destruct c as [|q]; [done|]. do 7 (try destruct q as [q|q|]); try done. }
    rewrite Hj. destruct (last a) as [x|]; [|done].
    destruct (decide (x = 47)) as [-> | Hx]; [done|].
    destruct x as [|q]; [done|]. do 7 (try destruct q as [q|q|]); try done.
Qed.

Lemma path_join_inj (a x y : str) :
  head a <> Some 47 -> path_join a x = path_join a y -> x = y.
Proof.
  intros Ha.
  assert (Hrel : forall u v, head u = Some 47 -> head v <> Some 47 ->
            path_join a u <> path_join a v).
  { intros u v Hu Hv H.
    destruct (path_join_cases a u) as [[_ Eu] | [? _]]; [|done].
    destruct (path_join_cases a v) as [[? _] | [_ Ev]]; [done|].
    rewrite Eu, Ev in H. destruct a as [|c a]; [simpl in H; congruence|].
    destruct (last (c :: a)) as [z|]; [|congruence].
    simpl in Ha. destruct (decide (z = 47)); rewrite H in Hu; simpl in Hu; congruence. }
  intros H.
  destruct (path_join_cases a x) as [[Hx Ex] | [Hx Ex]],
           (path_join_cases a y) as [[Hy Ey] | [Hy Ey]].
  - congruence.
  - by destruct (Hrel x y).
  - by destruct (Hrel y x).
  - rewrite Ex, Ey in H. destruct (last a) as [z|]; [|done].
    destruct (decide (z = 47)).
    + by apply app_inv_head in H.
    + by apply app_inv_head, app_inv_head in H.
Qed.

Lemma basename_head (p : str) : head (basename p) <> Some 47.
Proof.
  unfold basename. destruct (decide (47 ∈ p)) as [Hin | Hin].
  - apply last_occurrence in Hin as (pre & post & -> & Hp).
    rewrite rfind_last by done.
    replace (pre ++ 47 :: post) with ((pre ++ [47]) ++ post) by by rewrite <- app_assoc.
    replace (Z.of_nat (length pre) + 1)%Z with (Z.of_nat (length (pre ++ [47])))
      by (rewrite length_app; simpl; lia).
    rewrite slice_from_app. destruct post as [|c post]; [done|]. simpl.
    intros [= ->]. apply Hp, list_elem_of_here.
  - rewrite rfind_notin by done. change (-1 + 1)%Z with 0%Z.
    assert (Hs : slice_from p 0 = p).
    { unfold slice_from. change (0 <? 0)%Z with false. cbv iota zeta.
      assert (Z.to_nat (Z.min 0 (Z.of_nat (length p))) = 0%nat) as -> by lia. done. }
    rewrite Hs. destruct p as [|c p]; [done|]. simpl.
    intros [= ->]. apply Hin, list_elem_of_here.
Qed.

Lemma dest_folder_head (bp : str) : head (dest_folder_of bp) <> Some 47.
Proof.
  unfold dest_folder_of.
  destruct (path_join_cases (lit "recovered_media") (basename bp)) as [[H _] | [_ ->]].
  - by apply basename_head in H.
  - done.
Qed.

(** Two destinations of a run are the same file only when date, number and
    extension are the same. *)
Lemma destination_inj (bp d d' : str) (n n' : N) (e e' : str) :
  e ∈ media_extensions -> e' ∈ media_extensions ->
  path_join (dest_folder_of bp) (dest_name d n e)
  = path_join (dest_folder_of bp) (dest_name d' n' e') ->
  d = d' /\ n = n' /\ e = e'.
Proof.
  intros He He' H. apply path_join_inj in H; [|apply dest_folder_head].
  by apply dest_name_inj.
Qed.

(** ** Whole runs: destinations *)

Lemma destinations_snoc (evs : list event) (ev : event) :
  destinations (evs ++ [ev])
  = destinations evs ++ match ev with Copied _ dst => [dst] | _ => [] end.
Proof. unfold destinations. rewrite omap_app. by destruct ev. Qed.

Lemma seen_after_count (seen : gmap str N) (d d' : str) :
  default 0 (seen !! d')
  <= default 0 (<[d := default 0 (seen !! d) + 1]> seen !! d').
Proof.
  destruct (decide (d = d')) as [-> | Hne].
  - rewrite lookup_insert_eq. simpl. lia.
  - by rewrite lookup_insert_ne.
Qed.

Lemma turn_destinations (E : env) (bp : str) (mbdx : gmap N str) (st st' : mstate)
    (off : N) (f : fileinfo) (r : option exn) :
  destinations_invariant (dest_folder_of bp) st ->
  turn E bp (dest_folder_of bp) mbdx st off f (st', r) ->
  destinations_invariant (dest_folder_of bp) st'.
Proof.
  intros [Hnd Hall] Ht.
  destruct (attempted_cases E mbdx off f) as [(id & Hid & Hext) | Ha].
  - destruct (turn_try_outcome _ _ _ _ _ _ _ _ _ _ Ht Hid Hext) as (Hseen & Hcase).
    assert (Hold : forall dst, dst ∈ destinations (events st) ->
              exists d n e,
                dst = path_join (dest_folder_of bp) (dest_name d n e)
                /\ e ∈ media_extensions
                /\ n <= default 0 (seen_dates st' !! d)).
    { intros dst Hin. destruct (Hall dst Hin) as (d & n & e & -> & He & Hn).
      exists d, n, e. split_and!; [done..|]. rewrite Hseen.
      etrans; [exact Hn | apply seen_after_count]. }
    destruct Hcase as [(_ & _ & Hev & _) | [(name & _ & _ & _ & Hev & _) | (e & _ & Hev & _)]];
      unfold destinations_invariant; rewrite Hev, ?destinations_snoc, ?app_nil_r;
      [| by split..].
    split.
    + apply NoDup_app. split_and!; [done | | apply NoDup_singleton].
      intros dst Hin Heq. apply list_elem_of_singleton in Heq as ->.
      destruct (Hall _ Hin) as (d & n & e & Hd & He & Hn).
      apply destination_inj in Hd as (<- & <- & _); [lia | done..].
    + intros dst Hin. apply elem_of_app in Hin as [Hin | Hin]; [by apply Hold|].
      apply list_elem_of_singleton in Hin as ->.
      eexists _, _, _. split_and!; [done..|].
      rewrite Hseen, lookup_insert_eq. done.
  - destruct (turn_pass_outcome _ _ _ _ _ _ _ _ _ Ht Ha) as (_ & Hseen & _ & [Hev | Hev]);
      unfold destinations_invariant; rewrite Hev, ?destinations_snoc, ?app_nil_r, Hseen;
      by split.
Qed.

(** X15: no run copies two files to the same destination: the
    destinations of the copies of a run are pairwise different, so no
    recovered file is overwritten by a later one of the same run. *)
Theorem destinations_are_distinct (E : env) (backup_path : str)
    (evs : list event) (r : result N) :
  main E backup_path = Done (evs, r) -> NoDup (destinations evs).
Proof.
  intros Hm.
  destruct (process_mbdb_file_total E (manifest_path backup_path) ∅) as [[p|e] Hp].
  - destruct (create_folder_cases E backup_path) as [Hf | (e & _ & _ & Hc)];
      [|rewrite (main_stuck _ _ _ _ Hp Hc) in Hm; injection Hm as <- _;
        apply NoDup_nil_2].
    rewrite (main_parsed _ _ _ Hp Hf) in Hm.
    destruct (main_loop _ _ _ _ _ _) as [st r'] eqn:Hloop.
    assert (Hinv : destinations_invariant (dest_folder_of backup_path) st).
    { revert Hloop. apply main_loop_invariant.
      - intros s off f s' r1 _. apply turn_destinations.
      - unfold destinations_invariant, initial_state. simpl.
        destruct (path_exists E _); simpl; (split; [apply NoDup_nil_2|]);
          intros dst Hin; by apply elem_of_nil in Hin. }
    destruct Hinv as [Hnd _].
    destruct r' as [e|]; injection Hm as <- _; [done|].
    by rewrite destinations_snoc, app_nil_r.
  - unfold main in Hm. fold (manifest_path backup_path) in Hm. rewrite Hp in Hm.
    injection Hm as <- _. apply NoDup_nil_2.
Qed.

Lemma destinations_are_distinct_witness :
  exists evs r,
    main (sample_env gap_manifest
            [path_join (lit "backup")
               (sha1_hexdigest (blit "CameraRollDomain-Media/DCIM/100APPLE/IMG_0001.JPG"));
             second_blob])
      (lit "backup") = Done (evs, r)
    /\ length (destinations evs) = 2%nat
    /\ NoDup (destinations evs).
Proof.
  assert (Hm : exists evs r,
            main (sample_env gap_manifest
                    [path_join (lit "backup")
                       (sha1_hexdigest
                          (blit "CameraRollDomain-Media/DCIM/100APPLE/IMG_0001.JPG"));
                     second_blob])
              (lit "backup") = Done (evs, r)
            /\ length (destinations evs) = 2%nat)
    by (vm_compute; eexists _, _; split; reflexivity).
  destruct Hm as (evs & r & Hm & Hl). exists evs, r.
  split; [exact Hm|]. split; [exact Hl|].
  exact (destinations_are_distinct _ _ _ _ Hm).
Defined.

(** ** Whole runs: how they end *)

Lemma seen_initial (E : env) (bp : str) (mbdx : gmap N str) (items : dict N fileinfo)
    (st : mstate) (d : str) :
  main_loop E bp (dest_folder_of bp) mbdx items (initial_state E bp) = (st, None) ->
  default 0 (seen_dates st !! d) = attempts E mbdx d items.
Proof.
  intros H. rewrite (main_loop_seen _ _ _ _ _ _ _ d H).
  unfold initial_state. simpl. rewrite lookup_empty. simpl. lia.
Qed.

(** X16: the loop catches one failure of a copy only, the missing source,
    and prints its line with the name decoded strictly.  So when the loop
    has come to a media record and the copy of that record fails in
    another way, or fails for want of the source while the name is not
    well-formed UTF-8, the run ends there with that exception: what was
    done before stands, no record after it is looked at, and no count is
    printed.  (The loop is come to when the destination folder is there or
    could be made; a run in which [os.makedirs] raises ends with that
    exception before the loop.) *)
Theorem uncaught_failure_ends_the_run (E : env) (backup_path : str) (p : parsed)
    (before after : dict N fileinfo) (off : N) (f : fileinfo) (id : str)
    (st1 : mstate) (e : exn) :
  process_mbdb_file E (manifest_path backup_path) ∅ = Done (Ok p) ->
  mbdb p = before ++ (off, f) :: after ->
  main_loop E backup_path (dest_folder_of backup_path) (mbdx p) before
    (initial_state E backup_path) = (st1, None) ->
  mbdx p !! off = Some id ->
  extension E (PyBytes (filename f)) ∈ media_extensions ->
  let d := local_date E (ctime f) in
  let src := path_join backup_path id in
  let dest := path_join (dest_folder_of backup_path)
                (dest_name d (attempts E (mbdx p) d before + 1)
                   (extension E (PyBytes (filename f)))) in
  (shutil_copy E src dest = Raise e /\ e <> FileNotFoundError)
  \/ (shutil_copy E src dest = Raise FileNotFoundError
      /\ decode_strict (filename f) = Raise e) ->
  match create_folder_in_not_exists E (dest_folder_of backup_path) with
  | Ok _ => main E backup_path = Done (events st1, Raise e)
  | Raise e' => main E backup_path = Done ([], Raise e')
  end.
Proof.
  intros Hp Hsplit Hbefore Hid Hext d src dest Hfail.
  destruct (create_folder_cases E backup_path) as [Hf | (e0 & _ & _ & Hc)];
    [|by rewrite Hc; apply (main_stuck _ _ p)].
  rewrite (create_folder_ready _ _ Hf).
  rewrite (main_parsed _ _ _ Hp Hf), Hsplit, main_loop_app, Hbefore.
  cbn [main_loop].
  pose proof (main_body_turn E backup_path (dest_folder_of backup_path) (mbdx p)
                st1 off f) as Ht.
  destruct (main_body _ _ _ _ st1 off f) as [st2 r2].
  destruct (turn_try_outcome _ _ _ _ _ _ _ _ _ _ Ht Hid Hext) as (_ & Hcase).
  rewrite (seen_initial _ _ _ _ _ _ Hbefore) in Hcase. fold d src dest in Hcase.
  destruct Hcase as [(Hc & _) | [(name & Hc & Hn & _) | (e' & -> & Hev & _ & Hc)]].
  - destruct Hfail as [[? _] | [? _]]; congruence.
  - destruct Hfail as [[? ?] | [_ ?]]; congruence.
  - rewrite Hev.
    assert (e' = e) as ->; [|done].
    destruct Hfail as [[? ?] | [? ?]], Hc as [[? ?] | [? ?]]; congruence.
Qed.

Lemma main_loop_nil (E : env) (bp df : str) (mbdx : gmap N str) (st : mstate) :
  main_loop E bp df mbdx [] st = (st, None).
Proof. reflexivity. Qed.

Lemma sample_env_nothing_present (manifest : bytes) (src dst : str) :
  shutil_copy (sample_env manifest []) src dst = Raise FileNotFoundError.
Proof. reflexivity. Qed.

Lemma uncaught_failure_ends_the_run_witness :
  exists evs,
    main (sample_env undecodable_manifest []) (lit "backup")
    = Done (evs, Raise UnicodeDecodeError).
Proof.
  assert (Hp : exists p f id,
            process_mbdb_file (sample_env undecodable_manifest [])
              (manifest_path (lit "backup")) ∅ = Done (Ok p)
            /\ mbdb p = [] ++ (6, f) :: []
            /\ mbdx p !! 6 = Some id
            /\ filename f = [xff] ++ blit ".jpg").
  { vm_compute. eexists _, _, _. split_and!; reflexivity. }
  destruct Hp as (p & f & id & Hp & Hsplit & Hid & Hfn).
  assert (Hext : extension (sample_env undecodable_manifest [])
                   (PyBytes ([xff] ++ blit ".jpg")) ∈ media_extensions)
    by (vm_compute; apply list_elem_of_here).
  assert (Hname : decode_strict ([xff] ++ blit ".jpg") = Raise UnicodeDecodeError)
    by (vm_compute; reflexivity).
  rewrite <- Hfn in Hext, Hname.
  eexists.
  assert (Hfail : shutil_copy (sample_env undecodable_manifest [])
                    (path_join (lit "backup") id)
                    (path_join (dest_folder_of (lit "backup"))
                       (dest_name
                          (local_date (sample_env undecodable_manifest []) (ctime f))
                          (attempts (sample_env undecodable_manifest []) (mbdx p)
                             (local_date (sample_env undecodable_manifest []) (ctime f))
                             [] + 1)
                          (extension (sample_env undecodable_manifest [])
                             (PyBytes (filename f)))))
                  = Raise FileNotFoundError
                  /\ decode_strict (filename f) = Raise UnicodeDecodeError).
  { split; [apply sample_env_nothing_present | exact Hname]. }
  exact (uncaught_failure_ends_the_run (sample_env undecodable_manifest [])
           (lit "backup") p [] [] 6 f id _ UnicodeDecodeError Hp Hsplit
           (main_loop_nil _ _ _ _ _) Hid Hext (or_intror Hfail)).
Defined.

Lemma reports_app (l1 l2 : list event) : reports (l1 ++ l2) = reports l1 + reports l2.
Proof. unfold reports. by rewrite List.filter_app, len_app. Qed.

Lemma tried_cons (E : env) (mbdx : gmap N str) (it : N * fileinfo)
    (items : dict N fileinfo) :
  len (tried E mbdx (it :: items))
  = (if attempted E mbdx it then 1 else 0) + len (tried E mbdx items).
Proof.
  unfold tried. rewrite filter_cons.
  destruct (decide (attempted E mbdx it = true)) as [-> | Hn]; [apply len_cons|].
  destruct (attempted E mbdx it); [done | lia].
Qed.

Lemma main_loop_accounts (E : env) (bp df : str) (mbdx : gmap N str)
    (items : dict N fileinfo) (st st' : mstate) :
  main_loop E bp df mbdx items st = (st', None) ->
  media_recovered st' + reports (events st')
  = media_recovered st + reports (events st) + len (tried E mbdx items).
Proof.
  revert st. induction items as [|[off f] items IH]; intros st; simpl.
  - intros [= <-]. change (len (tried E mbdx [])) with 0. lia.
  - pose proof (main_body_turn E bp df mbdx st off f) as Ht.
    destruct (main_body E bp df mbdx st off f) as [st1 [e|]]; [discriminate|].
    intros H. apply IH in H. rewrite H, tried_cons. clear H IH.
    destruct (attempted_cases E mbdx off f) as [(id & Hid & Hext) | Ha].
    + assert (Ha : attempted E mbdx (off, f) = true) by (apply attempted_true; eauto).
      rewrite Ha.
      destruct (turn_try_outcome _ _ _ _ _ _ _ _ _ _ Ht Hid Hext)
        as (_ & [(_ & _ & Hev & Hr) | [(name & _ & _ & _ & Hev & Hr) | (e & ? & _)]]);
        [| |done]; rewrite Hev, Hr, reports_app.
      * change (reports [Copied _ _]) with 0. lia.
      * change (reports [could_not_locate id name]) with 1. lia.
    + rewrite Ha.
      destruct (turn_pass_outcome _ _ _ _ _ _ _ _ _ Ht Ha) as (_ & _ & Hr & [Hev | Hev]);
        rewrite Hev, Hr, ?reports_app; [lia|].
      change (reports [StderrNoFileID f]) with 0. lia.
Qed.

(** X17: in a run that goes to its end every record that was tried is
    accounted for: it was copied, and is counted in the number reported,
    or a line was printed for it.  With the closing line, the number of
    lines printed is one more than the number of tried records that were
    not copied; and no more records are tried than the manifest has. *)
Theorem tried_records_are_copied_or_reported (E : env) (backup_path : str)
    (p : parsed) (evs : list event) (n : N) :
  process_mbdb_file E (manifest_path backup_path) ∅ = Done (Ok p) ->
  main E backup_path = Done (evs, Ok n) ->
  n + reports evs = len (tried E (mbdx p) (mbdb p)) + 1
  /\ n <= len (tried E (mbdx p) (mbdb p)) <= len (mbdb p).
Proof.
  intros Hp Hm. destruct (main_Ok _ _ _ _ _ Hp Hm) as (st & Hloop & -> & ->).
  apply main_loop_accounts in Hloop.
  assert (H0 : reports (events (initial_state E backup_path)) = 0).
  { unfold initial_state. simpl. by destruct (path_exists E _). }
  rewrite H0 in Hloop. unfold initial_state in Hloop. simpl in Hloop.
  rewrite reports_app. change (reports [recovered_line _]) with 1.
  assert (Hle : len (tried E (mbdx p) (mbdb p)) <= len (mbdb p)).
  { unfold tried, len. pose proof (length_filter (fun it => attempted E (mbdx p) it = true) (mbdb p)). lia. }
  lia.
Qed.

Lemma tried_records_are_copied_or_reported_witness :
  exists evs n,
    main (sample_env gap_manifest [second_blob]) (lit "backup") = Done (evs, Ok n)
    /\ n + reports evs
       = len (tried (sample_env gap_manifest [second_blob])
                (mbdx_of (process_mbdb_data gap_manifest ∅))
                (mbdb_of (process_mbdb_data gap_manifest ∅))) + 1.
Proof.
  pose (E := sample_env gap_manifest [second_blob]).
  assert (Hp : exists p,
            process_mbdb_file E (manifest_path (lit "backup")) ∅ = Done (Ok p)
            /\ process_mbdb_data gap_manifest ∅ = Done (Ok p))
    by (vm_compute; eexists; split; reflexivity).
  destruct Hp as (p & Hp & Hd).
  assert (Hm : exists evs n, main E (lit "backup") = Done (evs, Ok n))
    by (vm_compute; eexists _, _; reflexivity).
  destruct Hm as (evs & n & Hm). exists evs, n. split; [exact Hm|].
  rewrite Hd. simpl.
  destruct (tried_records_are_copied_or_reported E (lit "backup") p evs n Hp Hm) as [H _].
  exact H.
Defined.

(** ** Identifiers as file names *)

Lemma hex_digit_is_hex (n : N) : n < 16 -> is_hex (hex_digit n).
Proof.
  intros Hn. unfold hex_digit, is_hex. destruct (n <? 10) eqn:E.
  - apply N.ltb_lt in E. lia.
  - apply N.ltb_ge in E. lia.
Qed.

Lemma hex_digits_shape (n : nat) (x : N) :
  length (hex_digits n x) = n /\ Forall is_hex (hex_digits n x).
Proof.
  revert x. induction n as [|n IH]; intros x; simpl; [by split|].
  destruct (IH (x / 16)) as [Hl Hf]. split.
  - rewrite length_app, Hl. simpl. lia.
  - apply Forall_app. split; [done|]. constructor; [|done].
    apply hex_digit_is_hex. apply N.mod_lt. lia.
Qed.

Lemma sha1_hexdigest_shape (msg : bytes) :
  length (sha1_hexdigest msg) = 40%nat /\ Forall is_hex (sha1_hexdigest msg).
Proof.
  unfold sha1_hexdigest. destruct (sha1 msg) as [[[[h0 h1] h2] h3] h4].
  pose proof (hex_digits_shape 8 h0) as [L0 F0].
  pose proof (hex_digits_shape 8 h1) as [L1 F1].
  pose proof (hex_digits_shape 8 h2) as [L2 F2].
  pose proof (hex_digits_shape 8 h3) as [L3 F3].
  pose proof (hex_digits_shape 8 h4) as [L4 F4].
  split.
  - rewrite !length_app, L0, L1, L2, L3, L4. reflexivity.
  - rewrite !Forall_app. done.
Qed.

(** X18: the identifier of a record is forty lowercase hexadecimal digits,
    whatever the record; so it is a plain file name, and the source of a
    copy is the backup path, a slash unless the path is empty or ends with
    one, and the identifier: a file of the backup directory itself. *)
Theorem identifier_is_a_plain_file_name (f : fileinfo) (id : str) :
  file_id f = Ok id ->
  length id = 40%nat
  /\ Forall is_hex id
  /\ forall backup_path,
       path_join backup_path id
       = backup_path
         ++ match last backup_path with
            | None => []
            | Some c => if decide (c = 47) then [] else lit "/"
            end
         ++ id.
Proof.
  intros H. apply file_id_Ok in H as (b & _ & ->).
  destruct (sha1_hexdigest_shape b) as [Hl Hf]. split_and!; [done..|].
  intros bp. destruct (path_join_cases bp (sha1_hexdigest b)) as [[Hh _] | [_ ->]].
  - exfalso. destruct (sha1_hexdigest b) as [|c s]; [done|].
    injection Hh as ->. apply Forall_cons in Hf as [[?|?] _]; lia.
  - destruct (last bp) as [c|] eqn:El.
    + by destruct (decide (c = 47)).
    + apply last_None in El as ->. done.
Qed.

Lemma identifier_is_a_plain_file_name_witness :
  exists f id,
    file_id f = Ok id
    /\ length id = 40%nat
    /\ path_join (lit "backup") id = lit "backup" ++ lit "/" ++ id.
Proof.
  assert (Hf : exists f off', read_fileinfo notes_manifest 6 = Ok (f, off'))
    by (vm_compute; eexists _, _; reflexivity).
  destruct Hf as (f & _ & _).
  destruct (file_id_total f) as [id Hid]. exists f, id.
  destruct (identifier_is_a_plain_file_name f id Hid) as (Hl & _ & Hj).
  split; [exact Hid|]. split; [exact Hl|]. exact (Hj (lit "backup")).
Defined.

(** ** Termination *)

Lemma mbdb_loop_enough_fuel (fuel : nat) (data : bytes) (st : parsed) :
  len data <= end_offset st + 50 * N.of_nat fuel ->
  exists r, mbdb_loop fuel data st = Done r.
Proof.
  revert st. induction fuel as [|fuel IH]; intros st Hf; simpl.
  - destruct (end_offset st <? len data) eqn:E; [|eauto].
    apply N.ltb_lt in E. lia.
  - destruct (end_offset st <? len data) eqn:E; [|eauto].
    destruct (read_fileinfo data (end_offset st)) as [[f o]|] eqn:Hr; [|eauto].
    destruct (file_id f); [|eauto].
    apply read_fileinfo_Ok in Hr as (_ & Hr & _). apply IH. simpl. lia.
Qed.

(** X19: the loop of the reader ends on every input: each turn moves the
    cursor on by at least fifty bytes, so one turn for every fifty bytes
    of data is enough; and the reader, given one turn per byte, and with
    it every run, comes to an end, with a result or with an exception. *)
Theorem every_run_terminates :
  (forall data fuel mbdx0,
     len data <= 6 + 50 * N.of_nat fuel ->
     exists r, mbdb_loop fuel data {| mbdb := []; mbdx := mbdx0; end_offset := 6 |}
               = Done r)
  /\ (forall data mbdx0, exists r, process_mbdb_data data mbdx0 = Done r)
  /\ (forall E backup_path, exists evs r, main E backup_path = Done (evs, r)).
Proof.
  split_and!.
  - intros data fuel mbdx0 Hf. by apply mbdb_loop_enough_fuel.
  - apply process_mbdb_data_total.
  - intros E bp. destruct (main_total E bp) as [[evs r] H]. eauto.
Qed.

Lemma every_run_terminates_witness :
  exists r, mbdb_loop 4 gap_manifest {| mbdb := []; mbdx := ∅; end_offset := 6 |}
            = Done r.
Proof.
  assert (Hf : len gap_manifest <= 6 + 50 * N.of_nat 4) by (vm_compute; discriminate).
  destruct every_run_terminates as (H1 & _ & _).
  exact (H1 gap_manifest 4%nat ∅ Hf).
Defined.

(** ** The manifest reader: reading back what was written *)

Lemma getstring_next (pre post s : bytes) :
  len s < 65535 ->
  getstring (pre ++ encode_string s ++ post) (len pre)
  = Ok (s, len (pre ++ encode_string s)).
Proof. intros H. rewrite len_app. by apply getstring_encode_string. Qed.

Lemma getint_next (n : nat) (pre post : bytes) (x : N) :
  x < 256 ^ N.of_nat n ->
  getint (pre ++ map n2b (be_bytes n x) ++ post) (len pre) n
  = Ok (x, len (pre ++ map n2b (be_bytes n x))).
Proof.
  intros H. unfold getint. rewrite getint_loop_be_bytes by done.
  rewrite len_app. unfold len at 3. by rewrite List.length_map, be_bytes_length.
Qed.

Lemma props_loop_encoded (pairs : list (bytes * bytes)) (pre post : bytes)
    (props : dict str str) :
  Forall (fun p => len p.1 < 65535 /\ len p.2 < 65535) pairs ->
  props_loop
    (pre ++ flat_map (fun p => encode_string p.1 ++ encode_string p.2) pairs ++ post)
    (len pre) (length pairs) props
  = Ok (dict_update props (map decode_pair pairs),
        len (pre ++ flat_map (fun p => encode_string p.1 ++ encode_string p.2) pairs)).
Proof.
  revert pre props. induction pairs as [|[name val] pairs IH]; intros pre props Hok.
  - simpl. by rewrite app_nil_r.
  - apply Forall_cons in Hok as [[Hn Hv] Hok]. simpl in Hn, Hv.
    cbn [flat_map length props_loop fst snd]. rewrite <- !app_assoc.
    rewrite getstring_next by done. cbn [mbind result_bind].
    rewrite (app_assoc pre (encode_string name)).
    rewrite getstring_next by done. cbn [mbind result_bind].
    rewrite (app_assoc (pre ++ encode_string name) (encode_string val)).
    rewrite IH by done. rewrite <- !app_assoc. reflexivity.
Qed.

Lemma read_fileinfo_encoded (pre post : bytes) (f : fileinfo)
    (pairs : list (bytes * bytes)) :
  encodable f pairs ->
  read_fileinfo (pre ++ encode_record f pairs ++ post) (len pre)
  = Ok (as_read f (len pre) pairs, len pre + len (encode_record f pairs)).
Proof.
  intros ((H1 & H2 & H3 & H4 & H5)
          & (Hm & Hu2 & Hu3 & Hui & Hgi & Hmt & Hat & Hct & Hfl & Hfg) & Hnp & Hok).
  change (2 ^ 16) with (256 ^ N.of_nat 2) in Hm.
  change (2 ^ 32) with (256 ^ N.of_nat 4) in Hu2, Hu3, Hui, Hgi, Hmt, Hat, Hct.
  change (2 ^ 64) with (256 ^ N.of_nat 8) in Hfl.
  change (2 ^ 8) with (256 ^ N.of_nat 1) in Hfg, Hnp.
  rewrite <- len_app. unfold encode_record, read_fileinfo.
  rewrite !List.map_app, <- !app_assoc.
  repeat first
    [ rewrite getstring_next by assumption; cbn [mbind result_bind];
      match goal with
      | |- context [len (?p ++ ?x)] => rewrite (app_assoc p x)
      end
    | rewrite getint_next by assumption; cbn [mbind result_bind];
      match goal with
      | |- context [len (?p ++ ?x)] => rewrite (app_assoc p x)
      end ].
  replace (N.to_nat (len pairs)) with (length pairs) by (unfold len; lia).
  rewrite props_loop_encoded by assumption. cbn [mbind result_bind].
  rewrite <- !app_assoc. reflexivity.
Qed.

(** X20: a record written out field by field is read back as it was: for
    strings shorter than 65535 bytes, numbers within the width of their
    fields and fewer than 256 properties, reading the bytes of the record,
    wherever they lie in the data, yields the same strings and numbers,
    the offset they were read at, the number of properties, and the
    properties as a dictionary; the cursor is left right behind the
    record. *)
Theorem written_record_is_read_back (pre post : bytes) (f : fileinfo)
    (pairs : list (bytes * bytes)) :
  encodable f pairs ->
  read_fileinfo (pre ++ encode_record f pairs ++ post) (len pre)
  = Ok (as_read f (len pre) pairs, len pre + len (encode_record f pairs)).
Proof. apply read_fileinfo_encoded. Qed.

Lemma written_record_is_read_back_witness :
  let f := sample_fileinfo (blit "HomeDomain") (blit "notes.txt") 1682899200 in
  let pairs := [(blit "k", blit "v")] in
  read_fileinfo ((blit "mbdb" ++ [x05; x00]) ++ encode_record f pairs ++ []) 6
  = Ok (as_read f 6 pairs, 6 + len (encode_record f pairs)).
Proof.
  intros f pairs.
  apply (written_record_is_read_back (blit "mbdb" ++ [x05; x00]) [] f pairs).
  vm_compute. repeat split. repeat constructor.
Defined.

Lemma encode_record_length (f : fileinfo) (pairs : list (bytes * bytes)) :
  50 <= len (encode_record f pairs).
Proof.
  unfold encode_record, encode_string.
  rewrite !len_app, !len_cons, !List.map_app, !len_app. unfold len at 6 7 8 9 10 11 12 13 14 15 16.
  rewrite !List.length_map, !be_bytes_length. lia.
Qed.

Lemma mbdb_loop_encoded (records : list (fileinfo * list (bytes * bytes)))
    (pre : bytes) (st : parsed) (fuel : nat) :
  end_offset st = len pre ->
  (length records <= fuel)%nat ->
  Forall (fun r => encodable r.1 r.2) records ->
  (forall k, k ∈ (mbdb st).*1 -> k < len pre) ->
  exists p,
    mbdb_loop fuel (pre ++ flat_map (fun r => encode_record r.1 r.2) records) st
    = Done (Ok p)
    /\ mbdb p = mbdb st ++ placed (len pre) records
    /\ end_offset p = len (pre ++ flat_map (fun r => encode_record r.1 r.2) records).
Proof.
  revert pre st fuel. induction records as [|[f pairs] records IH];
    intros pre st fuel Hend Hfuel Hok Hkeys.
  - exists st. simpl. rewrite !app_nil_r. split_and!; [|done..].
    destruct fuel; simpl; by rewrite Hend, N.ltb_irrefl.
  - destruct fuel as [|fuel]; [simpl in Hfuel; lia|].
    apply Forall_cons in Hok as [Hf Hok]. simpl in Hf.
    pose proof (encode_record_length f pairs) as Hlen.
    cbn [flat_map fst snd mbdb_loop]. rewrite Hend.
    assert (Hlt : (len pre <? len (pre ++ encode_record f pairs
                     ++ flat_map (fun r => encode_record r.1 r.2) records)) = true).
    { apply N.ltb_lt. rewrite !len_app. lia. }
    rewrite Hlt, read_fileinfo_encoded by done.
    destruct (file_id_total (as_read f (len pre) pairs)) as [id ->].
    cbn [start_offset as_read].
    assert (Hfresh : len pre ∉ (mbdb st).*1).
    { intros Hin. apply Hkeys in Hin. lia. }
    rewrite (dict_set_fresh _ _ _ Hfresh), (app_assoc pre).
    destruct (IH (pre ++ encode_record f pairs)
                {| mbdb := mbdb st ++ [(len pre, as_read f (len pre) pairs)];
                   mbdx := <[len pre := id]> (mbdx st);
                   end_offset := len pre + len (encode_record f pairs) |} fuel)
      as (p & Hp & Hm & He).
    + simpl. by rewrite len_app.
    + simpl in Hfuel. lia.
    + done.
    + simpl. intros k. rewrite fmap_app, elem_of_app, len_app. simpl.
      rewrite list_elem_of_singleton. intros [Hk | ->]; [apply Hkeys in Hk|]; lia.
    + exists p. rewrite Hp. split_and!; [done | | done].
      rewrite Hm. simpl. by rewrite <- app_assoc, len_app.
Qed.

Lemma records_fit (records : list (fileinfo * list (bytes * bytes))) :
  (length records <= length (flat_map (fun r => encode_record r.1 r.2) records))%nat.
Proof.
  induction records as [|[f pairs] records IH]; simpl; [lia|].
  rewrite length_app. pose proof (encode_record_length f pairs) as H.
  unfold len in H. lia.
Qed.

(** X21: a manifest written out record by record is read back whole: the
    reader files every record under the offset of its first byte, the
    first one under 6, in the order they were written, and stops with the
    cursor at the end of the data. *)
Theorem written_manifest_is_read_back (unknown : bytes)
    (records : list (fileinfo * list (bytes * bytes))) (mbdx0 : gmap N str) :
  len unknown = 2 ->
  Forall (fun r => encodable r.1 r.2) records ->
  exists p,
    process_mbdb_data (encode_manifest unknown records) mbdx0 = Done (Ok p)
    /\ mbdb p = placed 6 records
    /\ end_offset p = len (encode_manifest unknown records).
Proof.
  intros Hu Hok. unfold process_mbdb_data.
  assert (Hmagic : slice (encode_manifest unknown records) 0 4 = blit "mbdb")
    by reflexivity.
  rewrite decide_True by exact Hmagic.
  assert (Hpre : len (blit "mbdb" ++ unknown) = 6).
  { rewrite len_app, Hu. reflexivity. }
  unfold encode_manifest. rewrite app_assoc.
  destruct (mbdb_loop_encoded records (blit "mbdb" ++ unknown)
              {| mbdb := []; mbdx := mbdx0; end_offset := 4 + 2 |}
              (length ((blit "mbdb" ++ unknown)
                       ++ flat_map (fun r => encode_record r.1 r.2) records)))
    as (p & Hp & Hm & He).
  - by rewrite Hpre.
  - rewrite length_app. pose proof (records_fit records). lia.
  - done.
  - intros k Hk. by apply elem_of_nil in Hk.
  - exists p. rewrite Hpre in Hm. by split_and!.
Qed.

Lemma written_manifest_is_read_back_witness :
  exists p,
    process_mbdb_data (encode_manifest [x05; x00] sample_records) ∅ = Done (Ok p)
    /\ mbdb p = placed 6 sample_records
    /\ end_offset p = len (encode_manifest [x05; x00] sample_records).
Proof.
  assert (Hu : len [x05; x00] = 2) by reflexivity.
  assert (Hok : Forall (fun r => encodable r.1 r.2) sample_records).
  { repeat constructor; vm_compute; reflexivity. }
  exact (written_manifest_is_read_back [x05; x00] sample_records ∅ Hu Hok).
Defined.

(** ** The manifest reader: bounds *)

(** When the records the loop has still to read lie back to back up to an
    offset at which the read of a record fails, the loop ends with the
    exception of that read. *)
Lemma mbdb_loop_fails (data : bytes) (o : N) (e : exn) (items : dict N fileinfo) :
  forall (fuel : nat) (st : parsed),
    chained data (end_offset st) items o ->
    o < len data ->
    read_fileinfo data o = Raise e ->
    (length items < fuel)%nat ->
    mbdb_loop fuel data st = Done (Raise e).
Proof.
  induction items as [|[k g] items IH]; intros fuel st Hc Ho He Hfuel;
    (destruct fuel as [|fuel]; [simpl in Hfuel; lia|]); cbn [mbdb_loop].
  - simpl in Hc. rewrite Hc, (proj2 (N.ltb_lt _ _) Ho), He. done.
  - simpl in Hc. destruct Hc as (_ & o' & Hr & Hc).
    pose proof (chained_end _ _ _ _ Hc) as Hend.
    pose proof (read_fileinfo_Ok _ _ _ _ Hr) as (_ & Hr50 & _).
    assert (Hlt : end_offset st < len data) by lia.
    rewrite (proj2 (N.ltb_lt _ _) Hlt), Hr.
    destruct (file_id_total g) as [id ->].
    apply IH; [done.. | simpl in Hfuel; lia].
Qed.

Lemma read_fileinfo_short (data : bytes) (off : N) :
  len data < off + 50 -> read_fileinfo data off = Raise IndexError.
Proof.
  intros Hl. destruct (read_fileinfo_total data off) as [[[f o] Hr] | Hr]; [|done].
  apply read_fileinfo_Ok in Hr as (_ & _ & Hr & _). lia.
Qed.

(** C2, amended: an integer read that runs past the end of the data fails
    with [IndexError], and so does a string read whose two-byte prefix runs
    past it; the read of a record fails with [IndexError] and with nothing
    else, and it does when the data ends within fifty bytes of the start of
    the record; and when the read of a record that the loop comes to fails,
    the parse fails with [IndexError].  A string whose declared length
    exceeds the bytes that remain is returned cut to those bytes, with the
    cursor past the end, so that every read after it fails; a record whose
    read leaves the cursor past the end has properties (the cut string is
    one of theirs); and a parse that succeeds ends with the cursor at or
    past the end of the data. *)
Theorem reads_past_the_end (data : bytes) :
  (forall off n, (0 < n)%nat -> len data < off + N.of_nat n ->
     getint data off n = Raise IndexError)
  /\ (forall off, len data < off + 2 -> getstring data off = Raise IndexError)
  /\ (forall off,
        (forall e, read_fileinfo data off = Raise e -> e = IndexError)
        /\ (len data < off + 50 -> read_fileinfo data off = Raise IndexError))
  /\ (forall mbdx0 items o e,
        take 4 data = blit "mbdb" ->
        chained data 6 items o -> o < len data ->
        read_fileinfo data o = Raise e ->
        process_mbdb_data data mbdx0 = Done (Raise IndexError))
  /\ (forall off v off', getstring data off = Ok (v, off') -> len data < off' ->
      len v = len data - (off + 2) /\ len v < off' - (off + 2)
      /\ (forall m, (0 < m)%nat -> getint data off' m = Raise IndexError)
      /\ getstring data off' = Raise IndexError)
  /\ (forall off f off', read_fileinfo data off = Ok (f, off') -> len data < off' ->
      numprops f <> 0)
  /\ (forall mbdx0 p, process_mbdb_data data mbdx0 = Done (Ok p) ->
      len data <= end_offset p).
Proof.
  assert (Hexn : forall off e, read_fileinfo data off = Raise e -> e = IndexError).
  { intros off e He. destruct (read_fileinfo_total data off) as [[r Hr] | Hr];
      congruence. }
  split_and!.
  - intros off n. apply getint_out.
  - apply getstring_out.
  - intros off. split; [apply Hexn | apply read_fileinfo_short].
  - intros mbdx0 items o e Hm Hc Ho He.
    rewrite (Hexn _ _ He) in He.
    unfold process_mbdb_data. rewrite decide_True by exact Hm.
    eapply mbdb_loop_fails; [exact Hc | exact Ho | exact He |].
    pose proof (chained_end _ _ _ _ Hc) as Hend. unfold len in *. lia.
  - intros off v off' Hg Hlt. apply getstring_Ok in Hg as (_ & _ & [? | [? ?]]); [lia|].
    split_and!; [done..| |].
    + intros m Hm. apply getint_out; [done | lia].
    + apply getstring_out. lia.
  - intros off f off' Hr Hlt Hn. apply read_fileinfo_Ok in Hr as (_ & _ & _ & Hr).
    specialize (Hr Hn). lia.
  - intros mbdx0 p. unfold process_mbdb_data. destruct (decide _); [|discriminate].
    apply mbdb_loop_end.
Qed.

Lemma reads_past_the_end_witness :
  getint [x01] 0 2 = Raise IndexError
  /\ getstring [x00] 0 = Raise IndexError
  /\ getstring [x00; x05; x76] 7 = Raise IndexError
  /\ read_fileinfo (take 30 notes_manifest) 6 = Raise IndexError
  /\ process_mbdb_data (take 30 notes_manifest) ∅ = Done (Raise IndexError)
  /\ process_mbdb_data (take 150 gap_manifest) ∅ = Done (Raise IndexError)
  /\ (forall f off', read_fileinfo truncated_manifest 6 = Ok (f, off') ->
        len truncated_manifest < off' -> numprops f <> 0)
  /\ (forall p, process_mbdb_data truncated_manifest ∅ = Done (Ok p) ->
        len truncated_manifest <= end_offset p).
Proof.
  assert (Hshort : read_fileinfo (take 30 notes_manifest) 6 = Raise IndexError).
  { destruct (reads_past_the_end (take 30 notes_manifest)) as (_ & _ & H & _).
    apply (H 6). vm_compute. reflexivity. }
  assert (Hchain : exists f, chained (take 150 gap_manifest) 6 [(6, f)] 104)
    by (vm_compute; eexists; split; [reflexivity | eexists; split; reflexivity]).
  destruct Hchain as [f1 Hchain].
  assert (Hcut : read_fileinfo (take 150 gap_manifest) 104 = Raise IndexError)
    by (vm_compute; reflexivity).
  split_and!.
  - destruct (reads_past_the_end [x01]) as (H & _).
    apply H; [lia | vm_compute; reflexivity].
  - destruct (reads_past_the_end [x00]) as (_ & H & _).
    apply H. vm_compute. reflexivity.
  - destruct (reads_past_the_end [x00; x05; x76]) as (_ & _ & _ & _ & H & _).
    apply (H 0 [x76] 7); [reflexivity | vm_compute; reflexivity].
  - exact Hshort.
  - destruct (reads_past_the_end (take 30 notes_manifest)) as (_ & _ & _ & H & _).
    apply (H ∅ [] 6 IndexError); [reflexivity | reflexivity | | exact Hshort].
    vm_compute. reflexivity.
  - destruct (reads_past_the_end (take 150 gap_manifest)) as (_ & _ & _ & H & _).
    apply (H ∅ [(6, f1)] 104 IndexError); [reflexivity | exact Hchain | | exact Hcut].
    vm_compute. reflexivity.
  - destruct (reads_past_the_end truncated_manifest) as (_ & _ & _ & _ & _ & H & _).
    intros f off'. apply H.
  - destruct (reads_past_the_end truncated_manifest) as (_ & _ & _ & _ & _ & _ & H).
    apply H.
Defined.

(** ** Classification by extension *)

Lemma media_extensions_list (e : str) :
  e ∈ media_extensions <->
  e = lit ".jpg" \/ e = lit ".jpeg" \/ e = lit ".png" \/ e = lit ".tiff"
  \/ e = lit ".heic" \/ e = lit ".mov" \/ e = lit ".mp4" \/ e = lit ".mp3"
  \/ e = lit ".pdf".
Proof.
  unfold media_extensions. simpl map.
  rewrite !elem_of_cons, elem_of_nil. tauto.
Qed.

(** What the loop does with a record that has an identifier and a media
    extension when the copy succeeds. *)
Lemma main_body_copies (E : env) (bp df : str) (mbdx : gmap N str) (st : mstate)
    (off : N) (f : fileinfo) (id : str) :
  mbdx !! off = Some id ->
  extension E (PyBytes (filename f)) ∈ media_extensions ->
  let d := local_date E (ctime f) in
  let n := default 0 (seen_dates st !! d) + 1 in
  let src := path_join bp id in
  let dest := path_join df (dest_name d n (extension E (PyBytes (filename f)))) in
  seen_dates (main_body E bp df mbdx st off f).1 = <[d := n]> (seen_dates st)
  /\ (shutil_copy E src dest = Ok tt ->
      main_body E bp df mbdx st off f
      = ({| media_recovered := media_recovered st + 1;
            seen_dates := <[d := n]> (seen_dates st);
            events := events st ++ [Copied src dest] |}, None)).
Proof.
  intros Hid Hext d n src dest.
  pose proof (main_body_turn E bp df mbdx st off f) as Ht.
  destruct (main_body E bp df mbdx st off f) as [st' r].
  destruct (turn_try_outcome _ _ _ _ _ _ _ _ _ _ Ht Hid Hext) as (Hseen & Hcase).
  fold d n src dest in Hseen, Hcase. split; [exact Hseen|].
  intros Hc.
  destruct Hcase as [(_ & -> & Hev & Hrec)
                    | [(name & Hc' & _) | (e & _ & _ & _ & [[Hc' _] | [Hc' _]])]];
    [| congruence..].
  destruct st' as [rec seen evs]. simpl in *. by subst.
Qed.

(** C8: a record is copied or passed over by whether the extension of its
    name is on the allow-list, which holds the nine extensions [.jpg],
    [.jpeg], [.png], [.tiff], [.heic], [.mov], [.mp4], [.mp3] and [.pdf].
    A record whose extension is on the list is tried: its date is counted
    and, when the copy succeeds, the file is copied to the destination named
    by date, number and extension, and counted as recovered.  A record whose
    extension is not on the list leaves the state as it was: nothing copied,
    nothing printed.  The extension of a name with a dot runs from the last
    dot to the end, lowercased; a name whose ASCII ending is on the list up
    to case has that entry as its extension, so that names in [.JPG],
    [.Jpg] and [.jpg] are all media. *)
Theorem media_is_decided_by_extension (E : env) :
  (forall e,
     e ∈ media_extensions <->
     e = lit ".jpg" \/ e = lit ".jpeg" \/ e = lit ".png" \/ e = lit ".tiff"
     \/ e = lit ".heic" \/ e = lit ".mov" \/ e = lit ".mp4" \/ e = lit ".mp3"
     \/ e = lit ".pdf")
  /\ (forall bp df mbdx st off f id,
        mbdx !! off = Some id ->
        extension E (PyBytes (filename f)) ∈ media_extensions ->
        let d := local_date E (ctime f) in
        let n := default 0 (seen_dates st !! d) + 1 in
        let src := path_join bp id in
        let dest := path_join df (dest_name d n (extension E (PyBytes (filename f)))) in
        seen_dates (main_body E bp df mbdx st off f).1 = <[d := n]> (seen_dates st)
        /\ (shutil_copy E src dest = Ok tt ->
            main_body E bp df mbdx st off f
            = ({| media_recovered := media_recovered st + 1;
                  seen_dates := <[d := n]> (seen_dates st);
                  events := events st ++ [Copied src dest] |}, None)))
  /\ (forall bp df mbdx st off f id,
     mbdx !! off = Some id ->
     extension E (PyBytes (filename f)) ∉ media_extensions ->
     main_body E bp df mbdx st off f = (st, None))
  /\ (forall mbdx off f,
        attempted E mbdx (off, f) = true <->
        is_Some (mbdx !! off)
        /\ extension E (PyBytes (filename f)) ∈ media_extensions)
  /\ (forall name pre post,
        decode_replace name = pre ++ 46 :: post -> 46 ∉ post ->
        extension E (PyBytes name) = lower E (46 :: post))
  /\ (forall p sfx,
        Forall (fun b => b2n b < 0x80) sfx ->
        map ascii_lower (map b2n sfx) ∈ media_extensions ->
        extension E (PyBytes (p ++ sfx)) = map ascii_lower (map b2n sfx))
  /\ (forall p,
        extension E (PyBytes (p ++ blit ".JPG")) = lit ".jpg"
        /\ extension E (PyBytes (p ++ blit ".Jpg")) = lit ".jpg"
        /\ extension E (PyBytes (p ++ blit ".jpg")) = lit ".jpg"
        /\ lit ".jpg" ∈ media_extensions).
Proof.
  split_and!.
  - apply media_extensions_list.
  - intros bp df mbdx st off f id. apply main_body_copies.
  - intros bp df mbdx st off f id Hid Hext.
    pose proof (main_body_turn E bp df mbdx st off f) as Ht.
    inversion Ht as [Hn | id' Hid' Hext' Heq | id' r0 Hid' Hext' d0 st1 src dest Hr Heq];
      [congruence | done | done].
  - intros mbdx off f. unfold attempted. simpl.
    by rewrite andb_true_iff, !bool_decide_eq_true.
  - intros name pre post Hd Hpost. by apply (extension_last_dot E (PyBytes name) pre post).
  - apply extension_suffix.
  - assert (Hin : lit ".jpg" ∈ media_extensions) by apply list_elem_of_here.
    intros p. split_and!; [| | |done].
    all: apply (extension_suffix E p); [repeat constructor | exact Hin].
Qed.

Lemma media_is_decided_by_extension_witness :
  extension (sample_env [] []) (PyBytes (blit "Media/DCIM/100APPLE/IMG_0001" ++ blit ".JPG"))
  = lit ".jpg"
  /\ extension (sample_env [] []) (PyBytes ([xff; xe2] ++ blit ".Jpg")) = lit ".jpg"
  /\ main_body (sample_env [] [lit "backup/id"]) (lit "backup") (lit "out")
       {[ 6 := lit "id" ]} {| media_recovered := 0; seen_dates := ∅; events := [] |}
       6 (sample_fileinfo (blit "CameraRollDomain") (blit "IMG_0001.MOV") 1682899200)
     = ({| media_recovered := 1;
           seen_dates := {[ lit "2023_05_01" := 1 ]};
           events := [Copied (lit "backup/id") (lit "out/2023_05_01_1.mov")] |}, None)
  /\ main_body (sample_env [] []) (lit "backup") (lit "out")
       {[ 6 := lit "id" ]} {| media_recovered := 0; seen_dates := ∅; events := [] |}
       6 (sample_fileinfo (blit "HomeDomain") (blit "notes.txt") 0)
     = ({| media_recovered := 0; seen_dates := ∅; events := [] |}, None).
Proof.
  split_and!.
  - destruct (media_is_decided_by_extension (sample_env [] []))
      as (_ & _ & _ & _ & _ & _ & H). apply H.
  - destruct (media_is_decided_by_extension (sample_env [] []))
      as (_ & _ & _ & _ & _ & _ & H). apply H.
  - destruct (media_is_decided_by_extension (sample_env [] [lit "backup/id"]))
      as (_ & H & _).
    assert (Hid : ({[ 6 := lit "id" ]} : gmap N str) !! 6 = Some (lit "id"))
      by (vm_compute; reflexivity).
    assert (Hext : extension (sample_env [] [lit "backup/id"])
                     (PyBytes (filename (sample_fileinfo (blit "CameraRollDomain")
                                           (blit "IMG_0001.MOV") 1682899200)))
                   ∈ media_extensions)
      by (vm_compute; do 5 apply list_elem_of_further; apply list_elem_of_here).
    destruct (H (lit "backup") (lit "out") _
                {| media_recovered := 0; seen_dates := ∅; events := [] |}
                6 _ (lit "id") Hid Hext) as [_ Hcopy].
    rewrite Hcopy; [|vm_compute; reflexivity].
    vm_compute. reflexivity.
  - destruct (media_is_decided_by_extension (sample_env [] [])) as (_ & _ & H & _).
    apply (H _ _ _ _ _ _ (lit "id")).
    + vm_compute. reflexivity.
    + vm_compute. intros Hin.
      repeat (apply elem_of_cons in Hin as [Hin | Hin]; [discriminate|]).
      by apply elem_of_nil in Hin.
Defined.

(** ** Missing files *)

(** C6: the claim is what the handler of lines 143 and 144 sets out to do,
    and the code misses it for one kind of name.  The only record of this
    manifest is a picture called [b'\xff.jpg']; its file is not in the
    backup directory.  The record is media and the copy fails for want of
    the source, so the handler is entered; but it decodes the name with the
    strict codec, where every other decoding of a name in the program
    replaces what is malformed (here by U+FFFD), and the run ends with
    [UnicodeDecodeError]: no line names the record, and no count is
    printed. *)
Theorem absent_blob_with_undecodable_name_aborts :
  let E := sample_env undecodable_manifest [] in
  let name := [xff] ++ blit ".jpg" in
  let id := sha1_hexdigest (blit "CameraRollDomain-" ++ [xef; xbf; xbd] ++ blit ".jpg") in
  (mbdb_of (process_mbdb_data undecodable_manifest ∅)).*1 = [6]
  /\ filename <$> (mbdb_of (process_mbdb_data undecodable_manifest ∅)).*2 = [name]
  /\ mbdx_of (process_mbdb_data undecodable_manifest ∅) !! 6 = Some id
  /\ extension E (PyBytes name) = lit ".jpg"
  /\ shutil_copy E (path_join (lit "backup") id)
       (lit "recovered_media/backup/1970_01_01_1.jpg") = Raise FileNotFoundError
  /\ decode_replace name = 0xFFFD :: lit ".jpg"
  /\ decode_strict name = Raise UnicodeDecodeError
  /\ main E (lit "backup")
     = Done ([Makedirs (lit "recovered_media/backup")], Raise UnicodeDecodeError).
Proof. vm_compute. split_and!; reflexivity. Qed.


(** ** The manifest reader: how it fails *)

(** X7: the reader fails in three ways only: with the exception of
    [open] or [read], when the file cannot be read; with the format
    exception, when the data read does not start with the marker; and with
    [IndexError], when the marker is there and the data, longer than the
    header, ends within a record. *)
Theorem reader_fails_in_three_ways (E : env) (name : str) (mbdx0 : gmap N str)
    (e : exn) :
  process_mbdb_file E name mbdx0 = Done (Raise e) ->
  read_file E name = Raise e
  \/ exists data,
       read_file E name = Ok data
       /\ ((e = NotMbdb /\ take 4 data <> blit "mbdb")
           \/ (e = IndexError /\ take 4 data = blit "mbdb" /\ 6 < len data)).
Proof.
  unfold process_mbdb_file. destruct (read_file E name) as [data|e0].
  - intros H. right. exists data. split; [done|]. revert H.
    unfold process_mbdb_data. destruct (decide _) as [Hm | Hm].
    + intros H. apply mbdb_loop_Raise in H as [-> H]. right. done.
    + intros [= <-]. left. done.
  - intros [= <-]. by left.
Qed.

Lemma reader_fails_in_three_ways_witness :
  read_file (sample_env (blit "mbdb" ++ [x05; x00; x00]) []) (lit "backup/Manifest.mbdb")
  = Raise IndexError
  \/ exists data,
       read_file (sample_env (blit "mbdb" ++ [x05; x00; x00]) [])
         (lit "backup/Manifest.mbdb") = Ok data
       /\ ((IndexError = NotMbdb /\ take 4 data <> blit "mbdb")
           \/ (IndexError = IndexError /\ take 4 data = blit "mbdb" /\ 6 < len data)).
Proof.
  apply (reader_fails_in_three_ways (sample_env (blit "mbdb" ++ [x05; x00; x00]) [])
           (lit "backup/Manifest.mbdb") ∅ IndexError).
  vm_compute. reflexivity.
Defined.

(** ** Whole runs: the destination folder *)

Lemma main_loop_no_makedirs (E : env) (bp df : str) (mbdx : gmap N str)
    (items : dict N fileinfo) (st st' : mstate) (r : option exn) :
  main_loop E bp df mbdx items st = (st', r) ->
  exists rest, events st' = events st ++ rest /\ forall name, Makedirs name ∉ rest.
Proof.
  apply (main_loop_invariant (fun s => exists rest,
           events s = events st ++ rest /\ forall name, Makedirs name ∉ rest)).
  - intros s off f s' r1 _ (rest & Hs & Hrest) Ht.
    assert (Hadd : forall ev, (forall name, ev <> Makedirs name) ->
              events s' = events s ++ [ev] ->
              exists rest', events s' = events st ++ rest'
                            /\ forall name, Makedirs name ∉ rest').
    { intros ev Hev Heq. exists (rest ++ [ev]).
      rewrite Heq, Hs, <- app_assoc. split; [done|]. intros name.
      rewrite elem_of_app, list_elem_of_singleton. intros [? | ?].
      - by apply (Hrest name).
      - by apply (Hev name). }
    destruct (attempted_cases E mbdx off f) as [(id & Hid & Hext) | Ha].
    + destruct (turn_try_outcome _ _ _ _ _ _ _ _ _ _ Ht Hid Hext)
        as (_ & [(_ & _ & Hev & _) | [(name & _ & _ & _ & Hev & _) | (e & _ & Hev & _)]]).
      * eapply Hadd; [|exact Hev]. done.
      * eapply Hadd; [|exact Hev]. unfold could_not_locate. done.
      * exists rest. by rewrite Hev.
    + destruct (turn_pass_outcome _ _ _ _ _ _ _ _ _ Ht Ha) as (_ & _ & _ & [Hev | Hev]).
      * exists rest. by rewrite Hev.
      * eapply Hadd; [|exact Hev]. done.
  - exists []. rewrite app_nil_r. split; [done|]. intros name Hin.
    by apply elem_of_nil in Hin.
Qed.

(** X13: a run whose manifest cannot be read or parsed does nothing: no
    folder is made, nothing is copied or printed, and the exception of the
    reader ends it.  After a parse the destination folder is looked for
    before anything else.  When it is not there and [os.makedirs] raises,
    the run ends with that exception before the loop: nothing is copied or
    printed.  When it is there, or [os.makedirs] returns, the run goes on:
    its events begin with the making of the folder exactly when the folder
    was not there, and no folder is made after that. *)
Theorem folder_is_made_first_and_once (E : env) (backup_path : str) :
  (forall e, process_mbdb_file E (manifest_path backup_path) ∅ = Done (Raise e) ->
     main E backup_path = Done ([], Raise e))
  /\ (forall p, process_mbdb_file E (manifest_path backup_path) ∅ = Done (Ok p) ->
      (forall e,
         path_exists E (dest_folder_of backup_path) = false ->
         os_makedirs E (dest_folder_of backup_path) = Raise e ->
         main E backup_path = Done ([], Raise e))
      /\ (folder_ready E backup_path ->
          exists rest r,
            main E backup_path
            = Done ((if path_exists E (dest_folder_of backup_path) then []
                     else [Makedirs (dest_folder_of backup_path)]) ++ rest, r)
            /\ forall name, Makedirs name ∉ rest)).
Proof.
  split.
  - intros e Hp. unfold main. fold (manifest_path backup_path). by rewrite Hp.
  - intros p Hp. split.
    + intros e Hex Hmk. apply (main_stuck _ _ p); [done|].
      unfold create_folder_in_not_exists. by rewrite Hex, Hmk.
    + intros Hf. rewrite (main_parsed _ _ _ Hp Hf).
      destruct (main_loop _ _ _ _ _ _) as [st r'] eqn:Hloop.
      apply main_loop_no_makedirs in Hloop as (rest & Hs & Hrest).
      unfold initial_state in Hs. simpl in Hs.
      destruct r' as [e|].
      * exists rest, (Raise e). rewrite Hs. by split.
      * exists (rest ++ [recovered_line (media_recovered st)]), (Ok (media_recovered st)).
        rewrite Hs, <- app_assoc. split; [done|]. intros nm.
        rewrite elem_of_app, list_elem_of_singleton. intros [? | ?]; [|done].
        by apply (Hrest nm).
Qed.

Lemma folder_is_made_first_and_once_witness :
  main (stuck_env notes_manifest []) (lit "backup") = Done ([], Raise OSError)
  /\ exists rest r,
       main (sample_env notes_manifest []) (lit "backup")
       = Done ([Makedirs (lit "recovered_media/backup")] ++ rest, r)
       /\ forall name, Makedirs name ∉ rest.
Proof.
  assert (Hp : exists p,
            process_mbdb_file (sample_env notes_manifest [])
              (manifest_path (lit "backup")) ∅ = Done (Ok p)
            /\ process_mbdb_file (stuck_env notes_manifest [])
                 (manifest_path (lit "backup")) ∅ = Done (Ok p))
    by (vm_compute; eexists; split; reflexivity).
  destruct Hp as (p & Hp & Hp'). split.
  - destruct (folder_is_made_first_and_once (stuck_env notes_manifest []) (lit "backup"))
      as [_ H].
    destruct (H p Hp') as [Hstuck _]. apply Hstuck; reflexivity.
  - destruct (folder_is_made_first_and_once (sample_env notes_manifest []) (lit "backup"))
      as [_ H].
    destruct (H p Hp) as [_ Hready]. apply Hready. right. reflexivity.
Defined.

(** ** Missing files: the names that can be printed *)


